(** * EV analytics dashboard: the aggregation engine [EVDataProcessor]

    A shallow embedding of [src/lib/data-processor.ts] (the class
    [EVDataProcessor]) and of the record types of [src/types/ev-data.ts],
    together with the properties that the specification states about it;
    and of the computations that its callers make on its results: the page
    [Home] ([src/app/page.tsx]) and the components [GeographicAnalysis],
    [RangeAnalysis] and [ComparisonCharts] ([src/components]).

    Conventions of the embedding.

    - A JavaScript [number] is an IEEE-754 binary64 value.  It is modelled
      by the type [number]: [NaN], the two infinities, and a finite double
      given by the rational it denotes.  Every arithmetic operation computes
      the exact rational result and rounds it with [fl], round-to-nearest,
      ties-to-even, 53 bits of precision, written out below.  The sign of a
      zero is not represented: the only operations of the engine that could
      observe it are divisions by a zero, and every denominator of the
      engine is an array length or a counter, that is a positive zero.
    - Array lengths and the counters that the engine increments by one from
      zero are modelled by [nat]; [of_nat] converts them to a [number] where
      the code does arithmetic on them.
    - A [Map] is an association list in insertion order, since the order of
      [Map.entries()] decides how ties are ordered by the stable [sort].
    - A string is held by a [string] as the bytes of its UTF-8 encoding,
      which is what a string literal of this file holds and what
      [response.text()] decodes.  What the code does with strings (equality,
      the test for the empty string, concatenation, [split] at ["|"],
      [trim] and [parseInt]) is the same on these bytes as on the UTF-16
      code units of the engine; a sequence of bytes that is not the
      encoding of a text stands for no string.  [undefined] (an absent
      array element) is [None].
    - A method of the class is a function from the engine to a completion
      (normal or thrown) and the engine afterwards.
    - [parseInt] converts the integer that the digits write to the nearest
      double; the freedom that ECMAScript leaves to approximate a decimal
      numeral of more than twenty digits is not used.
    - The resource limits of an engine are not part of the methods of the
      class.  The one that decides what a caller shows, the number of
      arguments that [Math.max(...years)] may have, is a parameter of the
      page [Home]. *)

From Stdlib Require Import ZArith QArith Qround Qabs Qpower Lia Lqa.
From Stdlib Require Import List String Ascii Bool.
From Stdlib Require Import Sorted Permutation.
From Stdlib Require Qcanon.
From Stdlib Require Import DecimalString DecimalNat.
Import ListNotations.

(** ** JavaScript numbers *)

Open Scope Q_scope.

Inductive number : Type :=
| NaN
| Inf (neg : bool)
| Fin (q : Q).

(** [pow2 e] is 2^e as a rational, for any integer exponent. *)
Definition pow2 (e : Z) : Q := Qpower (2#1) e.

(** The exponent of the binade of a positive rational:
    [pow2 (ilog2 a) <= a < pow2 (ilog2 a + 1)]. *)
Definition ilog2 (a : Q) : Z :=
  let k := (Z.log2 (Qnum a) - Z.log2 (Zpos (Qden a)))%Z in
  if Qle_bool (pow2 k) a then k else (k - 1)%Z.

(** Round a rational to the nearest integer, ties to the even one. *)
Definition rne (x : Q) : Z :=
  let f := Qfloor x in
  match Qcompare (x - inject_Z f) (1#2) with
  | Lt => f
  | Gt => (f + 1)%Z
  | Eq => if Z.even f then f else (f + 1)%Z
  end.

(** Rounding of a positive rational to 53 significant bits, with the
    exponent bounded below by the one of the subnormal doubles. *)
Definition fl_abs (a : Q) : Q :=
  let e := Z.max (ilog2 a - 52) (-1074) in
  (inject_Z (rne (a / pow2 e)) * pow2 e)%Q.

(** The double nearest to a rational; overflow gives an infinity. *)
Definition fl (q : Q) : number :=
  match Qcompare q 0 with
  | Eq => Fin 0
  | Gt => let r := fl_abs q in
          if Qle_bool (pow2 1024) r then Inf false else Fin (Qred r)
  | Lt => let r := fl_abs (- q) in
          if Qle_bool (pow2 1024) r then Inf true else Fin (Qred (- r))
  end.

Definition Qneg_bool (q : Q) : bool := negb (Qle_bool 0 q).

Definition of_Z (z : Z) : number := fl (inject_Z z).
Definition of_nat (n : nat) : number := of_Z (Z.of_nat n).

(** [x + y] *)
Definition jsadd (x y : number) : number :=
  match x, y with
  | NaN, _ | _, NaN => NaN
  | Inf s, Inf s' => if Bool.eqb s s' then Inf s else NaN
  | Inf s, Fin _ | Fin _, Inf s => Inf s
  | Fin a, Fin b => fl (a + b)
  end.

(** [x - y] *)
Definition jssub (x y : number) : number :=
  match x, y with
  | NaN, _ | _, NaN => NaN
  | Inf s, Inf s' => if Bool.eqb s s' then NaN else Inf s
  | Inf s, Fin _ => Inf s
  | Fin _, Inf s => Inf (negb s)
  | Fin a, Fin b => fl (a - b)
  end.

(** [x * y] *)
Definition jsmul (x y : number) : number :=
  match x, y with
  | NaN, _ | _, NaN => NaN
  | Inf s, Inf s' => Inf (xorb s s')
  | Inf s, Fin b | Fin b, Inf s =>
      if Qeq_bool b 0 then NaN else Inf (xorb s (Qneg_bool b))
  | Fin a, Fin b => fl (a * b)
  end.

(** [x / y] *)
Definition jsdiv (x y : number) : number :=
  match x, y with
  | NaN, _ | _, NaN => NaN
  | Inf _, Inf _ => NaN
  | Inf s, Fin b => Inf (xorb s (Qneg_bool b))
  | Fin _, Inf _ => Fin 0
  | Fin a, Fin b =>
      if Qeq_bool b 0
      then (if Qeq_bool a 0 then NaN else Inf (Qneg_bool a))
      else fl (a / b)
  end.

(** [x > y], [x >= y], [x <= y]: false as soon as an operand is [NaN]. *)
Definition jsgt (x y : number) : bool :=
  match x, y with
  | NaN, _ | _, NaN => false
  | Inf s, Inf s' => negb s && s'
  | Inf s, Fin _ => negb s
  | Fin _, Inf s => s
  | Fin a, Fin b => negb (Qle_bool a b)
  end.

Definition jsge (x y : number) : bool :=
  match x, y with
  | NaN, _ | _, NaN => false
  | Inf s, Inf s' => negb s || s'
  | Inf s, Fin _ => negb s
  | Fin _, Inf s => s
  | Fin a, Fin b => Qle_bool b a
  end.

Definition jsle (x y : number) : bool := jsge y x.

(** Truthiness of a number: [NaN] and zero are falsy. *)
Definition truthy (x : number) : bool :=
  match x with
  | NaN => false
  | Inf _ => true
  | Fin q => negb (Qeq_bool q 0)
  end.

(** [x || d] on numbers. *)
Definition or_num (x d : number) : number := if truthy x then x else d.

(** Equality of [Map] keys (SameValueZero). *)
Definition same_value (x y : number) : bool :=
  match x, y with
  | NaN, NaN => true
  | Inf s, Inf s' => Bool.eqb s s'
  | Fin a, Fin b => Qeq_bool a b
  | _, _ => false
  end.

(** [Math.round]: the integer nearest to [x], ties towards +Infinity; the
    result floor(x + 1/2) is computed exactly. *)
Definition Math_round (x : number) : number :=
  match x with
  | Fin q => Fin (inject_Z (Qfloor (q + (1#2))))
  | _ => x
  end.

Definition max2 (x y : number) : number :=
  match x, y with
  | NaN, _ | _, NaN => NaN
  | _, _ => if jsge x y then x else y
  end.

Definition min2 (x y : number) : number :=
  match x, y with
  | NaN, _ | _, NaN => NaN
  | _, _ => if jsle x y then x else y
  end.

(** [Math.max(...l)] and [Math.min(...l)]; with no argument they are
    -Infinity and +Infinity. *)
Definition Math_max (l : list number) : number := fold_left max2 l (Inf true).
Definition Math_min (l : list number) : number := fold_left min2 l (Inf false).

(** ** Strings *)

Close Scope Q_scope.
Open Scope string_scope.
Open Scope list_scope.

(** [s || d] on a string that may be [undefined]. *)
Definition or_str (o : option string) (d : string) : string :=
  match o with
  | Some s => if String.eqb s "" then d else s
  | None => d
  end.

Definition truthy_str (s : string) : bool := negb (String.eqb s "").

(** White space.  The characters that [parseInt] skips and [trim] removes
    are the WhiteSpace and LineTerminator characters of ECMAScript.  In the
    UTF-8 encoding, which a string holds, they are
    - U+0009 to U+000D and U+0020: one byte, 9 to 13 and 32;
    - U+00A0: the bytes C2 A0;
    - U+1680: E1 9A 80;
    - U+2000 to U+200A: E2 80 80 to E2 80 8A;
    - U+2028, U+2029 and U+202F: E2 80 A8, E2 80 A9 and E2 80 AF;
    - U+205F: E2 81 9F;
    - U+3000: E3 80 80;
    - U+FEFF: EF BB BF. *)
Definition ws1 (a : ascii) : bool :=
  let n := nat_of_ascii a in
  ((9 <=? n)%nat && (n <=? 13)%nat) || (n =? 32)%nat.

Definition ws2 (a b : ascii) : bool :=
  ((nat_of_ascii a =? 194)%nat && (nat_of_ascii b =? 160)%nat)%bool.

Definition ws3 (a b c : ascii) : bool :=
  let x := nat_of_ascii a in
  let y := nat_of_ascii b in
  let z := nat_of_ascii c in
  ((x =? 225)%nat && (y =? 154)%nat && (z =? 128)%nat)
  || ((x =? 226)%nat && (y =? 128)%nat
      && (((128 <=? z)%nat && (z <=? 138)%nat)
          || (z =? 168)%nat || (z =? 169)%nat || (z =? 175)%nat))
  || ((x =? 226)%nat && (y =? 129)%nat && (z =? 159)%nat)
  || ((x =? 227)%nat && (y =? 128)%nat && (z =? 128)%nat)
  || ((x =? 239)%nat && (y =? 187)%nat && (z =? 191)%nat).

(** The string without the characters at its start that are among those
    of one, two and three bytes that [p1], [p2] and [p3] accept. *)
Section Skip.
Variable p1 : ascii -> bool.
Variable p2 : ascii -> ascii -> bool.
Variable p3 : ascii -> ascii -> ascii -> bool.

Fixpoint skip (s : string) : string :=
  match s with
  | String a s1 =>
      if p1 a then skip s1
      else
        match s1 with
        | String b s2 =>
            if p2 a b then skip s2
            else
              match s2 with
              | String c s3 => if p3 a b c then skip s3 else s
              | EmptyString => s
              end
        | EmptyString => s
        end
  | EmptyString => s
  end.
End Skip.

(** The string without the white space at its start. *)
Definition skip_ws (s : string) : string := skip ws1 ws2 ws3 s.

(** The same on a string that is read from its end: the bytes of a
    character come in the opposite order. *)
Definition skip_ws_rev (s : string) : string :=
  skip ws1 (fun a b => ws2 b a) (fun a b c => ws3 c b a) s.

Fixpoint string_rev (s acc : string) : string :=
  match s with
  | String c s' => string_rev s' (String c acc)
  | EmptyString => acc
  end.

(** [s.trim()] *)
Definition trim (s : string) : string :=
  string_rev (skip_ws_rev (string_rev (skip_ws s) "")) "".

(** [s.split(c)] for a one-character separator; never empty. *)
Fixpoint split (c : ascii) (s : string) : list string :=
  match s with
  | EmptyString => [""]
  | String a s' =>
      if Ascii.eqb a c then "" :: split c s'
      else match split c s' with
           | h :: t => String a h :: t
           | [] => [String a ""]
           end
  end.

(** The value of a character as a digit in the given radix. *)
Definition digit_val (radix : Z) (c : ascii) : option Z :=
  let n := Z.of_nat (nat_of_ascii c) in
  let d := if (48 <=? n)%Z && (n <=? 57)%Z then (n - 48)%Z
           else if (97 <=? n)%Z && (n <=? 122)%Z then (n - 87)%Z
           else if (65 <=? n)%Z && (n <=? 90)%Z then (n - 55)%Z
           else radix in
  if (d <? radix)%Z then Some d else None.

(** The integer written by the longest prefix of digits; [acc] is the value
    read so far, [None] while no digit has been read. *)
Fixpoint read_digits (radix : Z) (s : string) (acc : option Z) : option Z :=
  match s with
  | String c s' =>
      match digit_val radix c with
      | Some d =>
          read_digits radix s'
            (Some (radix * match acc with Some a => a | None => 0 end + d)%Z)
      | None => acc
      end
  | EmptyString => acc
  end.

Definition strip_sign (s : string) : bool * string :=
  match s with
  | String "-" r => (true, r)
  | String "+" r => (false, r)
  | _ => (false, s)
  end.

Definition strip_radix (s : string) : Z * string :=
  match s with
  | String "0" (String "x" r) | String "0" (String "X" r) => (16%Z, r)
  | _ => (10%Z, s)
  end.

(** [parseInt(s)] without a radix, on a string. *)
Definition parseInt_string (s : string) : number :=
  let (neg, s2) := strip_sign (skip_ws s) in
  let (radix, s3) := strip_radix s2 in
  match read_digits radix s3 None with
  | None => NaN
  | Some z => of_Z (if neg then - z else z)
  end.

(** [parseInt(x)] where [x] may be [undefined], which is first converted to
    the string ["undefined"]. *)
Definition parseInt (o : option string) : number :=
  parseInt_string (match o with Some s => s | None => "undefined" end).

(** ** Arrays and maps *)

(** [l.slice(0, end)]: [end] is converted with ToIntegerOrInfinity; a
    negative end counts from the end of the array. *)
Definition slice0 {A : Type} (l : list A) (end_ : number) : list A :=
  let len := Z.of_nat (List.length l) in
  let final :=
    match end_ with
    | NaN => 0%Z
    | Inf true => 0%Z
    | Inf false => len
    | Fin q =>
        let k := Z.quot (Qnum q) (Zpos (Qden q)) in
        if (k <? 0)%Z then Z.max (len + k) 0 else Z.min k len
    end in
  firstn (Z.to_nat final) l.

(** [Array.prototype.sort] is stable; [after x y] says that the comparator
    is positive on [(x, y)], that is [x] has to come after [y]. *)
Section Sort.
Context {A : Type} (after : A -> A -> bool).

Fixpoint insert (x : A) (l : list A) : list A :=
  match l with
  | [] => [x]
  | y :: l' => if after x y then y :: insert x l' else x :: l
  end.

Definition sort (l : list A) : list A := fold_right insert [] l.
End Sort.

(** A [Map]: association list in insertion order. *)
Section Map.
Context {K V : Type} (keq : K -> K -> bool).

Fixpoint map_get (m : list (K * V)) (k : K) : option V :=
  match m with
  | [] => None
  | (k', v) :: m' => if keq k' k then Some v else map_get m' k
  end.

Fixpoint map_set (m : list (K * V)) (k : K) (v : V) : list (K * V) :=
  match m with
  | [] => [(k, v)]
  | (k', v') :: m' =>
      if keq k' k then (k', v) :: m' else (k', v') :: map_set m' k v
  end.
End Map.

(** ** Record types ([src/types/ev-data.ts]) *)

Record EVRecord : Type := {
  vin : string;
  county : string;
  city : string;
  state : string;
  postalCode : string;
  modelYear : number;
  make : string;
  model : string;
  electricVehicleType : option string;
  cafvEligibility : string;
  electricRange : number;
  baseMsrp : number;
  legislativeDistrict : number;
  dolVehicleId : string;
  vehicleLocation : string;
  electricUtility : string;
  censusTract : string
}.

Module CountyData.
Record t : Type := { county : string; count : nat; percentage : number }.
End CountyData.

Module YearlyData.
Record t : Type :=
  { year : number; count : nat; bevCount : nat; phevCount : nat }.
End YearlyData.

Module MakeData.
Record t : Type :=
  { make : string; count : nat; percentage : number; avgRange : number }.
End MakeData.

Module ModelData.
Record t : Type :=
  { make : option string; model : option string; count : nat;
    avgRange : number; avgYear : number }.
End ModelData.

Module RangeDistribution.
Record t : Type := { rangeGroup : string; count : nat; percentage : number }.
End RangeDistribution.

Module DashboardStats.
Record t : Type := {
  totalVehicles : nat;
  avgElectricRange : number;
  bevPercentage : number;
  phevPercentage : number;
  topCounty : string;
  topMake : string;
  latestYear : number;
  earliestYear : number
}.
End DashboardStats.

Module UtilityData.
Record t : Type := { utility : string; count : nat; percentage : number }.
End UtilityData.

Definition BEV : string := "Battery Electric Vehicle (BEV)".
Definition PHEV : string := "Plug-in Hybrid Electric Vehicle (PHEV)".

(** [x === s] for a value that is a string or [undefined]. *)
Definition is_type (x : option string) (s : string) : bool :=
  match x with
  | Some t => String.eqb t s
  | None => false
  end.

(** ** The parser of one row *)

Definition parseRow (row : list string) : EVRecord :=
  {| vin := or_str (nth_error row 0) "";
     county := or_str (nth_error row 1) "";
     city := or_str (nth_error row 2) "";
     state := or_str (nth_error row 3) "";
     postalCode := or_str (nth_error row 4) "";
     modelYear := or_num (parseInt (nth_error row 5)) (Fin 0);
     make := or_str (nth_error row 6) "";
     model := or_str (nth_error row 7) "";
     electricVehicleType := nth_error row 8;
     cafvEligibility := or_str (nth_error row 9) "";
     electricRange := or_num (parseInt (nth_error row 10)) (Fin 0);
     baseMsrp := or_num (parseInt (nth_error row 11)) (Fin 0);
     legislativeDistrict := or_num (parseInt (nth_error row 12)) (Fin 0);
     dolVehicleId := or_str (nth_error row 13) "";
     vehicleLocation := or_str (nth_error row 14) "";
     electricUtility := or_str (nth_error row 15) "";
     censusTract := or_str (nth_error row 16) "" |}.

(** ** The aggregation queries, as functions of the record set *)

(** [Math.round((count / total) * 100 * 100) / 100] *)
Definition percent2 (count total : nat) : number :=
  jsdiv
    (Math_round
       (jsmul (jsmul (jsdiv (of_nat count) (of_nat total)) (Fin 100))
              (Fin 100)))
    (Fin 100).

(** [Math.round((count / total) * 100)] *)
Definition percent0 (count total : nat) : number :=
  Math_round (jsmul (jsdiv (of_nat count) (of_nat total)) (Fin 100)).

(** Descending by count: the comparator is [b.count - a.count]. *)
Definition count_after {A : Type} (count : A -> nat) (a b : A) : bool :=
  (Z.of_nat (count b) - Z.of_nat (count a) >? 0)%Z.

Definition get_or_0 (m : list (string * nat)) (k : string) : nat :=
  match map_get String.eqb m k with
  | Some c => c
  | None => 0
  end.

(** The callback of [forEach] in [getCountyDistribution]. *)
Definition county_step (countMap : list (string * nat)) (vehicle : EVRecord)
  : list (string * nat) :=
  if truthy_str (county vehicle)
  then map_set String.eqb countMap (county vehicle)
               (get_or_0 countMap (county vehicle) + 1)
  else countMap.

Definition county_map (data : list EVRecord) : list (string * nat) :=
  fold_left county_step data [].

Definition countyDistribution (data : list EVRecord) : list CountyData.t :=
  let total := List.length data in
  sort (count_after CountyData.count)
    (map (fun '(county, count) =>
            {| CountyData.county := county;
               CountyData.count := count;
               CountyData.percentage := percent2 count total |})
         (county_map data)).

Record YearAcc : Type := { y_total : nat; y_bev : nat; y_phev : nat }.

(** The callback of [forEach] in [getYearlyTrends]. *)
Definition year_step (yearMap : list (number * YearAcc)) (vehicle : EVRecord)
  : list (number * YearAcc) :=
  if jsgt (modelYear vehicle) (Fin 0)
  then
    let existing :=
      match map_get same_value yearMap (modelYear vehicle) with
      | Some e => e
      | None => {| y_total := 0; y_bev := 0; y_phev := 0 |}
      end in
    let existing :=
      {| y_total := y_total existing + 1;
         y_bev := y_bev existing; y_phev := y_phev existing |} in
    let existing :=
      if is_type (electricVehicleType vehicle) BEV
      then {| y_total := y_total existing;
              y_bev := y_bev existing + 1; y_phev := y_phev existing |}
      else if is_type (electricVehicleType vehicle) PHEV
      then {| y_total := y_total existing;
              y_bev := y_bev existing; y_phev := y_phev existing + 1 |}
      else existing in
    map_set same_value yearMap (modelYear vehicle) existing
  else yearMap.

Definition year_map (data : list EVRecord) : list (number * YearAcc) :=
  fold_left year_step data [].

Definition yearlyTrends (data : list EVRecord) : list YearlyData.t :=
  sort (fun a b => jsgt (jssub (YearlyData.year a) (YearlyData.year b)) (Fin 0))
    (map (fun '(year, d) =>
            {| YearlyData.year := year;
               YearlyData.count := y_total d;
               YearlyData.bevCount := y_bev d;
               YearlyData.phevCount := y_phev d |})
         (year_map data)).

Record MakeAcc : Type :=
  { m_count : nat; m_totalRange : number; m_rangeCount : nat }.

(** The callback of [forEach] in [getMakeDistribution]. *)
Definition make_step (makeMap : list (string * MakeAcc)) (vehicle : EVRecord)
  : list (string * MakeAcc) :=
  if truthy_str (make vehicle)
  then
    let existing :=
      match map_get String.eqb makeMap (make vehicle) with
      | Some e => e
      | None => {| m_count := 0; m_totalRange := Fin 0; m_rangeCount := 0 |}
      end in
    let existing :=
      {| m_count := m_count existing + 1;
         m_totalRange := m_totalRange existing;
         m_rangeCount := m_rangeCount existing |} in
    let existing :=
      if jsgt (electricRange vehicle) (Fin 0)
      then {| m_count := m_count existing;
              m_totalRange :=
                jsadd (m_totalRange existing) (electricRange vehicle);
              m_rangeCount := m_rangeCount existing + 1 |}
      else existing in
    map_set String.eqb makeMap (make vehicle) existing
  else makeMap.

Definition make_map (data : list EVRecord) : list (string * MakeAcc) :=
  fold_left make_step data [].

(** [n > 0 ? Math.round(total / n) : 0] *)
Definition average (total : number) (n : nat) : number :=
  if (0 <? n)%nat then Math_round (jsdiv total (of_nat n)) else Fin 0.

Definition makeDistribution (data : list EVRecord) : list MakeData.t :=
  let total := List.length data in
  sort (count_after MakeData.count)
    (map (fun '(make, d) =>
            {| MakeData.make := make;
               MakeData.count := m_count d;
               MakeData.percentage := percent2 (m_count d) total;
               MakeData.avgRange :=
                 average (m_totalRange d) (m_rangeCount d) |})
         (make_map data)).

Record ModelAcc : Type := {
  a_count : nat;
  a_totalRange : number;
  a_rangeCount : nat;
  a_totalYear : number;
  a_yearCount : nat
}.

(** The key [`${vehicle.make}|${vehicle.model}`]. *)
Definition model_key (vehicle : EVRecord) : string :=
  (make vehicle ++ "|" ++ model vehicle)%string.

(** The callback of [forEach] in [getTopModels]. *)
Definition model_step (modelMap : list (string * ModelAcc)) (vehicle : EVRecord)
  : list (string * ModelAcc) :=
  if truthy_str (make vehicle) && truthy_str (model vehicle)
  then
    let key := model_key vehicle in
    let existing :=
      match map_get String.eqb modelMap key with
      | Some e => e
      | None => {| a_count := 0; a_totalRange := Fin 0; a_rangeCount := 0;
                   a_totalYear := Fin 0; a_yearCount := 0 |}
      end in
    let existing :=
      {| a_count := a_count existing + 1;
         a_totalRange := a_totalRange existing;
         a_rangeCount := a_rangeCount existing;
         a_totalYear := a_totalYear existing;
         a_yearCount := a_yearCount existing |} in
    let existing :=
      if jsgt (electricRange vehicle) (Fin 0)
      then {| a_count := a_count existing;
              a_totalRange :=
                jsadd (a_totalRange existing) (electricRange vehicle);
              a_rangeCount := a_rangeCount existing + 1;
              a_totalYear := a_totalYear existing;
              a_yearCount := a_yearCount existing |}
      else existing in
    let existing :=
      if jsgt (modelYear vehicle) (Fin 0)
      then {| a_count := a_count existing;
              a_totalRange := a_totalRange existing;
              a_rangeCount := a_rangeCount existing;
              a_totalYear :=
                jsadd (a_totalYear existing) (modelYear vehicle);
              a_yearCount := a_yearCount existing + 1 |}
      else existing in
    map_set String.eqb modelMap key existing
  else modelMap.

Definition model_map (data : list EVRecord) : list (string * ModelAcc) :=
  fold_left model_step data [].

(** One entry of the ranking, from an entry of the map: the key is split at
    ["|"] and its first two pieces are taken for the make and the model. *)
Definition model_entry (e : string * ModelAcc) : ModelData.t :=
  let (key, d) := e in
  let parts := split "|" key in
  {| ModelData.make := nth_error parts 0;
     ModelData.model := nth_error parts 1;
     ModelData.count := a_count d;
     ModelData.avgRange := average (a_totalRange d) (a_rangeCount d);
     ModelData.avgYear := average (a_totalYear d) (a_yearCount d) |}.

(** All the models, ranked; [topModels] keeps the first [limit] of them. *)
Definition rankedModels (data : list EVRecord) : list ModelData.t :=
  sort (count_after ModelData.count) (map model_entry (model_map data)).

Definition topModels (data : list EVRecord) (limit : number)
  : list ModelData.t :=
  slice0 (rankedModels data) limit.

Record Bucket : Type := { b_min : number; b_max : number; b_label : string }.

Definition ranges : list Bucket :=
  [ {| b_min := Fin 0; b_max := Fin 50; b_label := "0-50 miles" |};
    {| b_min := Fin 51; b_max := Fin 100; b_label := "51-100 miles" |};
    {| b_min := Fin 101; b_max := Fin 150; b_label := "101-150 miles" |};
    {| b_min := Fin 151; b_max := Fin 200; b_label := "151-200 miles" |};
    {| b_min := Fin 201; b_max := Fin 250; b_label := "201-250 miles" |};
    {| b_min := Fin 251; b_max := Fin 300; b_label := "251-300 miles" |};
    {| b_min := Fin 301; b_max := Inf false; b_label := "300+ miles" |} ].

Definition known_range (v : EVRecord) : bool := jsgt (electricRange v) (Fin 0).

Definition in_bucket (range : Bucket) (v : EVRecord) : bool :=
  jsge (electricRange v) (b_min range) && jsle (electricRange v) (b_max range).

Definition rangeDistribution (data : list EVRecord)
  : list RangeDistribution.t :=
  let validRanges := filter known_range data in
  let total := List.length validRanges in
  filter (fun r => (0 <? RangeDistribution.count r)%nat)
    (map (fun range =>
            let count := List.length (filter (in_bucket range) validRanges) in
            {| RangeDistribution.rangeGroup := b_label range;
               RangeDistribution.count := count;
               RangeDistribution.percentage := percent2 count total |})
         ranges).

(** The callback of the outer [forEach] in [getUtilityDistribution]. *)
Definition utility_step (utilityMap : list (string * nat)) (vehicle : EVRecord)
  : list (string * nat) :=
  if truthy_str (electricUtility vehicle)
  then
    let utilities := map trim (split "|" (electricUtility vehicle)) in
    fold_left
      (fun utilityMap utility =>
         if truthy_str utility
         then map_set String.eqb utilityMap utility
                      (get_or_0 utilityMap utility + 1)
         else utilityMap)
      utilities utilityMap
  else utilityMap.

Definition utility_map (data : list EVRecord) : list (string * nat) :=
  fold_left utility_step data [].

Definition utilityDistribution (data : list EVRecord) : list UtilityData.t :=
  let total := List.length data in
  slice0
    (sort (count_after UtilityData.count)
       (map (fun '(utility, count) =>
               {| UtilityData.utility := utility;
                  UtilityData.count := count;
                  UtilityData.percentage := percent2 count total |})
            (utility_map data)))
    (Fin 10).

Definition dashboardStats (data : list EVRecord) : DashboardStats.t :=
  let totalVehicles := List.length data in
  let validRanges := filter known_range data in
  let avgElectricRange :=
    if (0 <? List.length validRanges)%nat
    then Math_round
           (jsdiv
              (fold_left (fun sum v => jsadd sum (electricRange v))
                         validRanges (Fin 0))
              (of_nat (List.length validRanges)))
    else Fin 0 in
  let bevCount :=
    List.length (filter (fun v => is_type (electricVehicleType v) BEV) data) in
  let phevCount :=
    List.length (filter (fun v => is_type (electricVehicleType v) PHEV) data) in
  let bevPercentage := percent0 bevCount totalVehicles in
  let phevPercentage := percent0 phevCount totalVehicles in
  let countyStats := countyDistribution data in
  let makeStats := makeDistribution data in
  let years := filter (fun y => jsgt y (Fin 0)) (map modelYear data) in
  {| DashboardStats.totalVehicles := totalVehicles;
     DashboardStats.avgElectricRange := avgElectricRange;
     DashboardStats.bevPercentage := bevPercentage;
     DashboardStats.phevPercentage := phevPercentage;
     DashboardStats.topCounty :=
       or_str (option_map CountyData.county (hd_error countyStats)) "N/A";
     DashboardStats.topMake :=
       or_str (option_map MakeData.make (hd_error makeStats)) "N/A";
     DashboardStats.latestYear := or_num (Math_max years) (Fin 0);
     DashboardStats.earliestYear := or_num (Math_min years) (Fin 0) |}.

(** ** The engine: a record set held in [rawData], and its methods *)

Record EVDataProcessor : Type := { rawData : list EVRecord }.

(** [new EVDataProcessor()] *)
Definition new_EVDataProcessor : EVDataProcessor := {| rawData := [] |}.

(** A thrown value: an instance of [Error], with its message, or a value
    of another kind, with a description of it. *)
Inductive js_error : Type :=
| Error (message : string)
| Thrown (value : string).

Inductive completion (A : Type) : Type :=
| Normal (a : A)
| Throw (e : js_error).
Arguments Normal {A} a.
Arguments Throw {A} e.

(** A method runs on the engine [this] and leaves a completion and the
    engine as it is afterwards; a throw keeps the writes made before it. *)
Definition Method (A : Type) : Type :=
  EVDataProcessor -> completion A * EVDataProcessor.

Definition ret {A : Type} (a : A) : Method A := fun this => (Normal a, this).

Definition bind {A B : Type} (m : Method A) (k : A -> Method B) : Method B :=
  fun this =>
    match m this with
    | (Normal a, this') => k a this'
    | (Throw e, this') => (Throw e, this')
    end.

Definition throw {A : Type} (e : js_error) : Method A :=
  fun this => (Throw e, this).

Definition try_catch {A : Type} (m : Method A) (h : js_error -> Method A)
  : Method A :=
  fun this =>
    match m this with
    | (Normal a, this') => (Normal a, this')
    | (Throw e, this') => h e this'
    end.

Definition lift {A : Type} (c : completion A) : Method A :=
  fun this => (c, this).

Definition read_rawData : Method (list EVRecord) :=
  fun this => (Normal (rawData this), this).

Definition write_rawData (data : list EVRecord) : Method unit :=
  fun _ => (Normal tt, {| rawData := data |}).

Notation "x <- m ;; k" := (bind m (fun x => k))
  (at level 61, m at next level, right associativity).
Notation "m ;;; k" := (bind m (fun _ => k))
  (at level 61, right associativity).

Definition getDashboardStats : Method DashboardStats.t :=
  data <- read_rawData ;; ret (dashboardStats data).

Definition getCountyDistribution : Method (list CountyData.t) :=
  data <- read_rawData ;; ret (countyDistribution data).

Definition getYearlyTrends : Method (list YearlyData.t) :=
  data <- read_rawData ;; ret (yearlyTrends data).

Definition getMakeDistribution : Method (list MakeData.t) :=
  data <- read_rawData ;; ret (makeDistribution data).

(** [limit] is [None] when the caller passes no argument: the default is 10. *)
Definition getTopModels (limit : option number) : Method (list ModelData.t) :=
  let limit := match limit with Some n => n | None => Fin 10 end in
  data <- read_rawData ;; ret (topModels data limit).

Definition getRangeDistribution : Method (list RangeDistribution.t) :=
  data <- read_rawData ;; ret (rangeDistribution data).

Definition getUtilityDistribution : Method (list UtilityData.t) :=
  data <- read_rawData ;; ret (utilityDistribution data).

Definition getRawData : Method (list EVRecord) := read_rawData.

(** The conversion of one row inside [loadData]: [parseRow] under a [try]
    whose [catch] gives [null]; [parseRow] has no throwing step. *)
Definition try_parseRow (row : list string) : option EVRecord :=
  Some (parseRow row).

(** [.filter(Boolean)] on an array of records and [null]s. *)
Definition filter_Boolean (l : list (option EVRecord)) : list EVRecord :=
  flat_map (fun o => match o with Some r => [r] | None => [] end) l.

Section Load.
(** The two collaborators of [loadData] that are outside the engine:
    [fetch(csvPath)] followed by [response.text()], which gives the text
    or throws, and [Papa.parse(csvText, ...).data], the rows of the text. *)
Variable fetch_text : string -> completion string.
Variable Papa_parse : string -> list (list string).

Definition loadData (csvPath : string) : Method (list EVRecord) :=
  try_catch
    (csvText <- lift (fetch_text csvPath) ;;
     let data := Papa_parse csvText in
     let processedData := filter_Boolean (map try_parseRow (tl data)) in
     write_rawData processedData ;;;
     ret processedData)
    (fun error => throw error).
End Load.

(** ** Sample data *)

(** A small file: a header and four rows; the last row has a model year
    that is not a number, no county and no range. *)
Definition sample_rows : list (list string) :=
  [ ["VIN"; "County"; "City"; "State"; "Postal Code"; "Model Year"; "Make";
     "Model"; "Electric Vehicle Type"; "CAFV"; "Electric Range"; "Base MSRP";
     "Legislative District"; "DOL Vehicle ID"; "Vehicle Location";
     "Electric Utility"; "2020 Census Tract"];
    ["5YJ3E1EA7K"; "King"; "Seattle"; "WA"; "98101"; "2021"; "TESLA";
     "MODEL 3"; BEV; "Clean"; "200"; "0"; "43"; "1001"; "POINT (1 2)";
     "CITY OF SEATTLE - (WA)|CITY OF TACOMA - (WA)"; "53033"];
    ["1N4AZ0CP5D"; "King"; "Kent"; "WA"; "98031"; "2021"; "NISSAN"; "LEAF";
     BEV; "Clean"; "75"; "0"; "33"; "1002"; "POINT (1 3)";
     "PUGET SOUND ENERGY INC"; "53033"];
    ["1G1RD6E45D"; "Pierce"; "Tacoma"; "WA"; "98402"; "2022"; "NISSAN";
     "LEAF"; PHEV; "Clean"; "0"; "0"; "27"; "1003"; "POINT (2 3)";
     "CITY OF TACOMA - (WA)"; "53053"];
    ["WBY1Z4C55E"; ""; "Olympia"; "WA"; "98501"; "n/a"; "BMW"; "I3"; BEV;
     "Clean"; ""; "0"; "22"; "1004"; "POINT (3 3)"; ""; "53067"] ].

Definition sample_data : list EVRecord := map parseRow (tl sample_rows).

Definition sample_engine : EVDataProcessor := {| rawData := sample_data |}.

(** The three records of the example of the specification. *)
Definition example_data : list EVRecord :=
  [ parseRow ["VIN1"; "King"; ""; ""; ""; "2021"; ""; ""; BEV; ""; "200"];
    parseRow ["VIN2"; "King"; ""; ""; ""; "2021"; ""; ""; PHEV; ""; "0"];
    parseRow ["VIN3"; "Pierce"; ""; ""; ""; "2022"; ""; ""; BEV; ""; "300"] ].

(** Two records with distinct (make, model) pairs and the same key. *)
Definition merged_data : list EVRecord :=
  [ parseRow ["VIN1"; "King"; "Seattle"; "WA"; "98101"; "2020"; "A|B"; "C";
              BEV; "Clean"; "100"];
    parseRow ["VIN2"; "King"; "Seattle"; "WA"; "98101"; "2022"; "A"; "B|C";
              BEV; "Clean"; "300"] ].

(** A row with white space that is not ASCII: a no-break space (U+00A0)
    before the model year and before the first utility name, and an
    ideographic space (U+3000) after this name. *)
Definition spaced_row : list string :=
  [ "5YJ3E1EA7K"; "King"; "Seattle"; "WA"; "98101";
    String "194" (String "160" "2021"); "TESLA"; "MODEL 3"; BEV; "Clean";
    "200"; "0"; "43"; "1001"; "POINT (1 2)";
    String "194" (String "160"
      (String "A" (String "227" (String "128" (String "128" "|A| B")))));
    "53033" ].


(** ** Notions used to state the properties *)

(** A query is repeatable when it returns normally, leaves the engine as it
    found it, and returns the same value when called again. *)
Definition repeatable {A : Type} (m : Method A) : Prop :=
  forall this : EVDataProcessor,
    exists r : A,
      m this = (Normal r, this) /\ m (snd (m this)) = (Normal r, this).

(** [k <= n] for a length [k] and a limit [n] that is a number. *)
Definition at_most (k : nat) (n : number) : Prop :=
  match n with
  | Fin q => (inject_Z (Z.of_nat k) <= q)%Q
  | Inf false => True
  | _ => False
  end.

(** A list is in descending order of the counts of its entries. *)
Definition descending {A : Type} (count : A -> nat) (l : list A) : Prop :=
  StronglySorted (fun a b => count b <= count a) l.





(** The string has no ["|"]. *)
Fixpoint no_bar (s : string) : bool :=
  match s with
  | String c s' => negb (Ascii.eqb c "|") && no_bar s'
  | EmptyString => true
  end.

(** [w] has the make and the model of [v]. *)
Definition same_pair (v w : EVRecord) : bool :=
  String.eqb (make w) (make v) && String.eqb (model w) (model v).

(** [w] is counted by [getTopModels], under the key of [v]. *)
Definition same_key (v w : EVRecord) : bool :=
  truthy_str (make w) && truthy_str (model w)
  && String.eqb (model_key w) (model_key v).

(** A number that is an integer or an infinity. *)
Definition integral (x : number) : Prop :=
  match x with
  | NaN => False
  | Inf _ => True
  | Fin q => exists z : Z, (q == inject_Z z)%Q
  end.

(** The entry of [getRangeDistribution] for a bucket, given the records
    with a known range. *)
Definition bucket_count (known : list EVRecord) (range : Bucket) : nat :=
  List.length (filter (in_bucket range) known).

Definition bucket_entry (known : list EVRecord) (range : Bucket)
  : RangeDistribution.t :=
  {| RangeDistribution.rangeGroup := b_label range;
     RangeDistribution.count := bucket_count known range;
     RangeDistribution.percentage :=
       percent2 (bucket_count known range) (List.length known) |}.

(** The sum of a list of rationals. *)
Definition Qsum (l : list Q) : Q := fold_right Qplus 0%Q l.

(** The rounding tolerance of one percentage: half a hundredth, for
    [Math.round], and the error of the four roundings to a double. *)
Definition tolerance : Q := ((1 # 200) + (1 # 1000000000000))%Q.

(** The record has a county. *)
Definition named (v : EVRecord) : bool := truthy_str (county v).

(** ** Grouping with a [Map] *)

(** The shape of the [forEach] callbacks of the engine: a record that
    passes [guard] updates the value under its key, from the value that the
    map has there, or from [undefined]. *)
Section Group.
Context {K V R : Type} (keq : K -> K -> bool).
Context (guard : R -> bool) (key : R -> K) (upd : option V -> R -> V).

Definition group_step (m : list (K * V)) (r : R) : list (K * V) :=
  if guard r then map_set keq m (key r) (upd (map_get keq m (key r)) r)
  else m.

(** The records grouped under a key, in the order of the record set. *)
Definition group_members (data : list R) (k : K) : list R :=
  filter (fun r => guard r && keq (key r) k) data.

(** The value that the updates of a list of records build up. *)
Definition group_fold (l : list R) : option V :=
  fold_left (fun o r => Some (upd o r)) l None.
End Group.

(** No two entries of a map have the same key. *)
Fixpoint distinct_keys {K V : Type} (keq : K -> K -> bool)
    (m : list (K * V)) : Prop :=
  match m with
  | [] => True
  | (k, _) :: m' =>
      Forall (fun kv => keq k (fst kv) = false) m' /\ distinct_keys keq m'
  end.

(** The updates of the four maps of the engine. *)
Definition county_upd (o : option nat) (_ : EVRecord) : nat :=
  match o with Some c => c | None => 0 end + 1.

Definition make_upd (o : option MakeAcc) (vehicle : EVRecord) : MakeAcc :=
  let existing :=
    match o with
    | Some e => e
    | None => {| m_count := 0; m_totalRange := Fin 0; m_rangeCount := 0 |}
    end in
  let existing :=
    {| m_count := m_count existing + 1;
       m_totalRange := m_totalRange existing;
       m_rangeCount := m_rangeCount existing |} in
  if jsgt (electricRange vehicle) (Fin 0)
  then {| m_count := m_count existing;
          m_totalRange := jsadd (m_totalRange existing) (electricRange vehicle);
          m_rangeCount := m_rangeCount existing + 1 |}
  else existing.

Definition year_upd (o : option YearAcc) (vehicle : EVRecord) : YearAcc :=
  let existing :=
    match o with
    | Some e => e
    | None => {| y_total := 0; y_bev := 0; y_phev := 0 |}
    end in
  let existing :=
    {| y_total := y_total existing + 1;
       y_bev := y_bev existing; y_phev := y_phev existing |} in
  if is_type (electricVehicleType vehicle) BEV
  then {| y_total := y_total existing;
          y_bev := y_bev existing + 1; y_phev := y_phev existing |}
  else if is_type (electricVehicleType vehicle) PHEV
  then {| y_total := y_total existing;
          y_bev := y_bev existing; y_phev := y_phev existing + 1 |}
  else existing.

(** The sum of the known ranges of a list of records, as [reduce] or
    [totalRange +=] add them up, from 0 and from the left. *)
Definition range_sum (l : list EVRecord) : number :=
  fold_left (fun sum v => jsadd sum (electricRange v))
            (filter known_range l) (Fin 0).

(** The records of a make, of a county. *)
Definition of_make (k : string) (v : EVRecord) : bool := String.eqb (make v) k.
Definition of_county (k : string) (v : EVRecord) : bool :=
  String.eqb (county v) k.

(** The accumulators that the records of a group build up. *)
Definition make_acc_of (l : list EVRecord) : MakeAcc :=
  {| m_count := List.length l;
     m_totalRange := range_sum l;
     m_rangeCount := List.length (filter known_range l) |}.

Definition year_acc_of (l : list EVRecord) : YearAcc :=
  {| y_total := List.length l;
     y_bev :=
       List.length (filter (fun v => is_type (electricVehicleType v) BEV) l);
     y_phev :=
       List.length
         (filter (fun v => is_type (electricVehicleType v) PHEV) l) |}.

(** The records of a model year. *)
Definition of_year (k : number) (v : EVRecord) : bool :=
  same_value (modelYear v) k.

Definition positive_year (v : EVRecord) : bool := jsgt (modelYear v) (Fin 0).

Definition is_bev (v : EVRecord) : bool := is_type (electricVehicleType v) BEV.
Definition is_phev (v : EVRecord) : bool :=
  is_type (electricVehicleType v) PHEV.

(** The tolerance of a percentage rounded to an integer: a half, for
    [Math.round], and the error of the two roundings to a double. *)
Definition tolerance0 : Q := ((1 # 2) + (1 # 1000000000000))%Q.

(** The sum of the positive model years of a list of records, as
    [totalYear +=] adds them up. *)
Definition year_sum (l : list EVRecord) : number :=
  fold_left (fun sum v => jsadd sum (modelYear v))
            (filter positive_year l) (Fin 0).

(** The records that [getTopModels] groups. *)
Definition has_model (v : EVRecord) : bool :=
  truthy_str (make v) && truthy_str (model v).

Definition model_upd (o : option ModelAcc) (vehicle : EVRecord) : ModelAcc :=
  let existing :=
    match o with
    | Some e => e
    | None => {| a_count := 0; a_totalRange := Fin 0; a_rangeCount := 0;
                 a_totalYear := Fin 0; a_yearCount := 0 |}
    end in
  let existing :=
    {| a_count := a_count existing + 1;
       a_totalRange := a_totalRange existing;
       a_rangeCount := a_rangeCount existing;
       a_totalYear := a_totalYear existing;
       a_yearCount := a_yearCount existing |} in
  let existing :=
    if jsgt (electricRange vehicle) (Fin 0)
    then {| a_count := a_count existing;
            a_totalRange :=
              jsadd (a_totalRange existing) (electricRange vehicle);
            a_rangeCount := a_rangeCount existing + 1;
            a_totalYear := a_totalYear existing;
            a_yearCount := a_yearCount existing |}
    else existing in
  if jsgt (modelYear vehicle) (Fin 0)
  then {| a_count := a_count existing;
          a_totalRange := a_totalRange existing;
          a_rangeCount := a_rangeCount existing;
          a_totalYear := jsadd (a_totalYear existing) (modelYear vehicle);
          a_yearCount := a_yearCount existing + 1 |}
  else existing.

Definition model_acc_of (l : list EVRecord) : ModelAcc :=
  {| a_count := List.length l;
     a_totalRange := range_sum l;
     a_rangeCount := List.length (filter known_range l);
     a_totalYear := year_sum l;
     a_yearCount := List.length (filter positive_year l) |}.

(** The sum of a list of integers. *)
Definition Zsum (l : list Z) : Z := fold_right Z.add 0%Z l.

(** The utility names of a record set, in the order in which
    [getUtilityDistribution] meets them: the pieces of each non-empty
    [electricUtility] field, trimmed. *)
Definition utility_names (data : list EVRecord) : list string :=
  flat_map
    (fun vehicle =>
       if truthy_str (electricUtility vehicle)
       then map trim (split "|" (electricUtility vehicle))
       else [])
    data.

Definition utility_upd (o : option nat) (_ : string) : nat :=
  match o with Some c => c | None => 0 end + 1.

(** The number of times that a name occurs in a list of names. *)
Definition occurrences (names : list string) (u : string) : nat :=
  List.length (filter (fun n => String.eqb n u) names).

(** The decimal numeral of a natural number. *)
Definition decimal (n : nat) : string :=
  NilZero.string_of_uint (Nat.to_uint n).

(** ** Callers of the engine *)

(** [l.slice(start)] for a literal start that is a natural number. *)
Definition slice_from {A : Type} (l : list A) (start : nat) : list A :=
  skipn start l.

(** [Number(x.toFixed(2))]: [toFixed] writes the integer [n] nearest to
    [x * 100], the larger one of two, with a point before its last two
    digits, and [Number] reads the numeral back as the nearest double; a
    number that is not finite, or is 10^21 or more, is written and read
    back as it is. *)
Definition Number_toFixed2 (x : number) : number :=
  match x with
  | Fin q =>
      if Qle_bool (1000000000000000000000 # 1) (Qabs q) then x
      else
        let n := Qfloor (Qabs q * (100 # 1) + (1 # 2))%Q in
        if Qle_bool 0 q then fl (inject_Z n / (100 # 1))%Q
        else fl (- (inject_Z n / (100 # 1)))%Q
  | _ => x
  end.

(** The summary that [GeographicAnalysis]
    ([src/components/geographic-analysis.tsx]) computes from the county
    distribution that it receives. *)
Module Geographic.
Record t : Type := {
  totalVehicles : nat;
  totalCounties : nat;
  topCounty : option CountyData.t;
  avgPerCounty : number;
  topCounties : list CountyData.t;
  pieData : list CountyData.t
}.
End Geographic.

Definition GeographicAnalysis (data : list CountyData.t) : Geographic.t :=
  let totalVehicles :=
    fold_left (fun sum county => sum + CountyData.count county) data 0 in
  let totalCounties := List.length data in
  let topCounty := nth_error data 0 in
  let avgPerCounty := jsdiv (of_nat totalVehicles) (of_nat totalCounties) in
  let topCounties := slice0 data (Fin 10) in
  let topCountiesForPie := slice0 data (Fin 5) in
  let otherCount :=
    fold_left (fun sum county => sum + CountyData.count county)
              (slice_from data 5) 0 in
  let otherPercentage :=
    fold_left (fun sum county => jsadd sum (CountyData.percentage county))
              (slice_from data 5) (Fin 0) in
  let pieData :=
    topCountiesForPie ++
    (if (0 <? otherCount)%nat
     then [ {| CountyData.county := "Others";
               CountyData.count := otherCount;
               CountyData.percentage := Number_toFixed2 otherPercentage |} ]
     else []) in
  {| Geographic.totalVehicles := totalVehicles;
     Geographic.totalCounties := totalCounties;
     Geographic.topCounty := topCounty;
     Geographic.avgPerCounty := avgPerCounty;
     Geographic.topCounties := topCounties;
     Geographic.pieData := pieData |}.

(** The breakdown of the ranges of one make that [getRangeByMake] of
    [RangeAnalysis] ([src/components/range-analysis.tsx]) computes. *)
Module RangeComparisonData.
Record t : Type := { range : string; count : nat; make : string }.
End RangeComparisonData.

Record RangeCounts : Type := {
  r_0_50 : nat; r_51_100 : nat; r_101_200 : nat; r_201_300 : nat; r_300 : nat
}.

(** The callback of [makeVehicles.forEach]. *)
Definition range_count_step (ranges : RangeCounts) (vehicle : EVRecord)
  : RangeCounts :=
  let range := electricRange vehicle in
  if jsle range (Fin 50)
  then {| r_0_50 := r_0_50 ranges + 1; r_51_100 := r_51_100 ranges;
          r_101_200 := r_101_200 ranges; r_201_300 := r_201_300 ranges;
          r_300 := r_300 ranges |}
  else if jsle range (Fin 100)
  then {| r_0_50 := r_0_50 ranges; r_51_100 := r_51_100 ranges + 1;
          r_101_200 := r_101_200 ranges; r_201_300 := r_201_300 ranges;
          r_300 := r_300 ranges |}
  else if jsle range (Fin 200)
  then {| r_0_50 := r_0_50 ranges; r_51_100 := r_51_100 ranges;
          r_101_200 := r_101_200 ranges + 1; r_201_300 := r_201_300 ranges;
          r_300 := r_300 ranges |}
  else if jsle range (Fin 300)
  then {| r_0_50 := r_0_50 ranges; r_51_100 := r_51_100 ranges;
          r_101_200 := r_101_200 ranges; r_201_300 := r_201_300 ranges + 1;
          r_300 := r_300 ranges |}
  else {| r_0_50 := r_0_50 ranges; r_51_100 := r_51_100 ranges;
          r_101_200 := r_101_200 ranges; r_201_300 := r_201_300 ranges;
          r_300 := r_300 ranges + 1 |}.

(** The value of [result[make.make]]. *)
Definition rangeByMake (rawData : list EVRecord) (make_ : string)
  : list RangeComparisonData.t :=
  let makeVehicles :=
    filter (fun v => String.eqb (make v) make_) rawData in
  let ranges :=
    fold_left range_count_step makeVehicles
      {| r_0_50 := 0; r_51_100 := 0; r_101_200 := 0; r_201_300 := 0;
         r_300 := 0 |} in
  map (fun '(range, count) =>
         {| RangeComparisonData.range := range;
            RangeComparisonData.count := count;
            RangeComparisonData.make := make_ |})
      [ ("0-50", r_0_50 ranges); ("51-100", r_51_100 ranges);
        ("101-200", r_101_200 ranges); ("201-300", r_201_300 ranges);
        ("300+", r_300 ranges) ].

(** [getRangeByMake]: the object with one property for each make of
    [makeData], as the list of its assignments. *)
Definition getRangeByMake (rawData : list EVRecord) (makeData : list MakeData.t)
  : list (string * list RangeComparisonData.t) :=
  map (fun m => (MakeData.make m, rangeByMake rawData (MakeData.make m)))
      makeData.

(** [calculateGrowth] of [ComparisonCharts]
    ([src/components/comparison-charts.tsx]); a data point is an object
    with numbers under string keys, [obj_get] is [point[key]]. *)
Definition obj_get (point : list (string * number)) (key : string)
  : option number :=
  map_get String.eqb point key.

(** [x || 0] for a number that may be [undefined]. *)
Definition or_0 (x : option number) : number :=
  match x with
  | Some n => or_num n (Fin 0)
  | None => Fin 0
  end.

(** [x === 0] *)
Definition is_zero (x : number) : bool :=
  match x with
  | Fin q => Qeq_bool q 0
  | _ => false
  end.

Definition calculateGrowth (data : list (list (string * number)))
    (key : string) : number :=
  if (List.length data <? 2)%nat then Fin 0
  else
    let latest :=
      or_0 (match nth_error data (List.length data - 1) with
            | Some point => obj_get point key
            | None => None
            end) in
    let previous :=
      or_0 (match nth_error data (List.length data - 2) with
            | Some point => obj_get point key
            | None => None
            end) in
    if is_zero previous then Fin 0
    else jsmul (jsdiv (jssub latest previous) previous) (Fin 100).

(** The state of the page [Home] ([src/app/page.tsx]) and its effect
    [loadData]. *)
Record HomeState : Type := {
  h_loading : bool;
  h_error : option string;
  h_stats : option DashboardStats.t;
  h_yearlyData : list YearlyData.t;
  h_countyData : list CountyData.t;
  h_makeData : list MakeData.t;
  h_modelData : list ModelData.t;
  h_rangeData : list RangeDistribution.t
}.

(** [useState] initial values. *)
Definition Home_initial : HomeState :=
  {| h_loading := true; h_error := None; h_stats := None;
     h_yearlyData := []; h_countyData := []; h_makeData := [];
     h_modelData := []; h_rangeData := [] |}.

(** [err instanceof Error ? err.message : "Failed to load data"] *)
Definition error_message (err : js_error) : string :=
  match err with
  | Error message => message
  | Thrown _ => "Failed to load data"
  end.

Section Home.
Variable fetch_text : string -> completion string.
Variable Papa_parse : string -> list (list string).
(** The engine that runs the page accepts a call [f(...args)] with at most
    [max_arguments] arguments, and throws a [RangeError], an instance of
    [Error] with the message [range_message], on a call with more.
    ECMAScript leaves both to the engine. *)
Variable max_arguments : nat.
Variable range_message : string.

(** What the [set...] calls of the [try] block receive. *)
Record HomeData : Type := {
  d_stats : DashboardStats.t;
  d_yearlyData : list YearlyData.t;
  d_countyData : list CountyData.t;
  d_makeData : list MakeData.t;
  d_modelData : list ModelData.t;
  d_rangeData : list RangeDistribution.t
}.

(** [processor.getDashboardStats()] as the engine runs it: its calls
    [Math.max(...years)] and [Math.min(...years)] have one argument for
    each record with a positive model year; nothing is written before
    them.  No other query of the page spreads an array into a call. *)
Definition run_getDashboardStats : Method DashboardStats.t :=
  data <- read_rawData ;;
  let years := filter (fun y => jsgt y (Fin 0)) (map modelYear data) in
  if (List.length years <=? max_arguments)%nat then getDashboardStats
  else throw (Error range_message).

(** The calls of the [try] block on the engine [processor]. *)
Definition Home_analytics : Method HomeData :=
  loadData fetch_text Papa_parse "/data.csv" ;;;
  stats <- run_getDashboardStats ;;
  yearly <- getYearlyTrends ;;
  counties <- getCountyDistribution ;;
  makes <- getMakeDistribution ;;
  models <- getTopModels (Some (Fin 15)) ;;
  buckets <- getRangeDistribution ;;
  ret {| d_stats := stats; d_yearlyData := yearly; d_countyData := counties;
         d_makeData := makes; d_modelData := models; d_rangeData := buckets |}.

Definition Home_loadData (s : HomeState) : HomeState :=
  (* setLoading(true); setError(null) *)
  let s := {| h_loading := true; h_error := None; h_stats := h_stats s;
              h_yearlyData := h_yearlyData s; h_countyData := h_countyData s;
              h_makeData := h_makeData s; h_modelData := h_modelData s;
              h_rangeData := h_rangeData s |} in
  let s :=
    match Home_analytics new_EVDataProcessor with
    | (Normal d, _) =>
        {| h_loading := h_loading s; h_error := h_error s;
           h_stats := Some (d_stats d);
           h_yearlyData := d_yearlyData d; h_countyData := d_countyData d;
           h_makeData := d_makeData d; h_modelData := d_modelData d;
           h_rangeData := d_rangeData d |}
    | (Throw err, _) =>
        (* catch: setError(...) *)
        {| h_loading := h_loading s; h_error := Some (error_message err);
           h_stats := h_stats s;
           h_yearlyData := h_yearlyData s; h_countyData := h_countyData s;
           h_makeData := h_makeData s; h_modelData := h_modelData s;
           h_rangeData := h_rangeData s |}
    end in
  (* finally: setLoading(false) *)
  {| h_loading := false; h_error := h_error s; h_stats := h_stats s;
     h_yearlyData := h_yearlyData s; h_countyData := h_countyData s;
     h_makeData := h_makeData s; h_modelData := h_modelData s;
     h_rangeData := h_rangeData s |}.
End Home.

(** * Properties *)

(** ** The example of the specification *)

Example example_yearlyTrends :
  yearlyTrends example_data =
    [ {| YearlyData.year := Fin 2021; YearlyData.count := 2;
         YearlyData.bevCount := 1; YearlyData.phevCount := 1 |};
      {| YearlyData.year := Fin 2022; YearlyData.count := 1;
         YearlyData.bevCount := 1; YearlyData.phevCount := 0 |} ].
Proof. vm_compute. reflexivity. Qed.

(** The percentages are the doubles nearest to 66.67 and 33.33. *)
Example example_countyDistribution :
  countyDistribution example_data =
    [ {| CountyData.county := "King"; CountyData.count := 2;
         CountyData.percentage := jsdiv (Fin 6667) (Fin 100) |};
      {| CountyData.county := "Pierce"; CountyData.count := 1;
         CountyData.percentage := jsdiv (Fin 3333) (Fin 100) |} ].
Proof. vm_compute. reflexivity. Qed.

Example example_rangeDistribution :
  rangeDistribution example_data =
    [ {| RangeDistribution.rangeGroup := "151-200 miles";
         RangeDistribution.count := 1;
         RangeDistribution.percentage := Fin 50 |};
      {| RangeDistribution.rangeGroup := "251-300 miles";
         RangeDistribution.count := 1;
         RangeDistribution.percentage := Fin 50 |} ].
Proof. vm_compute. reflexivity. Qed.

Example example_dashboardStats :
  dashboardStats example_data =
    {| DashboardStats.totalVehicles := 3;
       DashboardStats.avgElectricRange := Fin 250;
       DashboardStats.bevPercentage := Fin 67;
       DashboardStats.phevPercentage := Fin 33;
       DashboardStats.topCounty := "King";
       DashboardStats.topMake := "N/A";
       DashboardStats.latestYear := Fin 2022;
       DashboardStats.earliestYear := Fin 2021 |}.
Proof. vm_compute. reflexivity. Qed.

(** [parseInt] reads the longest numeric prefix. *)
Example example_parseInt :
  map parseInt
      [Some "2021"; Some "  -12abc"; Some "0x1A"; Some "12.7"; Some "abc";
       Some ""; None; Some "9007199254740993"]
  = [Fin 2021; Fin (-12); Fin 26; Fin 12; NaN; NaN; NaN;
     Fin 9007199254740992].
Proof. vm_compute. reflexivity. Qed.

(** White space that is not ASCII is skipped by [parseInt] and removed by
    [trim]: the year of [spaced_row] is 2021 and its utility names are
    ["A"], twice, and ["B"]; a byte order mark (U+FEFF) is skipped too.  A
    byte 160 alone encodes no character ([response.text()] reads it as
    U+FFFD) and is no white space. *)
Example example_white_space :
  modelYear (parseRow spaced_row) = Fin 2021 /\
  utility_names [parseRow spaced_row] = ["A"; "A"; "B"] /\
  map (fun u => (UtilityData.utility u, UtilityData.count u))
      (utilityDistribution [parseRow spaced_row])
  = [("A", 2); ("B", 1)] /\
  parseInt (Some (String "239" (String "187" (String "191" "7")))) = Fin 7 /\
  parseInt (Some (String "160" "2021")) = NaN.
Proof. vm_compute. repeat split. Qed.

(** ** The engine and its state *)

Lemma query_repeatable {A : Type} (f : list EVRecord -> A) :
  repeatable (data <- read_rawData ;; ret (f data)).
Proof.
  intros this. exists (f (rawData this)). split; reflexivity.
Qed.

(** C1. On an engine whose record set is empty, [getDashboardStats] returns
    normally, with [totalVehicles] 0 and [avgElectricRange] 0, but with
    [bevPercentage] and [phevPercentage] equal to [NaN] (0/0), [latestYear]
    equal to -Infinity and [earliestYear] equal to +Infinity (the maximum
    and minimum of no number, both truthy, so that [|| 0] keeps them). *)
Theorem getDashboardStats_empty :
  getDashboardStats {| rawData := [] |} =
    (Normal {| DashboardStats.totalVehicles := 0;
               DashboardStats.avgElectricRange := Fin 0;
               DashboardStats.bevPercentage := NaN;
               DashboardStats.phevPercentage := NaN;
               DashboardStats.topCounty := "N/A";
               DashboardStats.topMake := "N/A";
               DashboardStats.latestYear := Inf true;
               DashboardStats.earliestYear := Inf false |},
     {| rawData := [] |}).
Proof. reflexivity. Qed.

(** C3. The [totalVehicles] field returned by [getDashboardStats] is the
    length of the array returned by [getRawData]. *)
Theorem totalVehicles_is_raw_length (this : EVDataProcessor) :
  exists (stats : DashboardStats.t) (raw : list EVRecord),
    getDashboardStats this = (Normal stats, this) /\
    getRawData this = (Normal raw, this) /\
    DashboardStats.totalVehicles stats = List.length raw.
Proof.
  exists (dashboardStats (rawData this)), (rawData this).
  repeat split.
Qed.

(** C6. A row that stops after its eighth column is parsed without a throw
    and its missing numeric fields are 0 and its missing string fields are
    empty, except the powertrain category [electricVehicleType], which is
    [undefined] and not the empty string. *)
Theorem parseRow_short_row_type_undefined :
  parseRow ["5YJ3E1EA7K"; "King"; "Seattle"; "WA"; "98101"; "2019"; "TESLA";
            "MODEL 3"] =
    {| vin := "5YJ3E1EA7K"; county := "King"; city := "Seattle"; state := "WA";
       postalCode := "98101"; modelYear := Fin 2019; make := "TESLA";
       model := "MODEL 3";
       electricVehicleType := None;
       cafvEligibility := ""; electricRange := Fin 0; baseMsrp := Fin 0;
       legislativeDistrict := Fin 0; dolVehicleId := ""; vehicleLocation := "";
       electricUtility := ""; censusTract := "" |}.
Proof. reflexivity. Qed.

(** The columns that a row of at most eight columns lacks: the numeric
    fields are 0 and the string fields are empty, but the powertrain
    category, which has no default, is [undefined]. *)
Lemma parseRow_missing_columns (row : list string) :
  List.length row <= 8 ->
  electricVehicleType (parseRow row) = None /\
  cafvEligibility (parseRow row) = "" /\
  electricRange (parseRow row) = Fin 0 /\
  baseMsrp (parseRow row) = Fin 0 /\
  legislativeDistrict (parseRow row) = Fin 0 /\
  dolVehicleId (parseRow row) = "" /\
  vehicleLocation (parseRow row) = "" /\
  electricUtility (parseRow row) = "" /\
  censusTract (parseRow row) = "".
Proof.
  intros H. unfold parseRow. cbn [electricVehicleType cafvEligibility
    electricRange baseMsrp legislativeDistrict dolVehicleId vehicleLocation
    electricUtility censusTract].
  rewrite !(proj2 (nth_error_None row _)) by lia.
  repeat split.
Qed.

Lemma filter_Boolean_parsed (rows : list (list string)) :
  filter_Boolean (map try_parseRow rows) = map parseRow rows.
Proof.
  induction rows as [| row rows IH]; [reflexivity |].
  unfold filter_Boolean in *. simpl. now f_equal.
Qed.

Lemma loadData_throws
    (fetch_text : string -> completion string)
    (Papa_parse : string -> list (list string))
    (csvPath : string) (this : EVDataProcessor) (error : js_error) :
  fetch_text csvPath = Throw error ->
  loadData fetch_text Papa_parse csvPath this = (Throw error, this).
Proof.
  intros E. unfold loadData, try_catch, bind, lift. now rewrite E.
Qed.

Lemma loadData_installs
    (fetch_text : string -> completion string)
    (Papa_parse : string -> list (list string))
    (csvPath csvText : string) (this : EVDataProcessor) :
  fetch_text csvPath = Normal csvText ->
  loadData fetch_text Papa_parse csvPath this =
    (Normal (map parseRow (tl (Papa_parse csvText))),
     {| rawData := map parseRow (tl (Papa_parse csvText)) |}).
Proof.
  intros E. unfold loadData, try_catch, bind, lift, write_rawData, ret.
  rewrite E. simpl. now rewrite filter_Boolean_parsed.
Qed.

(** C8. When the text cannot be obtained, [loadData] throws the error it
    got and the engine keeps the record set it had; when the text is
    obtained, [loadData] returns normally whatever the rows are, and installs
    the records of all the rows after the header. *)
Theorem loadData_outcome
    (fetch_text : string -> completion string)
    (Papa_parse : string -> list (list string))
    (csvPath : string) (this : EVDataProcessor) :
  match fetch_text csvPath with
  | Throw error =>
      loadData fetch_text Papa_parse csvPath this = (Throw error, this)
  | Normal csvText =>
      let data := map parseRow (tl (Papa_parse csvText)) in
      loadData fetch_text Papa_parse csvPath this =
        (Normal data, {| rawData := data |})
  end.
Proof.
  destruct (fetch_text csvPath) as [csvText | error] eqn:E.
  - now apply loadData_installs.
  - now apply loadData_throws.
Qed.

(** C9. Every query returns normally, leaves the engine's record set as it
    was, and returns the same value when it is called again. *)
Theorem queries_repeatable :
  repeatable getDashboardStats /\
  repeatable getCountyDistribution /\
  repeatable getYearlyTrends /\
  repeatable getMakeDistribution /\
  (forall limit : option number, repeatable (getTopModels limit)) /\
  repeatable getRangeDistribution /\
  repeatable getUtilityDistribution /\
  repeatable getRawData.
Proof.
  repeat match goal with |- _ /\ _ => split end;
    try apply query_repeatable.
  - intros limit. apply query_repeatable.
  - intros this. exists (rawData this). split; reflexivity.
Qed.


(** ** Sorting and slicing *)

Section SortFacts.
Context {A : Type}.

Lemma insert_perm (after : A -> A -> bool) (x : A) (l : list A) :
  Permutation (insert after x l) (x :: l).
Proof.
  induction l as [| y l IH]; simpl; [reflexivity |].
  destruct (after x y); [| reflexivity].
  rewrite IH. apply perm_swap.
Qed.

Lemma sort_perm (after : A -> A -> bool) (l : list A) :
  Permutation (sort after l) l.
Proof.
  induction l as [| x l IH]; simpl; [reflexivity |].
  rewrite insert_perm. now constructor.
Qed.

Lemma sort_In (after : A -> A -> bool) (l : list A) (x : A) :
  In x (sort after l) <-> In x l.
Proof.
  split; apply Permutation_in; [| symmetry]; apply sort_perm.
Qed.

Lemma sort_length (after : A -> A -> bool) (l : list A) :
  List.length (sort after l) = List.length l.
Proof. apply Permutation_length, sort_perm. Qed.

Variable count : A -> nat.

Lemma count_after_spec (a b : A) :
  count_after count a b = true <-> count a < count b.
Proof. unfold count_after. rewrite Z.gtb_ltb, Z.ltb_lt. lia. Qed.

Lemma insert_descending (x : A) (l : list A) :
  descending count l -> descending count (insert (count_after count) x l).
Proof.
  unfold descending.
  induction 1 as [| y l Hl IH Hy]; simpl.
  - repeat constructor.
  - destruct (count_after count x y) eqn:E.
    + apply count_after_spec in E.
      constructor; [exact IH |].
      apply Forall_forall. intros z Hz.
      apply (Permutation_in _ (insert_perm _ x l)) in Hz.
      destruct Hz as [<- | Hz]; [lia |].
      rewrite Forall_forall in Hy. now apply Hy.
    + assert (count y <= count x).
      { destruct (Nat.lt_ge_cases (count x) (count y)) as [L | L]; [| exact L].
        apply count_after_spec in L. congruence. }
      constructor; [now constructor |].
      constructor; [assumption |].
      eapply Forall_impl; [| exact Hy]. simpl. intros; lia.
Qed.

Lemma sort_descending (l : list A) :
  descending count (sort (count_after count) l).
Proof.
  induction l as [| x l IH]; simpl; [constructor |].
  now apply insert_descending.
Qed.

Lemma firstn_descending (n : nat) (l : list A) :
  descending count l -> descending count (firstn n l).
Proof.
  unfold descending. intros H. revert n.
  induction H as [| y l Hl IH Hy]; intros [| n]; simpl; try constructor.
  - apply IH.
  - rewrite Forall_forall in *. intros z Hz.
    apply Hy. revert Hz. clear. revert n.
    induction l as [| w l IH]; intros [| n]; simpl; try tauto.
    intros [-> | H]; [now left | right; eauto].
Qed.

Lemma slice0_descending (n : number) (l : list A) :
  descending count l -> descending count (slice0 l n).
Proof. apply firstn_descending. Qed.
End SortFacts.

Lemma slice0_at_most {A : Type} (l : list A) (n : number) :
  jsge n (Fin 0) = true -> at_most (List.length (slice0 l n)) n.
Proof.
  destruct n as [| [|] | q]; simpl; try discriminate; [trivial |].
  intros Hq. apply Qle_bool_iff in Hq.
  unfold slice0.
  set (k := Z.quot (Qnum q) (Z.pos (Qden q))).
  assert (Hnum : (0 <= Qnum q)%Z).
  { unfold Qle in Hq. simpl in Hq. lia. }
  assert (Hk : k = Qfloor q).
  { unfold k. destruct q as [a b]. simpl in *.
    apply Z.quot_div_nonneg; lia. }
  assert (H0 : (0 <= k)%Z).
  { rewrite Hk. change 0%Z with (Qfloor 0). now apply Qfloor_resp_le. }
  destruct (Z.ltb_spec k 0) as [L | _]; [lia |].
  apply Qle_trans with (inject_Z (Qfloor q)); [| apply Qfloor_le].
  rewrite <- Zle_Qle, <- Hk.
  pose proof (firstn_le_length
                (Z.to_nat (Z.min k (Z.of_nat (List.length l)))) l) as B.
  lia.
Qed.

(** C7. For every record set and every limit [n >= 0], [getTopModels(n)]
    returns at most [n] entries, in descending order of their counts, and
    calling it again on the same record set gives the same list. *)
Theorem getTopModels_bounded_sorted (this : EVDataProcessor) (n : number) :
  jsge n (Fin 0) = true ->
  exists out : list ModelData.t,
    getTopModels (Some n) this = (Normal out, this) /\
    at_most (List.length out) n /\
    descending ModelData.count out /\
    getTopModels (Some n) (snd (getTopModels (Some n) this))
      = (Normal out, this).
Proof.
  intros Hn. exists (topModels (rawData this) n).
  repeat split.
  - now apply slice0_at_most.
  - apply slice0_descending, sort_descending.
Qed.

Lemma getTopModels_bounded_sorted_witness :
  exists out : list ModelData.t,
    getTopModels (Some (Fin 1)) sample_engine = (Normal out, sample_engine) /\
    at_most (List.length out) (Fin 1) /\
    descending ModelData.count out /\
    getTopModels (Some (Fin 1))
                 (snd (getTopModels (Some (Fin 1)) sample_engine))
      = (Normal out, sample_engine).
Proof.
  apply (getTopModels_bounded_sorted sample_engine (Fin 1)).
  reflexivity.
Defined.

(** ** Rows with a model year that is not a number *)





Lemma map_set_keys {K V : Type} (keq : K -> K -> bool) (P : K -> Prop)
    (m : list (K * V)) (k : K) (v : V) :
  Forall (fun kv => P (fst kv)) m -> P k ->
  Forall (fun kv => P (fst kv)) (map_set keq m k v).
Proof.
  intros Hm Hk.
  induction Hm as [| [k' v'] m Hk' Hm IH]; simpl.
  - now repeat constructor.
  - destruct (keq k' k); constructor; assumption.
Qed.






(** ** Maps *)

Section MapFacts.
Context {K V : Type} (keq : K -> K -> bool).
Hypothesis keq_eq : forall a b, keq a b = true <-> a = b.

Lemma keq_refl (k : K) : keq k k = true.
Proof. now apply keq_eq. Qed.

Lemma map_get_set (m : list (K * V)) (k k' : K) (v : V) :
  map_get keq (map_set keq m k v) k' =
  if keq k k' then Some v else map_get keq m k'.
Proof.
  induction m as [| [k0 v0] m IH]; simpl.
  - reflexivity.
  - destruct (keq k0 k) eqn:E0; simpl.
    + apply keq_eq in E0. subst k0.
      now destruct (keq k k').
    + destruct (keq k0 k') eqn:E1.
      * apply keq_eq in E1. subst k0.
        destruct (keq k k') eqn:E2; [| reflexivity].
        apply keq_eq in E2. subst k'. rewrite keq_refl in E0. discriminate.
      * exact IH.
Qed.

Lemma map_get_In (m : list (K * V)) (k : K) (v : V) :
  map_get keq m k = Some v -> In (k, v) m.
Proof.
  induction m as [| [k0 v0] m IH]; simpl; [discriminate |].
  destruct (keq k0 k) eqn:E.
  - apply keq_eq in E. subst k0. intros [= ->]. now left.
  - intros H. right. now apply IH.
Qed.

Lemma In_map_get (m : list (K * V)) (k : K) (v : V) :
  NoDup (map fst m) -> In (k, v) m -> map_get keq m k = Some v.
Proof.
  induction m as [| [k0 v0] m IH]; simpl; [tauto |].
  intros N [E | H].
  - injection E as -> ->. now rewrite keq_refl.
  - inversion N as [| ? ? Hnot N']; subst.
    destruct (keq k0 k) eqn:E.
    + apply keq_eq in E. subst k0.
      exfalso. apply Hnot. change k with (fst (k, v)). now apply in_map.
    + now apply IH.
Qed.

Lemma map_set_fst_In (m : list (K * V)) (k k' : K) (v : V) :
  In k' (map fst (map_set keq m k v)) -> k' = k \/ In k' (map fst m).
Proof.
  induction m as [| [k0 v0] m IH]; simpl.
  - intros [<- | []]. now left.
  - destruct (keq k0 k); simpl; [tauto |].
    intros [<- | H]; [tauto |]. apply IH in H. tauto.
Qed.

Lemma map_set_NoDup (m : list (K * V)) (k : K) (v : V) :
  NoDup (map fst m) -> NoDup (map fst (map_set keq m k v)).
Proof.
  induction m as [| [k0 v0] m IH]; simpl; intros N.
  - repeat constructor. simpl. tauto.
  - inversion N as [| ? ? Hnot N']; subst.
    destruct (keq k0 k) eqn:E; simpl; [now constructor |].
    constructor; [| now apply IH].
    intros H. apply map_set_fst_In in H. destruct H as [-> | H]; [| tauto].
    rewrite keq_refl in E. discriminate.
Qed.
End MapFacts.

(** ** The keys of [getTopModels] *)

Lemma split_nonempty (c : ascii) (s : string) : split c s <> [].
Proof.
  destruct s as [| a s]; simpl; [discriminate |].
  destruct (Ascii.eqb a c); [discriminate |].
  destruct (split c s); discriminate.
Qed.

Lemma split_app (c : ascii) (a b : string) :
  split c (a ++ String c b)%string = split c a ++ split c b.
Proof.
  induction a as [| x a IH]; simpl.
  - now rewrite Ascii.eqb_refl.
  - destruct (Ascii.eqb x c); [now rewrite IH |].
    rewrite IH.
    pose proof (split_nonempty c a) as N.
    destruct (split c a); [congruence | reflexivity].
Qed.

Lemma split_no_bar (s : string) : no_bar s = true -> split "|" s = [s].
Proof.
  induction s as [| x s IH]; simpl; [reflexivity |].
  intros H. apply andb_prop in H. destruct H as [Hx Hs].
  apply negb_true_iff in Hx. rewrite Hx, (IH Hs). reflexivity.
Qed.

Lemma split_model_key (v : EVRecord) :
  no_bar (make v) = true ->
  split "|" (model_key v) = make v :: split "|" (model v).
Proof.
  intros H. unfold model_key. simpl.
  rewrite split_app, split_no_bar by exact H. reflexivity.
Qed.

Lemma key_injective (m1 m2 x1 x2 : string) :
  no_bar m1 = true -> no_bar m2 = true ->
  (m1 ++ "|" ++ x1 = m2 ++ "|" ++ x2)%string -> m1 = m2 /\ x1 = x2.
Proof.
  revert m2.
  induction m1 as [| c m1 IH]; intros [| d m2]; simpl; intros H1 H2 E.
  - injection E as E. now split.
  - injection E as <- _. discriminate H2.
  - injection E as -> _. discriminate H1.
  - injection E as <- E.
    apply andb_prop in H1. apply andb_prop in H2.
    destruct (IH m2) as [-> ->]; tauto.
Qed.

Lemma same_key_same_pair (v w : EVRecord) :
  no_bar (make v) = true -> no_bar (make w) = true ->
  make v <> "" -> model v <> "" ->
  same_key v w = same_pair v w.
Proof.
  intros Hv Hw Hmake Hmodel. unfold same_key, same_pair, truthy_str.
  destruct (String.eqb_spec (model_key w) (model_key v)) as [E | N].
  - apply key_injective in E; [| assumption ..]. destruct E as [-> ->].
    rewrite !String.eqb_refl.
    apply String.eqb_neq in Hmake, Hmodel. now rewrite Hmake, Hmodel.
  - rewrite andb_false_r.
    destruct (String.eqb_spec (make w) (make v)) as [E1 | ]; [| reflexivity].
    destruct (String.eqb_spec (model w) (model v)) as [E2 | ]; [| reflexivity].
    exfalso. apply N. unfold model_key. now rewrite E1, E2.
Qed.

Lemma model_map_snoc (data : list EVRecord) (v : EVRecord) :
  model_map (data ++ [v]) = model_step (model_map data) v.
Proof. unfold model_map. now rewrite fold_left_app. Qed.

Lemma model_step_get (m : list (string * ModelAcc)) (v : EVRecord)
    (k : string) :
  truthy_str (make v) && truthy_str (model v) = true ->
  String.eqb (model_key v) k = true ->
  exists d, map_get String.eqb (model_step m v) k = Some d /\
            a_count d = match map_get String.eqb m k with
                        | Some e => a_count e + 1
                        | None => 1
                        end.
Proof.
  intros G E. unfold model_step. rewrite G.
  rewrite (map_get_set String.eqb String.eqb_eq), E.
  apply String.eqb_eq in E. subst k.
  eexists. split; [reflexivity |].
  destruct (map_get String.eqb m (model_key v));
    destruct (jsgt (electricRange v) (Fin 0));
    destruct (jsgt (modelYear v) (Fin 0)); reflexivity.
Qed.

Lemma model_step_get_other (m : list (string * ModelAcc)) (v : EVRecord)
    (k : string) :
  truthy_str (make v) && truthy_str (model v)
  && String.eqb (model_key v) k = false ->
  map_get String.eqb (model_step m v) k = map_get String.eqb m k.
Proof.
  intros G. unfold model_step.
  destruct (truthy_str (make v) && truthy_str (model v)); [| reflexivity].
  simpl in G. now rewrite (map_get_set String.eqb String.eqb_eq), G.
Qed.

(** The entry of the map under a key counts the records grouped under it. *)
Lemma model_map_get (data : list EVRecord) (v : EVRecord) :
  match map_get String.eqb (model_map data) (model_key v) with
  | Some d => a_count d = List.length (filter (same_key v) data) /\
              0 < List.length (filter (same_key v) data)
  | None => List.length (filter (same_key v) data) = 0
  end.
Proof.
  induction data as [| w data IH] using rev_ind; [reflexivity |].
  rewrite model_map_snoc, filter_app, length_app. simpl.
  destruct (same_key v w) eqn:E.
  - unfold same_key in E. apply andb_prop in E. destruct E as [G E].
    destruct (model_step_get (model_map data) w (model_key v) G E)
      as [d [-> Hd]].
    rewrite Hd. simpl.
    destruct (map_get String.eqb (model_map data) (model_key v)); lia.
  - rewrite model_step_get_other by exact E. simpl.
    rewrite Nat.add_0_r. exact IH.
Qed.

Lemma model_map_NoDup (data : list EVRecord) :
  NoDup (map fst (model_map data)).
Proof.
  induction data as [| w data IH] using rev_ind; [constructor |].
  rewrite model_map_snoc. unfold model_step.
  destruct (truthy_str (make w) && truthy_str (model w)); [| exact IH].
  now apply (map_set_NoDup String.eqb String.eqb_eq).
Qed.

Lemma slice0_all {A : Type} (l : list A) : slice0 l (Inf false) = l.
Proof. unfold slice0. rewrite Nat2Z.id. apply firstn_all. Qed.

Lemma filter_nonempty_In {A : Type} (f : A -> bool) (l : list A) :
  0 < List.length (filter f l) -> exists x, In x l /\ f x = true.
Proof.
  destruct (filter f l) as [| x t] eqn:E; simpl; [lia |].
  intros _. exists x. apply filter_In. rewrite E. now left.
Qed.

(** C10. [getTopModels] groups the records under the key
    [make + "|" + model] and reports the first two pieces of the key split
    at ["|"].  When no make has a ["|"], the entry of a record counts the
    records with exactly its make and model, and reports its make and the
    part of its model before the first ["|"].  In general an entry counts
    the records with the same key, and reports the key text before the
    first ["|"] and between the first and the second; two records with a
    different make and model can fall in one entry. *)
Theorem getTopModels_grouping :
  (forall data : list EVRecord,
      Forall (fun v => no_bar (make v) = true) data ->
      forall v : EVRecord,
        In v data -> make v <> "" -> model v <> "" ->
        exists e : ModelData.t,
          In e (topModels data (Inf false)) /\
          ModelData.make e = Some (make v) /\
          ModelData.model e = hd_error (split "|" (model v)) /\
          ModelData.count e = List.length (filter (same_pair v) data)) /\
  (forall (data : list EVRecord) (e : ModelData.t),
      In e (topModels data (Inf false)) ->
      exists v : EVRecord,
        In v data /\ make v <> "" /\ model v <> "" /\
        ModelData.make e = nth_error (split "|" (model_key v)) 0 /\
        ModelData.model e = nth_error (split "|" (model_key v)) 1 /\
        ModelData.count e = List.length (filter (same_key v) data)) /\
  (map (fun v => (make v, model v)) merged_data
   = [("A|B", "C"); ("A", "B|C")] /\
   topModels merged_data (Inf false) =
     [ {| ModelData.make := Some "A"; ModelData.model := Some "B";
          ModelData.count := 2;
          ModelData.avgRange := Fin 200; ModelData.avgYear := Fin 2021 |} ]).
Proof.
  split; [| split; [| split; reflexivity]].
  - intros data Hbar v Hin Hmake Hmodel.
    assert (Hv : no_bar (make v) = true).
    { rewrite Forall_forall in Hbar. now apply Hbar. }
    assert (Hself : same_key v v = true).
    { unfold same_key, truthy_str.
      apply String.eqb_neq in Hmake, Hmodel.
      now rewrite Hmake, Hmodel, String.eqb_refl. }
    pose proof (model_map_get data v) as G.
    destruct (map_get String.eqb (model_map data) (model_key v)) as [d |] eqn:E.
    + destruct G as [Hcount _].
      exists (model_entry (model_key v, d)).
      split; [| split; [| split]].
      * unfold topModels. rewrite slice0_all. apply sort_In, in_map.
        now apply (map_get_In String.eqb String.eqb_eq).
      * simpl. now rewrite split_model_key.
      * simpl. rewrite split_model_key by exact Hv. simpl.
        now destruct (split "|" (model v)).
      * simpl. rewrite Hcount. f_equal.
        apply filter_ext_in. intros w Hw.
        apply same_key_same_pair; try assumption.
        rewrite Forall_forall in Hbar. now apply Hbar.
    + exfalso.
      assert (In v (filter (same_key v) data)) as Hf.
      { apply filter_In. now split. }
      destruct (filter (same_key v) data); [contradiction | discriminate].
  - intros data e He.
    unfold topModels in He. rewrite slice0_all in He.
    apply sort_In, in_map_iff in He.
    destruct He as [[k d] [<- Hin]].
    pose proof (In_map_get String.eqb String.eqb_eq _ k d
                  (model_map_NoDup data) Hin) as Hget.
    assert (Hex : exists v,
               In v data /\ same_key v v = true /\ model_key v = k).
    { clear Hget. revert k d Hin.
      induction data as [| w data IH] using rev_ind; [contradiction |].
      intros k d Hin. rewrite model_map_snoc in Hin.
      assert (Hold : forall k d, In (k, d) (model_map data) ->
                exists v, In v (data ++ [w]) /\ same_key v v = true /\
                          model_key v = k).
      { intros k0 d0 H0. destruct (IH k0 d0 H0) as [v [Hv Hk]].
        exists v. split; [apply in_or_app; now left | exact Hk]. }
      unfold model_step in Hin.
      destruct (truthy_str (make w) && truthy_str (model w)) eqn:G;
        [| now apply (Hold k d)].
      destruct (String.eqb_spec (model_key w) k) as [Ek | Nk].
      - exists w. split; [apply in_or_app; right; now left |].
        split; [| exact Ek].
        unfold same_key. now rewrite G, String.eqb_refl.
      - pose proof (In_map_get String.eqb String.eqb_eq _ k d
                      (map_set_NoDup String.eqb String.eqb_eq _ _ _
                         (model_map_NoDup data)) Hin) as Hg.
        rewrite (map_get_set String.eqb String.eqb_eq) in Hg.
        apply String.eqb_neq in Nk. rewrite Nk in Hg.
        apply (map_get_In String.eqb String.eqb_eq) in Hg.
        now apply (Hold k d). }
    destruct Hex as [v [Hv [Hself <-]]].
    exists v.
    pose proof (model_map_get data v) as G. rewrite Hget in G.
    unfold same_key, truthy_str in Hself.
    apply andb_prop in Hself. destruct Hself as [Hself _].
    apply andb_prop in Hself. destruct Hself as [H1 H2].
    apply negb_true_iff, String.eqb_neq in H1, H2.
    repeat split; try assumption. apply G.
Qed.

Lemma getTopModels_grouping_witness :
  exists e : ModelData.t,
    In e (topModels sample_data (Inf false)) /\
    ModelData.make e = Some "NISSAN" /\
    ModelData.model e = Some "LEAF" /\
    ModelData.count e = 2.
Proof.
  apply (proj1 getTopModels_grouping sample_data
           ltac:(repeat constructor) (nth 1 sample_data (parseRow [])));
    [simpl; tauto | discriminate | discriminate].
Defined.

(** ** Numbers that are integers *)

Lemma pow2_pos (e : Z) : (0 < pow2 e)%Q.
Proof. apply Qpower_0_lt. reflexivity. Qed.

Lemma pow2_Z (e : Z) : (0 <= e)%Z -> (pow2 e == inject_Z (2 ^ e))%Q.
Proof. intros H. unfold pow2. now rewrite Zpower_Qpower. Qed.

Lemma pow2_opp (e : Z) : (pow2 (- e) == / pow2 e)%Q.
Proof. apply Qpower_opp. Qed.

Lemma rne_Z (z : Z) : rne (inject_Z z) = z.
Proof.
  unfold rne. rewrite Qfloor_Z.
  assert (E : (inject_Z z - inject_Z z == 0)%Q) by ring.
  now rewrite E.
Qed.

Lemma rne_proper (x y : Q) : (x == y)%Q -> rne x = rne y.
Proof.
  intros E. unfold rne.
  assert (F : Qfloor x = Qfloor y) by now rewrite E.
  rewrite F. now rewrite E.
Qed.

Lemma fl_abs_integral (z : Z) :
  exists k : Z, (fl_abs (inject_Z z) == inject_Z k)%Q.
Proof.
  unfold fl_abs.
  set (e := Z.max (ilog2 (inject_Z z) - 52) (-1074)).
  destruct (Z.le_gt_cases 0 e) as [P | N].
  - exists (rne (inject_Z z / pow2 e) * 2 ^ e)%Z.
    now rewrite inject_Z_mult, <- pow2_Z.
  - exists z.
    assert (E : (inject_Z z / pow2 e == inject_Z (z * 2 ^ (- e)))%Q).
    { rewrite inject_Z_mult, <- pow2_Z by lia. rewrite pow2_opp. reflexivity. }
    rewrite (rne_proper _ _ E), rne_Z.
    rewrite inject_Z_mult, <- pow2_Z by lia. rewrite pow2_opp.
    field. apply Qnot_eq_sym, Qlt_not_eq, pow2_pos.
Qed.

Lemma fl_integral (z : Z) : integral (fl (inject_Z z)).
Proof.
  unfold fl.
  destruct (Qcompare (inject_Z z) 0).
  - exists 0%Z. reflexivity.
  - change (- inject_Z z)%Q with (inject_Z (- z)).
    destruct (Qle_bool (pow2 1024) (fl_abs (inject_Z (- z)))); [exact I |].
    destruct (fl_abs_integral (- z)) as [k Hk].
    exists (- k)%Z. now rewrite Qred_correct, Hk, inject_Z_opp.
  - destruct (Qle_bool (pow2 1024) (fl_abs (inject_Z z))); [exact I |].
    destruct (fl_abs_integral z) as [k Hk].
    exists k. now rewrite Qred_correct.
Qed.

Lemma parseInt_or_0_integral (o : option string) :
  integral (or_num (parseInt o) (Fin 0)).
Proof.
  assert (Z0 : integral (Fin 0)) by (exists 0%Z; reflexivity).
  unfold or_num, parseInt, parseInt_string.
  destruct (strip_sign _) as [neg s2]. destruct (strip_radix s2) as [radix s3].
  destruct (read_digits radix s3 None) as [z |]; [| exact Z0].
  unfold of_Z.
  destruct (truthy (fl (inject_Z (if neg then (- z)%Z else z))));
    [apply fl_integral | exact Z0].
Qed.

Lemma electricRange_integral (row : list string) :
  integral (electricRange (parseRow row)).
Proof. apply parseInt_or_0_integral. Qed.

(** ** The buckets of [getRangeDistribution] *)

Lemma Qle_bool_int_l (a k : Z) (q : Q) :
  (q == inject_Z k)%Q -> Qle_bool (a # 1)%Q q = (a <=? k)%Z.
Proof.
  intros E. apply eq_true_iff_eq. change (a # 1)%Q with (inject_Z a).
  rewrite Qle_bool_iff, Z.leb_le, E, Zle_Qle. reflexivity.
Qed.

Lemma Qle_bool_int_r (a k : Z) (q : Q) :
  (q == inject_Z k)%Q -> Qle_bool q (a # 1)%Q = (k <=? a)%Z.
Proof.
  intros E. apply eq_true_iff_eq. change (a # 1)%Q with (inject_Z a).
  rewrite Qle_bool_iff, Z.leb_le, E, Zle_Qle. reflexivity.
Qed.

(** A known range that is an integer or an infinity is in one bucket. *)
Lemma bucket_unique (v : EVRecord) :
  integral (electricRange v) -> known_range v = true ->
  list_sum (map (fun b => if in_bucket b v then 1 else 0) ranges) = 1.
Proof.
  unfold known_range, in_bucket, jsle, ranges.
  destruct (electricRange v) as [| [|] | q]; cbn [integral];
    try contradiction; try discriminate; [reflexivity |].
  intros [k Hk] Hpos.
  cbn [map b_min b_max jsge jsgt] in *.
  rewrite !(Qle_bool_int_l _ k q Hk), !(Qle_bool_int_r _ k q Hk) in *.
  apply negb_true_iff, Z.leb_gt in Hpos.
  repeat match goal with
         | |- context [(?a <=? ?b)%Z] =>
             destruct (Z.leb_spec a b); try (exfalso; lia)
         end;
    reflexivity.
Qed.

Lemma list_sum_map_add {A : Type} (f g : A -> nat) (l : list A) :
  list_sum (map (fun a => f a + g a) l) =
  list_sum (map f l) + list_sum (map g l).
Proof. induction l as [| a l IH]; simpl; lia. Qed.

Lemma bucket_counts_exchange (bs : list Bucket) (l : list EVRecord) :
  list_sum (map (bucket_count l) bs) =
  list_sum
    (map (fun v => list_sum (map (fun b => if in_bucket b v then 1 else 0) bs))
         l).
Proof.
  induction l as [| v l IH]; simpl.
  - induction bs as [| b bs IHb]; simpl; [reflexivity | exact IHb].
  - rewrite <- IH, <- list_sum_map_add. f_equal.
    apply map_ext. intros b. unfold bucket_count. simpl.
    now destruct (in_bucket b v).
Qed.

Lemma bucket_counts_total (l : list EVRecord) :
  Forall (fun v => integral (electricRange v) /\ known_range v = true) l ->
  list_sum (map (bucket_count l) ranges) = List.length l.
Proof.
  intros H. rewrite bucket_counts_exchange.
  induction H as [| v l [Hi Hk] Hl IH]; [reflexivity |].
  cbn [map list_sum fold_right List.length].
  change (fold_right Nat.add 0) with list_sum.
  rewrite IH. now rewrite (bucket_unique v Hi Hk).
Qed.

Lemma list_sum_drop_zero {A : Type} (count : A -> nat) (l : list A) :
  list_sum (map count (filter (fun r => (0 <? count r)%nat) l)) =
  list_sum (map count l).
Proof.
  induction l as [| a l IH]; simpl; [reflexivity |].
  destruct (Nat.ltb_spec 0 (count a)); simpl; lia.
Qed.

Lemma filter_of_map {A B : Type} (f : B -> bool) (g : A -> B) (l : list A) :
  filter f (map g l) = map g (filter (fun a => f (g a)) l).
Proof.
  induction l as [| a l IH]; simpl; [reflexivity |].
  destruct (f (g a)); simpl; now rewrite IH.
Qed.

Lemma rangeDistribution_entries (data : list EVRecord) :
  rangeDistribution data =
  map (bucket_entry (filter known_range data))
      (filter
         (fun range =>
            (0 <? bucket_count (filter known_range data) range)%nat)
         ranges).
Proof. unfold rangeDistribution. now rewrite filter_of_map. Qed.

(** C4. For every loaded record set, [getRangeDistribution] lists, in the
    order of the seven buckets, which is ascending, the buckets that contain
    a record with a known range ([electricRange > 0]), and no other; each
    with the number of such records in it and with the percentage of that
    number over the number of records with a known range; and the counts
    add up to the number of records with a known range. *)
Theorem getRangeDistribution_partition (rows : list (list string)) :
  let data := map parseRow rows in
  let known := filter known_range data in
  let out := rangeDistribution data in
  getRangeDistribution {| rawData := data |} =
    (Normal out, {| rawData := data |}) /\
  out = map (bucket_entry known)
            (filter (fun range => (0 <? bucket_count known range)%nat)
                    ranges) /\
  StronglySorted (fun a b => jsgt (b_min b) (b_max a) = true) ranges /\
  Forall (fun r => 0 < RangeDistribution.count r) out /\
  Forall (fun r => RangeDistribution.percentage r =
                   percent2 (RangeDistribution.count r) (List.length known))
         out /\
  list_sum (map RangeDistribution.count out) = List.length known.
Proof.
  intros data known out.
  assert (E : out = map (bucket_entry known)
                (filter (fun range => (0 <? bucket_count known range)%nat)
                        ranges))
    by apply rangeDistribution_entries.
  split; [reflexivity |]. split; [exact E |].
  split; [repeat constructor |].
  split; [| split].
  - rewrite E. apply Forall_forall. intros r Hr.
    apply in_map_iff in Hr. destruct Hr as [b [<- Hb]].
    apply filter_In in Hb. destruct Hb as [_ Hb].
    now apply Nat.ltb_lt in Hb.
  - rewrite E. apply Forall_forall. intros r Hr.
    apply in_map_iff in Hr. now destruct Hr as [b [<- _]].
  - unfold out, rangeDistribution.
    rewrite (list_sum_drop_zero RangeDistribution.count), map_map.
    apply bucket_counts_total.
    apply Forall_forall. intros v Hv.
    apply filter_In in Hv. destruct Hv as [Hv Hk]. split; [| exact Hk].
    apply in_map_iff in Hv. destruct Hv as [row [<- _]].
    apply electricRange_integral.
Qed.

(** ** Rounding to a double *)

Open Scope Q_scope.

Lemma pow2_add (a b : Z) : pow2 (a + b) == pow2 a * pow2 b.
Proof. apply Qpower_plus. discriminate. Qed.

Lemma pow2_sub (a b : Z) : pow2 (a - b) == pow2 a / pow2 b.
Proof. apply Qpower_minus. discriminate. Qed.

Lemma pow2_le (a b : Z) : (a <= b)%Z -> pow2 a <= pow2 b.
Proof. intros H. apply Qpower_le_compat_l; [exact H | discriminate]. Qed.

Lemma pow2_lt_inv (a b : Z) : pow2 a < pow2 b -> (a < b)%Z.
Proof.
  intros H. destruct (Z.lt_ge_cases a b) as [L | G]; [exact L |].
  apply pow2_le in G. lra.
Qed.

Lemma Qdiv_lt_cross (a b c d : Q) :
  0 < b -> 0 < d -> a * d < c * b -> a / b < c / d.
Proof.
  intros Hb Hd H.
  apply Qlt_shift_div_r; [exact Hb |].
  assert (E : c / d * b == c * b / d) by (field; lra).
  rewrite E. apply Qlt_shift_div_l; assumption.
Qed.

Lemma ilog2_bounds (a : Q) :
  0 < a ->
  pow2 (Z.log2 (Qnum a) - Z.log2 (Zpos (Qden a)) - 1) < a /\
  a < pow2 (Z.log2 (Qnum a) - Z.log2 (Zpos (Qden a)) + 1).
Proof.
  intros Ha. destruct a as [n d]. cbn [Qnum Qden].
  assert (Hn : (0 < n)%Z) by (unfold Qlt in Ha; simpl in Ha; lia).
  pose proof (Z.log2_spec n Hn) as [L1 U1].
  pose proof (Z.log2_spec (Zpos d) (Pos2Z.is_pos d)) as [L2 U2].
  pose proof (Z.log2_nonneg n) as N1.
  pose proof (Z.log2_nonneg (Zpos d)) as N2.
  set (ln := Z.log2 n) in *. set (ld := Z.log2 (Zpos d)) in *.
  rewrite (Qmake_Qdiv n d).
  replace (ln - ld - 1)%Z with (ln - (ld + 1))%Z by lia.
  replace (ln - ld + 1)%Z with (ln + 1 - ld)%Z by lia.
  rewrite !pow2_sub, !pow2_Z by lia.
  assert (P1 : (0 < 2 ^ ln)%Z) by (apply Z.pow_pos_nonneg; lia).
  assert (P2 : (0 < 2 ^ ld)%Z) by (apply Z.pow_pos_nonneg; lia).
  assert (P3 : (0 < 2 ^ (ld + 1))%Z) by (apply Z.pow_pos_nonneg; lia).
  assert (P4 : (0 < 2 ^ (ln + 1))%Z) by (apply Z.pow_pos_nonneg; lia).
  split; apply Qdiv_lt_cross;
    try (change 0 with (inject_Z 0); rewrite <- Zlt_Qlt; lia);
    rewrite <- !inject_Z_mult, <- Zlt_Qlt; unfold Z.succ in *; nia.
Qed.

Lemma ilog2_spec (a : Q) :
  0 < a -> pow2 (ilog2 a) <= a /\ a < pow2 (ilog2 a + 1).
Proof.
  intros Ha. pose proof (ilog2_bounds a Ha) as [L U].
  unfold ilog2.
  set (k := (Z.log2 (Qnum a) - Z.log2 (Zpos (Qden a)))%Z) in *.
  destruct (Qle_bool (pow2 k) a) eqn:E.
  - apply Qle_bool_iff in E. split; assumption.
  - assert (N : ~ pow2 k <= a).
    { intros C. apply Qle_bool_iff in C. congruence. }
    replace (k - 1 + 1)%Z with k by lia. split; lra.
Qed.

Lemma rne_error (x : Q) : Qabs (inject_Z (rne x) - x) <= 1 # 2.
Proof.
  pose proof (Qfloor_le x) as L. pose proof (Qlt_floor x) as U.
  rewrite inject_Z_plus in U. change (inject_Z 1) with 1 in U.
  apply Qabs_Qle_condition. unfold rne.
  destruct (Qcompare (x - inject_Z (Qfloor x)) (1 # 2)) eqn:C.
  - apply Qeq_alt in C.
    destruct (Z.even (Qfloor x));
      [| rewrite inject_Z_plus; change (inject_Z 1) with 1]; split; lra.
  - apply Qlt_alt in C. split; lra.
  - apply Qgt_alt in C. rewrite inject_Z_plus. change (inject_Z 1) with 1.
    split; lra.
Qed.

Lemma fl_abs_error (q : Q) :
  pow2 (-1022) <= q ->
  Qabs (fl_abs q - q) <= q * pow2 (-53).
Proof.
  intros Hq.
  assert (Hpos : 0 < q).
  { eapply Qlt_le_trans; [apply (pow2_pos (-1022)) | exact Hq]. }
  destruct (ilog2_spec q Hpos) as [L U].
  assert (He : (-1022 < ilog2 q + 1)%Z).
  { apply pow2_lt_inv. lra. }
  unfold fl_abs. rewrite Z.max_l by lia.
  set (e := (ilog2 q - 52)%Z).
  pose proof (pow2_pos e) as Pe.
  pose proof (rne_error (q / pow2 e)) as R.
  assert (E : inject_Z (rne (q / pow2 e)) * pow2 e - q ==
              (inject_Z (rne (q / pow2 e)) - q / pow2 e) * pow2 e).
  { field. lra. }
  rewrite E, Qabs_Qmult, (Qabs_pos (pow2 e)) by lra.
  assert (B : pow2 (ilog2 q) * pow2 (-53) == (1 # 2) * pow2 e).
  { unfold e. replace (ilog2 q - 52)%Z with (ilog2 q + -53 + 1)%Z by lia.
    rewrite !pow2_add. change (pow2 1) with 2. field. }
  apply Qle_trans with ((1 # 2) * pow2 e).
  - apply Qmult_le_compat_r; [exact R | lra].
  - rewrite <- B. apply Qmult_le_compat_r; [exact L |].
    apply Qlt_le_weak, pow2_pos.
Qed.

Lemma fl_error (q : Q) :
  pow2 (-1022) <= q -> q <= pow2 1023 ->
  exists r : Q, fl q = Fin r /\ Qabs (r - q) <= q * pow2 (-53).
Proof.
  intros Hq Hmax.
  assert (Hpos : 0 < q).
  { eapply Qlt_le_trans; [apply (pow2_pos (-1022)) | exact Hq]. }
  pose proof (fl_abs_error q Hq) as B.
  unfold fl. apply Qgt_alt in Hpos. rewrite Hpos. apply Qgt_alt in Hpos.
  assert (U : pow2 (-53) == 1 # 9007199254740992) by reflexivity.
  assert (T : pow2 1024 == 2 * pow2 1023).
  { change 1024%Z with (1 + 1023)%Z. rewrite pow2_add. reflexivity. }
  destruct (Qle_bool (pow2 1024) (fl_abs q)) eqn:O.
  - exfalso. apply Qle_bool_iff in O.
    apply Qabs_Qle_condition in B. rewrite U in B. lra.
  - exists (Qred (fl_abs q)). split; [reflexivity |].
    now rewrite Qred_correct.
Qed.

Lemma fl_int_exact (z : Z) :
  (0 <= z < 2 ^ 53)%Z -> fl (inject_Z z) = Fin (inject_Z z).
Proof.
  intros [H0 H53].
  destruct (Z.eq_dec z 0) as [-> | Hz]; [reflexivity |].
  assert (Hpos : 0 < inject_Z z).
  { change 0 with (inject_Z 0). rewrite <- Zlt_Qlt. lia. }
  destruct (ilog2_spec _ Hpos) as [L _].
  assert (He : (ilog2 (inject_Z z) < 53)%Z).
  { apply pow2_lt_inv. eapply Qle_lt_trans; [exact L |].
    rewrite (pow2_Z 53) by lia. rewrite <- Zlt_Qlt. exact H53. }
  assert (E : fl_abs (inject_Z z) == inject_Z z).
  { unfold fl_abs.
    set (e := Z.max (ilog2 (inject_Z z) - 52) (-1074)).
    assert (Hle : (e <= 0)%Z) by lia.
    pose proof (pow2_pos e) as Pe.
    assert (D : inject_Z z / pow2 e == inject_Z (z * 2 ^ (- e))).
    { rewrite inject_Z_mult, <- pow2_Z by lia. rewrite pow2_opp. reflexivity. }
    rewrite (rne_proper _ _ D), rne_Z.
    rewrite inject_Z_mult, <- pow2_Z by lia. rewrite pow2_opp.
    field. lra. }
  unfold fl. apply Qgt_alt in Hpos. rewrite Hpos.
  destruct (Qle_bool (pow2 1024) (fl_abs (inject_Z z))) eqn:O.
  - exfalso. apply Qle_bool_iff in O. rewrite E in O.
    assert (B : inject_Z z < inject_Z (2 ^ 53))
      by (rewrite <- Zlt_Qlt; exact H53).
    assert (C : inject_Z (2 ^ 53) <= pow2 1024).
    { rewrite <- (pow2_Z 53) by lia. apply pow2_le. lia. }
    lra.
  - f_equal. rewrite (Qred_complete _ _ E).
    apply Qcanon.Qred_identity. simpl. apply Z.gcd_1_r.
Qed.

Lemma of_nat_exact (n : nat) :
  (Z.of_nat n < 2 ^ 53)%Z -> of_nat n = Fin (inject_Z (Z.of_nat n)).
Proof. intros H. apply fl_int_exact. lia. Qed.

Lemma fl_error_mid (q : Q) :
  1 # 1152921504606846976 <= q -> q <= 1152921504606846976 ->
  exists r : Q,
    fl q = Fin r /\
    q - q * (1 # 9007199254740992) <= r <= q + q * (1 # 9007199254740992).
Proof.
  intros L U.
  assert (L' : pow2 (-1022) <= q).
  { eapply Qle_trans; [| exact L].
    change (1 # 1152921504606846976) with (pow2 (-60)). apply pow2_le. lia. }
  assert (U' : q <= pow2 1023).
  { eapply Qle_trans; [exact U |].
    change (1152921504606846976 : Q) with (pow2 60). apply pow2_le. lia. }
  destruct (fl_error q L' U') as [r [E B]].
  exists r. split; [exact E |].
  change (pow2 (-53)) with (1 # 9007199254740992) in B.
  apply Qabs_Qle_condition in B. split; lra.
Qed.

Lemma percent2_error (c t : nat) :
  (1 <= c <= t)%nat -> (Z.of_nat t < 2 ^ 53)%Z ->
  exists p : Q,
    percent2 c t = Fin p /\
    Qabs (p - 100 * (inject_Z (Z.of_nat c) / inject_Z (Z.of_nat t)))
      <= tolerance.
Proof.
  intros [Hc Hct] Ht. unfold percent2, tolerance.
  rewrite !of_nat_exact by lia.
  set (C := inject_Z (Z.of_nat c)). set (T := inject_Z (Z.of_nat t)).
  assert (HC : 1 <= C).
  { unfold C. change 1 with (inject_Z 1). rewrite <- Zle_Qle. lia. }
  assert (HCT : C <= T) by (unfold C, T; rewrite <- Zle_Qle; lia).
  assert (HT : T <= 9007199254740992).
  { unfold T. change (9007199254740992 : Q) with (inject_Z (2 ^ 53)).
    rewrite <- Zle_Qle. lia. }
  assert (Q0 : 1 # 9007199254740992 <= C / T).
  { apply Qle_shift_div_l; lra. }
  assert (Q1 : C / T <= 1).
  { apply Qle_shift_div_r; lra. }
  unfold jsdiv at 2.
  assert (NZ : Qeq_bool T 0 = false).
  { apply not_true_is_false. intros E. apply Qeq_bool_iff in E. lra. }
  rewrite NZ. clear NZ.
  set (q0 := C / T) in *. clearbody q0. clear HC HCT HT.
  destruct (fl_error_mid q0) as [a [-> Ba]]; [lra | lra |].
  unfold jsmul at 2.
  destruct (fl_error_mid (a * 100)) as [b [-> Bb]]; [lra | lra |].
  unfold jsmul.
  destruct (fl_error_mid (b * 100)) as [v [-> Bv]]; [lra | lra |].
  unfold Math_round, jsdiv.
  change (Qeq_bool 100 0) with false. cbv iota.
  pose proof (Qfloor_le (v + (1 # 2))) as FL.
  pose proof (Qlt_floor (v + (1 # 2))) as FU.
  rewrite inject_Z_plus in FU. change (inject_Z 1) with 1 in FU.
  set (R := Qfloor (v + (1 # 2))) in *.
  destruct (Z.le_gt_cases R 0) as [R0 | R1].
  - assert (R = 0)%Z as ->.
    { assert (0 <= R)%Z; [| lia].
      change 0%Z with (Qfloor 0). apply Qfloor_resp_le. lra. }
    exists 0. split; [reflexivity |].
    change (inject_Z 0) with 0 in *.
    apply Qabs_Qle_condition. split; lra.
  - assert (HR : 1 <= inject_Z R).
    { change 1 with (inject_Z 1). rewrite <- Zle_Qle. lia. }
    set (r := inject_Z R) in *. clearbody r.
    destruct (fl_error_mid (r / 100)) as [p [-> Bp]].
    + apply Qle_shift_div_l; lra.
    + apply Qle_shift_div_r; lra.
    + exists p. split; [reflexivity |].
      assert (D : r / 100 == r * (1 # 100)) by (field).
      rewrite D in Bp.
      apply Qabs_Qle_condition. split; lra.
Qed.

Close Scope Q_scope.


(** ** The counts and percentages of [getCountyDistribution] *)

Lemma map_set_count_sum (m : list (string * nat)) (k : string) :
  list_sum (map snd (map_set String.eqb m k (get_or_0 m k + 1))) =
  list_sum (map snd m) + 1.
Proof.
  unfold get_or_0.
  induction m as [| [k0 v0] m IH]; simpl; [reflexivity |].
  destruct (String.eqb k0 k); simpl; [lia |].
  rewrite IH. lia.
Qed.

Lemma map_set_values {K V : Type} (keq : K -> K -> bool) (P : V -> Prop)
    (m : list (K * V)) (k : K) (v : V) :
  Forall (fun kv => P (snd kv)) m -> P v ->
  Forall (fun kv => P (snd kv)) (map_set keq m k v).
Proof.
  intros Hm Hv.
  induction Hm as [| [k' v'] m Hk' Hm IH]; simpl.
  - now repeat constructor.
  - destruct (keq k' k); constructor; assumption.
Qed.

Lemma county_map_snoc (data : list EVRecord) (v : EVRecord) :
  county_map (data ++ [v]) = county_step (county_map data) v.
Proof. unfold county_map. now rewrite fold_left_app. Qed.

Lemma county_map_sum (data : list EVRecord) :
  list_sum (map snd (county_map data)) = List.length (filter named data).
Proof.
  induction data as [| v data IH] using rev_ind; [reflexivity |].
  rewrite county_map_snoc, filter_app, length_app. unfold county_step. simpl.
  unfold named at 2.
  destruct (truthy_str (county v)); simpl.
  - rewrite map_set_count_sum. lia.
  - lia.
Qed.

Lemma county_map_positive (data : list EVRecord) :
  Forall (fun kv => 1 <= snd kv) (county_map data).
Proof.
  induction data as [| v data IH] using rev_ind; [constructor |].
  rewrite county_map_snoc. unfold county_step.
  destruct (truthy_str (county v)); [| exact IH].
  apply (map_set_values String.eqb (fun c => 1 <= c)); [exact IH | lia].
Qed.

Lemma In_le_list_sum (x : nat) (l : list nat) : In x l -> x <= list_sum l.
Proof.
  induction l as [| y l IH]; simpl; [contradiction |].
  intros [-> | H]; [lia |]. apply IH in H. lia.
Qed.

Lemma filter_length_le {A : Type} (f : A -> bool) (l : list A) :
  List.length (filter f l) <= List.length l.
Proof.
  induction l as [| a l IH]; simpl; [lia |].
  destruct (f a); simpl; lia.
Qed.

Lemma countyDistribution_count_sum (data : list EVRecord) :
  list_sum (map CountyData.count (countyDistribution data)) =
  List.length (filter named data).
Proof.
  unfold countyDistribution.
  rewrite (Permutation_list_sum
             (Permutation_map CountyData.count (sort_perm _ _))).
  rewrite map_map, <- county_map_sum. f_equal.
  apply map_ext. now intros [k c].
Qed.

Lemma countyDistribution_entries (data : list EVRecord) (e : CountyData.t) :
  In e (countyDistribution data) ->
  1 <= CountyData.count e <= List.length data /\
  CountyData.percentage e = percent2 (CountyData.count e) (List.length data).
Proof.
  intros He.
  assert (Hsum : CountyData.count e <= List.length (filter named data)).
  { rewrite <- countyDistribution_count_sum.
    apply In_le_list_sum. now apply in_map. }
  pose proof (filter_length_le named data) as Hle.
  unfold countyDistribution in He.
  apply sort_In, in_map_iff in He. destruct He as [[k c] [<- Hin]].
  pose proof (county_map_positive data) as Hpos.
  rewrite Forall_forall in Hpos. specialize (Hpos _ Hin).
  simpl in *. repeat split; lia.
Qed.

Lemma percent2_sum_error (t : nat) (cs : list nat) :
  Forall (fun c => 1 <= c <= t) cs -> (Z.of_nat t < 2 ^ 53)%Z ->
  exists ps : list Q,
    map (fun c => percent2 c t) cs = map Fin ps /\
    (Qabs (Qsum ps
           - 100 * (inject_Z (Z.of_nat (list_sum cs)) / inject_Z (Z.of_nat t)))
     <= inject_Z (Z.of_nat (List.length cs)) * tolerance)%Q.
Proof.
  intros Hcs Ht.
  induction Hcs as [| c cs Hc Hcs IH].
  - exists []. split; [reflexivity |]. simpl. apply Qle_bool_iff. reflexivity.
  - destruct IH as [ps [Eps Bps]].
    destruct (percent2_error c t Hc Ht) as [p [Ep Bp]].
    exists (p :: ps). split; [simpl; now rewrite Ep, Eps |].
    assert (Tpos : (0 < inject_Z (Z.of_nat t))%Q).
    { change 0%Q with (inject_Z 0). rewrite <- Zlt_Qlt. lia. }
    cbn [Qsum fold_right list_sum List.length].
    change (fold_right Qplus 0%Q ps) with (Qsum ps).
    change (fold_right Nat.add 0 cs) with (list_sum cs).
    rewrite Nat2Z.inj_add, Nat2Z.inj_succ, inject_Z_plus.
    unfold Z.succ. rewrite inject_Z_plus. change (inject_Z 1) with 1%Q.
    set (C := inject_Z (Z.of_nat c)) in *.
    set (S := inject_Z (Z.of_nat (list_sum cs))) in *.
    set (T := inject_Z (Z.of_nat t)) in *.
    set (n := inject_Z (Z.of_nat (List.length cs))) in *.
    assert (D : ((C + S) / T == C / T + S / T)%Q) by (field; lra).
    rewrite D.
    apply Qabs_Qle_condition in Bps. apply Qabs_Qle_condition in Bp.
    apply Qabs_Qle_condition. split; lra.
Qed.

(** C2, the claim as stated, fails on a record set with a record that has
    no county: the counts of the counties do not add up to the number of
    records. *)
Lemma county_counts_miss_unnamed_records :
  ~ (exists out : list CountyData.t,
        getCountyDistribution sample_engine = (Normal out, sample_engine) /\
        list_sum (map CountyData.count out)
        = List.length (rawData sample_engine)).
Proof.
  intros [out [E H]].
  assert (E' : Normal (countyDistribution sample_data) = Normal out)
    by exact (f_equal fst E).
  injection E' as <-. vm_compute in H. discriminate H.
Qed.

(** C2, amended. The counts returned by [getCountyDistribution] add up to
    the number of records that have a county.  On a record set of fewer
    than 2^53 records, every percentage is a finite number, and the
    percentages add up to 100 times the share of the records that have a
    county, within the rounding tolerance of one percentage for each
    county; so they add up to 100 within that tolerance when every record
    has a county. *)
Theorem getCountyDistribution_sums (this : EVDataProcessor) :
  let data := rawData this in
  let total := Z.of_nat (List.length data) in
  let counted := Z.of_nat (List.length (filter named data)) in
  exists out : list CountyData.t,
    getCountyDistribution this = (Normal out, this) /\
    list_sum (map CountyData.count out) = List.length (filter named data) /\
    ((total < 2 ^ 53)%Z ->
     exists ps : list Q,
       map CountyData.percentage out = map Fin ps /\
       (Qabs (Qsum ps - 100 * (inject_Z counted / inject_Z total))
        <= inject_Z (Z.of_nat (List.length out)) * tolerance)%Q /\
       ((0 < counted)%Z -> counted = total ->
        (Qabs (Qsum ps - 100)
         <= inject_Z (Z.of_nat (List.length out)) * tolerance)%Q)).
Proof.
  intros data total counted.
  exists (countyDistribution data).
  split; [reflexivity |].
  split; [apply countyDistribution_count_sum |].
  intros Ht.
  destruct (percent2_sum_error (List.length data)
              (map CountyData.count (countyDistribution data)))
    as [ps [Eps Bps]].
  - apply Forall_forall. intros c Hc.
    apply in_map_iff in Hc. destruct Hc as [e [<- He]].
    now apply countyDistribution_entries.
  - exact Ht.
  - rewrite countyDistribution_count_sum, length_map in Bps.
    exists ps. split; [| split].
    + rewrite <- Eps, map_map. apply map_ext_in. intros e He.
      now apply countyDistribution_entries.
    + exact Bps.
    + intros Hpos Hall. fold total counted in Bps.
      rewrite Hall in Bps.
      assert (Tpos : (0 < inject_Z total)%Q).
      { change 0%Q with (inject_Z 0). rewrite <- Zlt_Qlt. lia. }
      assert (D : (100 * (inject_Z total / inject_Z total) == 100)%Q)
        by (field; lra).
      now rewrite D in Bps.
Qed.

Lemma getCountyDistribution_sums_witness :
  exists out : list CountyData.t,
    getCountyDistribution sample_engine = (Normal out, sample_engine) /\
    list_sum (map CountyData.count out) = 3 /\
    exists ps : list Q,
      map CountyData.percentage out = map Fin ps /\
      (Qabs (Qsum ps - 100 * (inject_Z 3 / inject_Z 4))
       <= inject_Z (Z.of_nat (List.length out)) * tolerance)%Q.
Proof.
  destruct (getCountyDistribution_sums sample_engine) as [out [E [S P]]].
  exists out. split; [exact E |]. split; [exact S |].
  destruct P as [ps [Eps [B _]]]; [reflexivity |].
  exists ps. split; [exact Eps | exact B].
Defined.

(** * Further properties of the engine *)

(** ** Grouping with a [Map] *)

Section GroupFacts.
Context {K V R : Type} (keq : K -> K -> bool).
Context (guard : R -> bool) (key : R -> K) (upd : option V -> R -> V).
Hypothesis keq_reflexive : forall a, keq a a = true.
Hypothesis keq_symmetric : forall a b, keq a b = keq b a.
Hypothesis keq_transitive :
  forall a b c, keq a b = true -> keq b c = true -> keq a c = true.

Lemma keq_congr (a b c : K) : keq a b = true -> keq a c = keq b c.
Proof.
  intros E. destruct (keq b c) eqn:F.
  - eauto.
  - destruct (keq a c) eqn:G; [| reflexivity].
    rewrite <- F. symmetry. apply keq_transitive with a; [| exact G].
    now rewrite keq_symmetric.
Qed.

Lemma group_get_set (m : list (K * V)) (k k' : K) (v : V) :
  map_get keq (map_set keq m k v) k' =
  if keq k k' then Some v else map_get keq m k'.
Proof.
  induction m as [| [k0 v0] m IH]; simpl; [reflexivity |].
  destruct (keq k0 k) eqn:E0; simpl.
  - rewrite (keq_congr k0 k k' E0). now destruct (keq k k').
  - destruct (keq k0 k') eqn:E1; [| exact IH].
    destruct (keq k k') eqn:E2; [| reflexivity].
    rewrite (keq_symmetric k k') in E2.
    rewrite (keq_transitive _ _ _ E1 E2) in E0. discriminate.
Qed.

Lemma group_get_congr (m : list (K * V)) (k k' : K) :
  keq k k' = true -> map_get keq m k = map_get keq m k'.
Proof.
  intros E. induction m as [| [k0 v0] m IH]; simpl; [reflexivity |].
  rewrite (keq_symmetric k0 k), (keq_symmetric k0 k'), (keq_congr k k' k0 E).
  now rewrite IH.
Qed.

Lemma group_fold_snoc (l : list R) (r : R) :
  group_fold upd (l ++ [r]) = Some (upd (group_fold upd l) r).
Proof. unfold group_fold. now rewrite fold_left_app. Qed.

(** The value under a key is built by the updates of the records grouped
    under it, in their order; there is none when no record is. *)
Lemma group_get (data : list R) (k : K) :
  map_get keq (fold_left (group_step keq guard key upd) data []) k =
  group_fold upd (group_members keq guard key data k).
Proof.
  induction data as [| r data IH] using rev_ind; [reflexivity |].
  rewrite fold_left_app. simpl. unfold group_members in *.
  rewrite filter_app. simpl. unfold group_step at 1.
  destruct (guard r); simpl.
  - rewrite group_get_set.
    destruct (keq (key r) k) eqn:E.
    + rewrite group_fold_snoc, <- IH.
      now rewrite (group_get_congr _ _ _ E).
    + now rewrite app_nil_r.
  - now rewrite app_nil_r.
Qed.

Lemma map_set_distinct (m : list (K * V)) (k : K) (v : V) :
  distinct_keys keq m -> distinct_keys keq (map_set keq m k v).
Proof.
  induction m as [| [k0 v0] m IH]; simpl.
  - intros _. split; [constructor | exact I].
  - intros [F D]. destruct (keq k0 k) eqn:E; simpl.
    + split; assumption.
    + split; [| now apply IH].
      now apply (map_set_keys keq (fun k1 => keq k0 k1 = false)).
Qed.

Lemma group_distinct (data : list R) :
  distinct_keys keq (fold_left (group_step keq guard key upd) data []).
Proof.
  induction data as [| r data IH] using rev_ind; [exact I |].
  rewrite fold_left_app. simpl. unfold group_step at 1.
  destruct (guard r); [now apply map_set_distinct | exact IH].
Qed.

Lemma distinct_In_get (m : list (K * V)) (k : K) (v : V) :
  distinct_keys keq m -> In (k, v) m -> map_get keq m k = Some v.
Proof.
  induction m as [| [k0 v0] m IH]; simpl; [tauto |].
  intros [F D] [E | H].
  - injection E as -> ->. now rewrite keq_reflexive.
  - rewrite Forall_forall in F. pose proof (F _ H) as F0. simpl in F0.
    rewrite F0. now apply IH.
Qed.

Lemma group_fold_nonempty (l : list R) (v : V) :
  group_fold upd l = Some v -> l <> [].
Proof. intros H ->. discriminate H. Qed.

(** An entry of the map has the value of the records grouped under its
    key, and there is such a record. *)
Lemma group_In (data : list R) (k : K) (v : V) :
  In (k, v) (fold_left (group_step keq guard key upd) data []) ->
  group_fold upd (group_members keq guard key data k) = Some v /\
  exists r, In r data /\ guard r = true /\ keq (key r) k = true.
Proof.
  intros H.
  apply distinct_In_get in H; [| apply group_distinct].
  rewrite group_get in H. split; [exact H |].
  apply group_fold_nonempty in H.
  destruct (group_members keq guard key data k) as [| r l] eqn:E;
    [congruence |].
  assert (Hr : In r (group_members keq guard key data k))
    by (rewrite E; now left).
  apply filter_In in Hr. destruct Hr as [Hin Hr].
  apply andb_prop in Hr. exists r. tauto.
Qed.

(** A record that passes the guard has an entry. *)
Lemma group_member_In (data : list R) (r : R) :
  In r data -> guard r = true ->
  exists k v,
    keq k (key r) = true /\
    In (k, v) (fold_left (group_step keq guard key upd) data []).
Proof.
  intros Hin Hg.
  pose proof (group_get data (key r)) as G.
  destruct (group_fold upd (group_members keq guard key data (key r)))
    as [v |] eqn:E.
  - clear E. revert G.
    generalize (fold_left (group_step keq guard key upd) data []).
    intros m. induction m as [| [k0 v0] m IH]; simpl; [discriminate |].
    destruct (keq k0 (key r)) eqn:E0.
    + intros [= ->]. exists k0, v. split; [exact E0 | now left].
    + intros H. destruct (IH H) as [k [w [Hk Hw]]].
      exists k, w. split; [exact Hk | now right].
  - exfalso.
    assert (Hm : In r (group_members keq guard key data (key r))).
    { apply filter_In. split; [exact Hin |].
      now rewrite Hg, keq_reflexive. }
    destruct (group_members keq guard key data (key r)) as [| x l];
      [contradiction |].
    revert E. unfold group_fold. simpl.
    generalize (upd None x). clear. induction l as [| y l IH]; simpl.
    + discriminate.
    + intros v. apply IH.
Qed.
End GroupFacts.

(** ** The entries of [getCountyDistribution] and [getMakeDistribution] *)

Lemma fold_left_ext_eq {A B : Type} (f g : A -> B -> A) (l : list B) (a : A) :
  (forall x y, f x y = g x y) -> fold_left f l a = fold_left g l a.
Proof.
  intros E. revert a. induction l as [| b l IH]; intros a; simpl;
    [reflexivity |]. now rewrite E, IH.
Qed.

Lemma string_eqb_trans (a b c : string) :
  String.eqb a b = true -> String.eqb b c = true -> String.eqb a c = true.
Proof. rewrite !String.eqb_eq. congruence. Qed.

Lemma county_map_group (data : list EVRecord) :
  county_map data =
  fold_left (group_step String.eqb named county county_upd) data [].
Proof. apply fold_left_ext_eq. reflexivity. Qed.

Lemma make_map_group (data : list EVRecord) :
  make_map data =
  fold_left (group_step String.eqb (fun v => truthy_str (make v)) make
                        make_upd) data [].
Proof. apply fold_left_ext_eq. reflexivity. Qed.

Lemma county_fold (l : list EVRecord) :
  group_fold county_upd l =
  match l with [] => None | _ => Some (List.length l) end.
Proof.
  induction l as [| r l IH] using rev_ind; [reflexivity |].
  rewrite group_fold_snoc, IH, length_app. simpl.
  destruct l; simpl; unfold county_upd; f_equal; lia.
Qed.

Lemma range_sum_snoc (l : list EVRecord) (r : EVRecord) :
  range_sum (l ++ [r]) =
  if known_range r then jsadd (range_sum l) (electricRange r) else range_sum l.
Proof.
  unfold range_sum. rewrite filter_app. simpl.
  destruct (known_range r); [| now rewrite app_nil_r].
  now rewrite fold_left_app.
Qed.

Lemma make_fold (l : list EVRecord) :
  group_fold make_upd l =
  match l with [] => None | _ => Some (make_acc_of l) end.
Proof.
  induction l as [| r l IH] using rev_ind; [reflexivity |].
  rewrite group_fold_snoc, IH.
  assert (E : Some (make_upd match l with
                             | [] => None
                             | _ => Some (make_acc_of l)
                             end r) = Some (make_acc_of (l ++ [r]))).
  { f_equal. unfold make_acc_of.
    rewrite range_sum_snoc, filter_app, !length_app. simpl.
    unfold make_upd, known_range.
    destruct l as [| x l]; destruct (jsgt (electricRange r) (Fin 0));
      cbn [m_count m_totalRange m_rangeCount List.length app];
      f_equal; try lia; try reflexivity. }
  rewrite E. now destruct l.
Qed.

(** Grouping by a non-empty string. *)
Lemma members_of_string (guard_field : EVRecord -> string)
    (data : list EVRecord) (k : string) :
  k <> "" ->
  group_members String.eqb (fun v => truthy_str (guard_field v)) guard_field
                data k
  = filter (fun v => String.eqb (guard_field v) k) data.
Proof.
  intros Hk. unfold group_members. apply filter_ext. intros v.
  destruct (String.eqb_spec (guard_field v) k) as [-> | N].
  - unfold truthy_str. apply String.eqb_neq in Hk. now rewrite Hk.
  - apply andb_false_r.
Qed.

Lemma county_map_In (data : list EVRecord) (k : string) (c : nat) :
  In (k, c) (county_map data) ->
  k <> "" /\ c = List.length (filter (of_county k) data) /\ 0 < c.
Proof.
  rewrite county_map_group. intros H.
  apply (group_In String.eqb named county county_upd String.eqb_refl
           String.eqb_sym string_eqb_trans) in H.
  destruct H as [F [r [Hr [G E]]]].
  apply String.eqb_eq in E. subst k.
  assert (N : county r <> "").
  { unfold named, truthy_str in G. apply negb_true_iff in G.
    now apply String.eqb_neq. }
  split; [exact N |].
  unfold named in F. rewrite (members_of_string county) in F by exact N.
  rewrite county_fold in F. fold (of_county (county r)) in F.
  destruct (filter (of_county (county r)) data) as [| x l] eqn:D;
    [discriminate |].
  injection F as <-. simpl. split; [reflexivity | lia].
Qed.

Lemma county_map_NoDup (data : list EVRecord) :
  NoDup (map fst (county_map data)).
Proof.
  induction data as [| w data IH] using rev_ind; [constructor |].
  rewrite county_map_snoc. unfold county_step.
  destruct (truthy_str (county w)); [| exact IH].
  now apply (map_set_NoDup String.eqb String.eqb_eq).
Qed.

Lemma county_names (data : list EVRecord) :
  map CountyData.county
      (map (fun '(county, count) =>
              {| CountyData.county := county;
                 CountyData.count := count;
                 CountyData.percentage :=
                   percent2 count (List.length data) |})
           (county_map data))
  = map fst (county_map data).
Proof. rewrite map_map. apply map_ext. now intros [k c]. Qed.

(** [getCountyDistribution] lists every non-empty county of the record
    set exactly once, with the number of the records of that county, in
    descending order of these numbers. *)
Lemma countyDistribution_listing (data : list EVRecord) :
  descending CountyData.count (countyDistribution data) /\
  NoDup (map CountyData.county (countyDistribution data)) /\
  (forall k : string,
      In k (map CountyData.county (countyDistribution data)) <->
      k <> "" /\ exists v, In v data /\ county v = k) /\
  (forall e : CountyData.t,
      In e (countyDistribution data) ->
      CountyData.count e
      = List.length (filter (of_county (CountyData.county e)) data)).
Proof.
  split; [apply sort_descending |].
  assert (P : Permutation (map CountyData.county (countyDistribution data))
                          (map fst (county_map data))).
  { rewrite <- county_names. apply Permutation_map, sort_perm. }
  split; [| split].
  - apply (Permutation_NoDup (Permutation_sym P)), county_map_NoDup.
  - intros k. split.
    + intros H. apply (Permutation_in _ P) in H.
      apply in_map_iff in H. destruct H as [[k0 c] [<- H]]. simpl.
      pose proof (county_map_In data k0 c H) as [N [Hc Hpos]].
      split; [exact N |].
      rewrite Hc in Hpos. apply filter_nonempty_In in Hpos.
      destruct Hpos as [v [Hv E]]. apply String.eqb_eq in E. eauto.
    + intros [N [v [Hv E]]].
      apply (Permutation_in _ (Permutation_sym P)).
      rewrite county_map_group.
      destruct (group_member_In String.eqb named county county_upd
                  String.eqb_refl String.eqb_sym string_eqb_trans data v Hv)
        as [k0 [c [Hk Hin]]].
      * unfold named, truthy_str. apply negb_true_iff, String.eqb_neq.
        congruence.
      * apply String.eqb_eq in Hk. subst k0. rewrite <- E.
        change (county v) with (fst (county v, c)). now apply in_map.
  - intros e He. unfold countyDistribution in He.
    apply sort_In, in_map_iff in He. destruct He as [[k c] [<- H]]. simpl.
    now apply county_map_In in H.
Qed.

Lemma make_map_In (data : list EVRecord) (k : string) (d : MakeAcc) :
  In (k, d) (make_map data) ->
  k <> "" /\ d = make_acc_of (filter (of_make k) data) /\
  0 < List.length (filter (of_make k) data).
Proof.
  rewrite make_map_group. intros H.
  apply (group_In String.eqb _ make make_upd String.eqb_refl
           String.eqb_sym string_eqb_trans) in H.
  destruct H as [F [r [Hr [G E]]]].
  apply String.eqb_eq in E. subst k.
  assert (N : make r <> "").
  { unfold truthy_str in G. apply negb_true_iff in G.
    now apply String.eqb_neq. }
  split; [exact N |].
  rewrite (members_of_string make) in F by exact N.
  rewrite make_fold in F. fold (of_make (make r)) in F.
  destruct (filter (of_make (make r)) data) as [| x l] eqn:D;
    [discriminate |].
  injection F as <-. simpl. split; [reflexivity | lia].
Qed.

Lemma make_map_snoc (data : list EVRecord) (v : EVRecord) :
  make_map (data ++ [v]) = make_step (make_map data) v.
Proof. unfold make_map. now rewrite fold_left_app. Qed.

Lemma make_map_NoDup (data : list EVRecord) :
  NoDup (map fst (make_map data)).
Proof.
  induction data as [| w data IH] using rev_ind; [constructor |].
  rewrite make_map_snoc. unfold make_step.
  destruct (truthy_str (make w)); [| exact IH].
  now apply (map_set_NoDup String.eqb String.eqb_eq).
Qed.

Lemma make_names (data : list EVRecord) :
  map MakeData.make
      (map (fun '(make, d) =>
              {| MakeData.make := make;
                 MakeData.count := m_count d;
                 MakeData.percentage :=
                   percent2 (m_count d) (List.length data);
                 MakeData.avgRange :=
                   average (m_totalRange d) (m_rangeCount d) |})
           (make_map data))
  = map fst (make_map data).
Proof. rewrite map_map. apply map_ext. now intros [k c]. Qed.

(** [getMakeDistribution] lists every non-empty make of the record set
    exactly once, in descending order of the counts, with the number of the
    records of that make, its percentage of all the records, and the rounded
    average of the known ranges ([electricRange > 0]) of the records of that
    make, 0 when none of them has a known range. *)
Lemma makeDistribution_listing (data : list EVRecord) :
  descending MakeData.count (makeDistribution data) /\
  NoDup (map MakeData.make (makeDistribution data)) /\
  (forall k : string,
      In k (map MakeData.make (makeDistribution data)) <->
      k <> "" /\ exists v, In v data /\ make v = k) /\
  (forall e : MakeData.t,
      In e (makeDistribution data) ->
      let group := filter (of_make (MakeData.make e)) data in
      MakeData.count e = List.length group /\
      MakeData.percentage e = percent2 (List.length group) (List.length data) /\
      MakeData.avgRange e =
        match filter known_range group with
        | [] => Fin 0
        | known =>
            Math_round (jsdiv (range_sum group) (of_nat (List.length known)))
        end).
Proof.
  split; [apply sort_descending |].
  assert (P : Permutation (map MakeData.make (makeDistribution data))
                          (map fst (make_map data))).
  { rewrite <- make_names. apply Permutation_map, sort_perm. }
  split; [| split].
  - apply (Permutation_NoDup (Permutation_sym P)), make_map_NoDup.
  - intros k. split.
    + intros H. apply (Permutation_in _ P) in H.
      apply in_map_iff in H. destruct H as [[k0 c] [<- H]]. simpl.
      pose proof (make_map_In data k0 c H) as [N [Hc Hpos]].
      split; [exact N |].
      apply filter_nonempty_In in Hpos.
      destruct Hpos as [v [Hv E]]. apply String.eqb_eq in E. eauto.
    + intros [N [v [Hv E]]].
      apply (Permutation_in _ (Permutation_sym P)).
      rewrite make_map_group.
      destruct (group_member_In String.eqb (fun v => truthy_str (make v))
                  make make_upd
                  String.eqb_refl String.eqb_sym string_eqb_trans data v Hv)
        as [k0 [c [Hk Hin]]].
      * unfold truthy_str. apply negb_true_iff, String.eqb_neq.
        congruence.
      * apply String.eqb_eq in Hk. subst k0. rewrite <- E.
        change (make v) with (fst (make v, c)). now apply in_map.
  - intros e He. unfold makeDistribution in He.
    apply sort_In, in_map_iff in He. destruct He as [[k d] [<- H]].
    cbn [MakeData.make MakeData.count MakeData.percentage MakeData.avgRange].
    apply make_map_In in H. destruct H as [_ [-> _]].
    cbn [make_acc_of m_count m_totalRange m_rangeCount].
    repeat split.
    unfold average.
    now destruct (filter known_range (filter (of_make k) data)).
Qed.

(** ** The top county and the top make of [getDashboardStats] *)

Lemma descending_head {A : Type} (count : A -> nat) (a : A) (l : list A) :
  descending count (a :: l) -> forall b, In b (a :: l) -> count b <= count a.
Proof.
  intros D b [<- | H]; [lia |].
  inversion D as [| ? ? _ F]; subst.
  rewrite Forall_forall in F. now apply F.
Qed.

Lemma filter_none_length {A : Type} (f : A -> bool) (l : list A) :
  (forall x, In x l -> f x = false) -> List.length (filter f l) = 0.
Proof.
  induction l as [| a l IH]; simpl; [reflexivity |].
  intros H. rewrite (H a) by now left. apply IH. intros x Hx.
  apply H. now right.
Qed.

(** X1. [topCounty] of [getDashboardStats] is ["N/A"] when no record has a
    county; otherwise it is a non-empty county of a record, and no
    non-empty county has more records. *)
Theorem topCounty_most_frequent (data : list EVRecord) :
  let top := DashboardStats.topCounty (dashboardStats data) in
  ((forall v, In v data -> county v = "") -> top = "N/A") /\
  ((exists v, In v data /\ county v <> "") ->
   top <> "" /\ (exists v, In v data /\ county v = top) /\
   forall k : string,
     k <> "" ->
     List.length (filter (of_county k) data)
     <= List.length (filter (of_county top) data)).
Proof.
  pose proof (countyDistribution_listing data) as [D [_ [Names Counts]]].
  cbn [dashboardStats DashboardStats.topCounty]. split.
  - intros None.
    destruct (countyDistribution data) as [| e l] eqn:E; [reflexivity |].
    exfalso. destruct (proj1 (Names (CountyData.county e))) as [N [v [Hv Ev]]].
    + now left.
    + apply N. rewrite <- Ev. now apply None.
  - intros [v [Hv Nv]].
    destruct (countyDistribution data) as [| e l] eqn:E.
    + exfalso. apply (proj2 (Names (county v))). eauto.
    + cbn [hd_error option_map or_str].
      destruct (proj1 (Names (CountyData.county e))) as [N W]; [now left |].
      apply String.eqb_neq in N. rewrite N. apply String.eqb_neq in N.
      split; [exact N |]. split; [exact W |].
      intros k Hk.
      rewrite <- (Counts e) by now left.
      destruct (in_dec string_dec k (map CountyData.county (e :: l)))
        as [Hin | Hout].
      * apply in_map_iff in Hin. destruct Hin as [e' [<- He']].
        rewrite <- (Counts e') by exact He'.
        now apply (descending_head CountyData.count e l D).
      * rewrite filter_none_length; [lia |].
        intros x Hx. unfold of_county.
        destruct (String.eqb_spec (county x) k) as [Ek | ]; [| reflexivity].
        exfalso. apply Hout, Names. eauto.
Qed.

Lemma topCounty_most_frequent_witness :
  let top := DashboardStats.topCounty (dashboardStats sample_data) in
  top <> "" /\ (exists v, In v sample_data /\ county v = top) /\
  forall k : string,
    k <> "" ->
    List.length (filter (of_county k) sample_data)
    <= List.length (filter (of_county top) sample_data).
Proof.
  apply (proj2 (topCounty_most_frequent sample_data)).
  exists (nth 0 sample_data (parseRow [])). split; [now left | discriminate].
Defined.

(** X2. [topMake] of [getDashboardStats] is ["N/A"] when no record has a
    make; otherwise it is a non-empty make of a record, and no non-empty
    make has more records. *)
Theorem topMake_most_frequent (data : list EVRecord) :
  let top := DashboardStats.topMake (dashboardStats data) in
  ((forall v, In v data -> make v = "") -> top = "N/A") /\
  ((exists v, In v data /\ make v <> "") ->
   top <> "" /\ (exists v, In v data /\ make v = top) /\
   forall k : string,
     k <> "" ->
     List.length (filter (of_make k) data)
     <= List.length (filter (of_make top) data)).
Proof.
  pose proof (makeDistribution_listing data) as [D [_ [Names Counts]]].
  cbn [dashboardStats DashboardStats.topMake]. split.
  - intros None.
    destruct (makeDistribution data) as [| e l] eqn:E; [reflexivity |].
    exfalso. destruct (proj1 (Names (MakeData.make e))) as [N [v [Hv Ev]]].
    + now left.
    + apply N. rewrite <- Ev. now apply None.
  - intros [v [Hv Nv]].
    destruct (makeDistribution data) as [| e l] eqn:E.
    + exfalso. apply (proj2 (Names (make v))). eauto.
    + cbn [hd_error option_map or_str].
      destruct (proj1 (Names (MakeData.make e))) as [N W]; [now left |].
      apply String.eqb_neq in N. rewrite N. apply String.eqb_neq in N.
      split; [exact N |]. split; [exact W |].
      intros k Hk.
      rewrite <- (proj1 (Counts e (or_introl eq_refl))).
      destruct (in_dec string_dec k (map MakeData.make (e :: l)))
        as [Hin | Hout].
      * apply in_map_iff in Hin. destruct Hin as [e' [<- He']].
        rewrite <- (proj1 (Counts e' He')).
        now apply (descending_head MakeData.count e l D).
      * rewrite filter_none_length; [lia |].
        intros x Hx. unfold of_make.
        destruct (String.eqb_spec (make x) k) as [Ek | ]; [| reflexivity].
        exfalso. apply Hout, Names. eauto.
Qed.

Lemma topMake_most_frequent_witness :
  let top := DashboardStats.topMake (dashboardStats sample_data) in
  top <> "" /\ (exists v, In v sample_data /\ make v = top) /\
  forall k : string,
    k <> "" ->
    List.length (filter (of_make k) sample_data)
    <= List.length (filter (of_make top) sample_data).
Proof.
  apply (proj2 (topMake_most_frequent sample_data)).
  exists (nth 0 sample_data (parseRow [])). split; [now left | discriminate].
Defined.

(** ** The entries of [getYearlyTrends] *)

Lemma same_value_refl (a : number) : same_value a a = true.
Proof.
  destruct a as [| s | q]; simpl;
    [reflexivity | apply Bool.eqb_reflx | apply Qeq_bool_refl].
Qed.

Lemma same_value_sym (a b : number) : same_value a b = same_value b a.
Proof.
  destruct a as [| s | q], b as [| s' | q']; simpl; try reflexivity.
  - now destruct s, s'.
  - apply Qeq_bool_comm.
Qed.

Lemma same_value_trans (a b c : number) :
  same_value a b = true -> same_value b c = true -> same_value a c = true.
Proof.
  destruct a as [| s | q], b as [| s' | q'], c as [| s'' | q'']; simpl;
    try discriminate; try reflexivity.
  - destruct s, s', s''; simpl; congruence.
  - apply Qeq_bool_trans.
Qed.

Lemma jsgt_same_value (a b c : number) :
  same_value a b = true -> jsgt a c = jsgt b c.
Proof.
  destruct a as [| s | q], b as [| s' | q'], c as [| s'' | q'']; simpl;
    try discriminate; try reflexivity.
  - intros E. apply Bool.eqb_prop in E. now subst.
  - intros E. apply Bool.eqb_prop in E. now subst.
  - intros E. apply Qeq_bool_iff in E. f_equal.
    apply eq_true_iff_eq. rewrite !Qle_bool_iff. now rewrite E.
Qed.

Lemma year_map_group (data : list EVRecord) :
  year_map data =
  fold_left (group_step same_value positive_year modelYear year_upd) data [].
Proof. apply fold_left_ext_eq. reflexivity. Qed.

Lemma bev_not_phev (v : EVRecord) : is_bev v = true -> is_phev v = false.
Proof.
  unfold is_bev, is_phev, is_type.
  destruct (electricVehicleType v) as [t |]; [| discriminate].
  intros E. apply String.eqb_eq in E. now subst.
Qed.

Lemma year_fold (l : list EVRecord) :
  group_fold year_upd l =
  match l with [] => None | _ => Some (year_acc_of l) end.
Proof.
  induction l as [| r l IH] using rev_ind; [reflexivity |].
  rewrite group_fold_snoc, IH.
  assert (E : Some (year_upd match l with
                             | [] => None
                             | _ => Some (year_acc_of l)
                             end r) = Some (year_acc_of (l ++ [r]))).
  { f_equal. unfold year_acc_of.
    rewrite !filter_app, !length_app. simpl.
    unfold year_upd. fold (is_bev r) (is_phev r).
    pose proof (bev_not_phev r) as B.
    destruct l as [| x l]; destruct (is_bev r); destruct (is_phev r);
      try (specialize (B eq_refl); discriminate B);
      cbn [y_total y_bev y_phev List.length app];
      f_equal; try lia; try reflexivity. }
  rewrite E. now destruct l.
Qed.

Lemma members_of_year (data : list EVRecord) (k : number) :
  jsgt k (Fin 0) = true ->
  group_members same_value positive_year modelYear data k
  = filter (of_year k) data.
Proof.
  intros Hk. unfold group_members. apply filter_ext. intros v.
  unfold of_year, positive_year.
  destruct (same_value (modelYear v) k) eqn:E; [| apply andb_false_r].
  now rewrite (jsgt_same_value _ _ _ E), Hk.
Qed.

Lemma year_map_In (data : list EVRecord) (k : number) (d : YearAcc) :
  In (k, d) (year_map data) ->
  jsgt k (Fin 0) = true /\ d = year_acc_of (filter (of_year k) data) /\
  exists v, In v data /\ of_year k v = true.
Proof.
  rewrite year_map_group. intros H.
  apply (group_In same_value positive_year modelYear year_upd
           same_value_refl same_value_sym same_value_trans) in H.
  destruct H as [F [r [Hr [G E]]]].
  assert (P : jsgt k (Fin 0) = true).
  { rewrite <- (jsgt_same_value _ _ _ E). exact G. }
  split; [exact P |].
  rewrite members_of_year in F by exact P.
  rewrite year_fold in F.
  split; [| exists r; now split].
  destruct (filter (of_year k) data) as [| x l] eqn:D; [discriminate |].
  now injection F as <-.
Qed.

Lemma distinct_In_unique {K V : Type} (keq : K -> K -> bool)
    (m : list (K * V)) (k1 k2 : K) (v1 v2 : V) :
  (forall a b, keq a b = keq b a) ->
  distinct_keys keq m -> In (k1, v1) m -> In (k2, v2) m ->
  keq k1 k2 = true -> (k1, v1) = (k2, v2).
Proof.
  intros Sym. induction m as [| [k0 v0] m IH]; simpl; [tauto |].
  intros [F D] [E1 | H1] [E2 | H2] E.
  - congruence.
  - injection E1 as -> ->. rewrite Forall_forall in F.
    pose proof (F _ H2) as C. simpl in C. congruence.
  - injection E2 as -> ->. rewrite Forall_forall in F.
    pose proof (F _ H1) as C. simpl in C. rewrite Sym in C. congruence.
  - now apply IH.
Qed.

Lemma bev_phev_le (l : list EVRecord) :
  List.length (filter is_bev l) + List.length (filter is_phev l)
  <= List.length l.
Proof.
  induction l as [| v l IH]; simpl; [lia |].
  pose proof (bev_not_phev v) as B.
  destruct (is_bev v); [rewrite B by reflexivity |];
    destruct (is_phev v); simpl; lia.
Qed.

Lemma yearly_entry_of (data : list EVRecord) (y : YearlyData.t) :
  In y (yearlyTrends data) <->
  exists k d, In (k, d) (year_map data) /\
              y = {| YearlyData.year := k; YearlyData.count := y_total d;
                     YearlyData.bevCount := y_bev d;
                     YearlyData.phevCount := y_phev d |}.
Proof.
  unfold yearlyTrends. rewrite sort_In, in_map_iff. split.
  - intros [[k d] [<- H]]. eauto.
  - intros [k [d [H ->]]]. exists (k, d). now split.
Qed.

(** [getYearlyTrends] has one entry for each positive model year of the
    record set, with the number of the records of that year and the numbers
    of those that are BEV and PHEV. *)
Lemma yearlyTrends_listing (data : list EVRecord) :
  (forall y : YearlyData.t,
      In y (yearlyTrends data) ->
      let group := filter (of_year (YearlyData.year y)) data in
      jsgt (YearlyData.year y) (Fin 0) = true /\
      group <> [] /\
      YearlyData.count y = List.length group /\
      YearlyData.bevCount y = List.length (filter is_bev group) /\
      YearlyData.phevCount y = List.length (filter is_phev group) /\
      YearlyData.bevCount y + YearlyData.phevCount y <= YearlyData.count y) /\
  (forall v : EVRecord,
      In v data -> jsgt (modelYear v) (Fin 0) = true ->
      exists y, In y (yearlyTrends data) /\
                same_value (YearlyData.year y) (modelYear v) = true) /\
  (forall y1 y2 : YearlyData.t,
      In y1 (yearlyTrends data) -> In y2 (yearlyTrends data) ->
      same_value (YearlyData.year y1) (YearlyData.year y2) = true ->
      y1 = y2).
Proof.
  split; [| split].
  - intros y Hy. apply yearly_entry_of in Hy.
    destruct Hy as [k [d [H ->]]]. simpl.
    apply year_map_In in H. destruct H as [P [-> [v [Hv E]]]].
    split; [exact P |]. split.
    + intros C.
      assert (I : In v (filter (of_year k) data)) by (now apply filter_In).
      now rewrite C in I.
    + cbn [year_acc_of y_total y_bev y_phev].
      repeat split. apply bev_phev_le.
  - intros v Hv P.
    destruct (group_member_In same_value positive_year modelYear year_upd
                same_value_refl same_value_sym same_value_trans data v Hv P)
      as [k [d [Hk Hin]]].
    rewrite <- year_map_group in Hin.
    eexists. split; [apply yearly_entry_of; eauto |]. exact Hk.
  - intros y1 y2 H1 H2 E.
    apply yearly_entry_of in H1, H2.
    destruct H1 as [k1 [d1 [H1 ->]]]. destruct H2 as [k2 [d2 [H2 ->]]].
    simpl in E.
    pose proof (group_distinct same_value positive_year modelYear year_upd
                  data) as D.
    rewrite <- year_map_group in D.
    pose proof (distinct_In_unique same_value _ k1 k2 d1 d2 same_value_sym
                  D H1 H2 E) as U.
    now injection U as -> ->.
Qed.

(** ** The totals of the grouped counts *)

Section GroupTotals.
Context {K V R : Type} (keq : K -> K -> bool).
Context (guard : R -> bool) (key : R -> K) (upd : option V -> R -> V).
Variable size : V -> nat.
Hypothesis size_upd :
  forall o r,
    size (upd o r) = match o with Some v => size v | None => 0 end + 1.

Lemma map_set_size_sum (m : list (K * V)) (k : K) (v : V) :
  list_sum (map (fun kv => size (snd kv)) (map_set keq m k v))
  + match map_get keq m k with Some w => size w | None => 0 end
  = list_sum (map (fun kv => size (snd kv)) m) + size v.
Proof.
  induction m as [| [k0 v0] m IH]; simpl; [lia |].
  destruct (keq k0 k); simpl; lia.
Qed.

(** Each record that passes the guard adds one to the total. *)
Lemma group_size_sum (data : list R) :
  list_sum (map (fun kv => size (snd kv))
                (fold_left (group_step keq guard key upd) data []))
  = List.length (filter guard data).
Proof.
  induction data as [| r data IH] using rev_ind; [reflexivity |].
  rewrite fold_left_app, filter_app, length_app. simpl.
  unfold group_step at 1.
  destruct (guard r); simpl; [| lia].
  pose proof (map_set_size_sum
                (fold_left (group_step keq guard key upd) data [])
                (key r)
                (upd (map_get keq
                        (fold_left (group_step keq guard key upd) data [])
                        (key r)) r)) as S.
  rewrite size_upd in S. lia.
Qed.
End GroupTotals.

Lemma makeDistribution_count_sum (data : list EVRecord) :
  list_sum (map MakeData.count (makeDistribution data))
  = List.length (filter (fun v => truthy_str (make v)) data).
Proof.
  unfold makeDistribution.
  rewrite (Permutation_list_sum
             (Permutation_map MakeData.count (sort_perm _ _))).
  rewrite map_map, make_map_group.
  rewrite <- (group_size_sum String.eqb (fun v => truthy_str (make v)) make
                make_upd m_count).
  - f_equal. apply map_ext. now intros [k d].
  - intros o r. unfold make_upd.
    destruct o; destruct (jsgt (electricRange r) (Fin 0)); reflexivity.
Qed.

Lemma yearlyTrends_count_sum (data : list EVRecord) :
  list_sum (map YearlyData.count (yearlyTrends data))
  = List.length (filter positive_year data).
Proof.
  unfold yearlyTrends.
  rewrite (Permutation_list_sum
             (Permutation_map YearlyData.count (sort_perm _ _))).
  rewrite map_map, year_map_group.
  rewrite <- (group_size_sum same_value positive_year modelYear year_upd
                y_total).
  - f_equal. apply map_ext. now intros [k d].
  - intros o r. unfold year_upd.
    destruct o; destruct (is_type (electricVehicleType r) BEV);
      destruct (is_type (electricVehicleType r) PHEV); reflexivity.
Qed.

(** ** The order of [getYearlyTrends] *)

Open Scope Q_scope.

Lemma rne_nonneg (x : Q) : 0 <= x -> (0 <= rne x)%Z.
Proof.
  intros H. assert (F : (0 <= Qfloor x)%Z).
  { change 0%Z with (Qfloor 0). now apply Qfloor_resp_le. }
  unfold rne.
  destruct (Qcompare (x - inject_Z (Qfloor x)) (1 # 2));
    [destruct (Z.even (Qfloor x)) | |]; lia.
Qed.

Lemma fl_abs_nonneg (a : Q) : 0 <= a -> 0 <= fl_abs a.
Proof.
  intros H. unfold fl_abs.
  set (e := Z.max (ilog2 a - 52) (-1074)).
  pose proof (pow2_pos e) as Pe.
  apply Qmult_le_0_compat; [| lra].
  change 0 with (inject_Z 0). rewrite <- Zle_Qle.
  apply rne_nonneg. apply Qle_shift_div_l; lra.
Qed.

Lemma fl_gt0_pos (q : Q) : 1 <= q -> jsgt (fl q) (Fin 0) = true.
Proof.
  intros H.
  assert (L : pow2 (-1022) <= q).
  { apply Qle_trans with 1; [| exact H].
    change 1 with (pow2 0). apply pow2_le. lia. }
  pose proof (fl_abs_error q L) as B.
  change (pow2 (-53)) with (1 # 9007199254740992) in B.
  apply Qabs_Qle_condition in B.
  unfold fl. assert (P : 0 < q) by lra.
  apply Qgt_alt in P. rewrite P.
  destruct (Qle_bool (pow2 1024) (fl_abs q)); [reflexivity |].
  cbn [jsgt]. apply negb_true_iff, not_true_is_false. intros C.
  apply Qle_bool_iff in C. rewrite Qred_correct in C. lra.
Qed.

Lemma fl_gt0_nonpos (q : Q) : q <= 0 -> jsgt (fl q) (Fin 0) = false.
Proof.
  intros H. unfold fl.
  destruct (Qcompare q 0) eqn:C.
  - reflexivity.
  - destruct (Qle_bool (pow2 1024) (fl_abs (- q))); [reflexivity |].
    cbn [jsgt]. apply negb_false_iff, Qle_bool_iff.
    rewrite Qred_correct.
    assert (0 <= fl_abs (- q)) by (apply fl_abs_nonneg; lra). lra.
  - apply Qgt_alt in C. lra.
Qed.

(** On integers and infinities, the comparator [a - b] of [sort] is
    positive when [a > b]. *)
Lemma sub_positive (x y : number) :
  integral x -> integral y -> jsgt (jssub x y) (Fin 0) = jsgt x y.
Proof.
  destruct x as [| [|] | a], y as [| [|] | b]; cbn [integral jssub];
    try contradiction; try reflexivity.
  intros [za Ha] [zb Hb]. cbn [jsgt].
    destruct (Z.le_gt_cases za zb) as [L | G].
  - assert (E : a <= b) by (rewrite Ha, Hb, <- Zle_Qle; exact L).
    rewrite fl_gt0_nonpos by lra.
    symmetry. apply negb_false_iff, Qle_bool_iff. exact E.
  - assert (E : 1 <= a - b).
    { rewrite Ha, Hb. unfold Qminus.
      rewrite <- inject_Z_opp, <- inject_Z_plus.
      change 1 with (inject_Z 1). rewrite <- Zle_Qle. lia. }
    rewrite fl_gt0_pos by exact E.
    symmetry. apply negb_true_iff, not_true_is_false. intros C.
    apply Qle_bool_iff in C. lra.
Qed.

Close Scope Q_scope.

Lemma jsgt_false_trans (x y z : number) :
  x <> NaN -> y <> NaN -> z <> NaN ->
  jsgt x y = false -> jsgt y z = false -> jsgt x z = false.
Proof.
  destruct x as [| [|] | a], y as [| [|] | b], z as [| [|] | c]; simpl;
    try congruence; intros _ _ _.
  intros H1 H2. apply negb_false_iff, Qle_bool_iff in H1, H2.
  apply negb_false_iff, Qle_bool_iff. now apply Qle_trans with b.
Qed.

Lemma jsgt_asym (x y : number) : jsgt x y = true -> jsgt y x = false.
Proof.
  destruct x as [| [|] | a], y as [| [|] | b]; simpl; try congruence.
  intros H. apply negb_true_iff in H.
  apply negb_false_iff, Qle_bool_iff.
  destruct (Qlt_le_dec b a) as [L | G]; [now apply Qlt_le_weak |].
  apply Qle_bool_iff in G. congruence.
Qed.

Lemma jsgt_total (x y : number) :
  x <> NaN -> y <> NaN ->
  jsgt x y = false -> same_value x y = false -> jsgt y x = true.
Proof.
  destruct x as [| [|] | a], y as [| [|] | b]; simpl; try congruence;
    intros _ _.
  intros H N. apply negb_false_iff, Qle_bool_iff in H.
  apply negb_true_iff, not_true_is_false. intros C.
  apply Qle_bool_iff in C.
  assert (E : Qeq_bool a b = true)
    by (apply Qeq_bool_iff; now apply Qle_antisym).
  congruence.
Qed.

Lemma integral_not_NaN (x : number) : integral x -> x <> NaN.
Proof. destruct x; simpl; [contradiction | discriminate ..]. Qed.

(** Insertion into a list sorted for an order that the comparator decides
    on the elements at hand. *)
Section SortOrder.
Context {A : Type} (after : A -> A -> bool) (dom : A -> Prop).
Context (le : A -> A -> Prop).
Hypothesis after_false :
  forall x y, dom x -> dom y -> after x y = false -> le x y.
Hypothesis after_true :
  forall x y, dom x -> dom y -> after x y = true -> le y x.
Hypothesis le_trans :
  forall x y z, dom x -> dom y -> dom z -> le x y -> le y z -> le x z.

Lemma insert_sorted (x : A) (l : list A) :
  dom x -> Forall dom l -> StronglySorted le l ->
  StronglySorted le (insert after x l).
Proof.
  intros Dx Dl S. induction S as [| y l Sl IH Hy]; simpl.
  - repeat constructor.
  - inversion Dl as [| ? ? Dy Dl']; subst.
    destruct (after x y) eqn:E.
    + constructor; [now apply IH |].
      apply Forall_forall. intros z Hz.
      apply (Permutation_in _ (insert_perm _ x l)) in Hz.
      destruct Hz as [<- | Hz]; [now apply after_true |].
      rewrite Forall_forall in Hy. now apply Hy.
    + constructor; [now constructor |].
      constructor; [now apply after_false |].
      rewrite Forall_forall in *. intros z Hz.
      apply le_trans with y; auto.
Qed.

Lemma sort_sorted (l : list A) :
  Forall dom l -> StronglySorted le (sort after l).
Proof.
  induction 1 as [| x l Dx Dl IH]; simpl; [constructor |].
  apply insert_sorted; [exact Dx | | exact IH].
  apply Forall_forall. intros z Hz. apply sort_In in Hz.
  rewrite Forall_forall in Dl. now apply Dl.
Qed.
End SortOrder.

Lemma StronglySorted_strict {A : Type} (le lt : A -> A -> Prop) (l : list A) :
  NoDup l ->
  (forall a b, In a l -> In b l -> a <> b -> le a b -> lt a b) ->
  StronglySorted le l -> StronglySorted lt l.
Proof.
  intros N H S. induction S as [| a l S IH F]; [constructor |].
  inversion N as [| ? ? Na Nl]; subst.
  constructor.
  - apply IH; [exact Nl |]. intros x y Hx Hy. apply H; now right.
  - rewrite Forall_forall in *. intros b Hb.
    apply H; [now left | now right | | now apply F].
    intros ->. contradiction.
Qed.

Lemma modelYear_integral (row : list string) :
  integral (modelYear (parseRow row)).
Proof. apply parseInt_or_0_integral. Qed.

Lemma integral_same_value (x y : number) :
  same_value x y = true -> integral x -> integral y.
Proof.
  destruct x as [| s | a], y as [| s' | b]; simpl; try discriminate;
    try tauto.
  intros E [z Hz]. apply Qeq_bool_iff in E. exists z. now rewrite <- E.
Qed.

Lemma yearlyTrends_integral (rows : list (list string)) (y : YearlyData.t) :
  In y (yearlyTrends (map parseRow rows)) -> integral (YearlyData.year y).
Proof.
  intros Hy. apply yearly_entry_of in Hy. destruct Hy as [k [d [H ->]]].
  simpl. apply year_map_In in H. destruct H as [_ [_ [v [Hv E]]]].
  apply in_map_iff in Hv. destruct Hv as [row [<- _]].
  apply (integral_same_value _ _ E), modelYear_integral.
Qed.

Lemma yearlyTrends_NoDup (data : list EVRecord) : NoDup (yearlyTrends data).
Proof.
  unfold yearlyTrends.
  apply (Permutation_NoDup (Permutation_sym (sort_perm _ _))).
  pose proof (group_distinct same_value positive_year modelYear year_upd
                data) as D.
  rewrite <- year_map_group in D.
  induction (year_map data) as [| [k d] m IH]; simpl; [constructor |].
  destruct D as [F D]. constructor; [| now apply IH].
  intros H. apply in_map_iff in H. destruct H as [[k' d'] [E H]].
  injection E as -> _ _ _.
  rewrite Forall_forall in F. pose proof (F _ H) as C. simpl in C.
  rewrite same_value_refl in C. discriminate.
Qed.

(** On a loaded record set, the years of [getYearlyTrends] are strictly
    ascending. *)
Lemma yearlyTrends_ascending (rows : list (list string)) :
  StronglySorted
    (fun a b => jsgt (YearlyData.year b) (YearlyData.year a) = true)
    (yearlyTrends (map parseRow rows)).
Proof.
  set (data := map parseRow rows).
  apply (StronglySorted_strict
           (fun a b => jsgt (YearlyData.year a) (YearlyData.year b) = false)).
  - apply yearlyTrends_NoDup.
  - intros a b Ha Hb N L.
    pose proof (yearlyTrends_integral rows a Ha) as Ia.
    pose proof (yearlyTrends_integral rows b Hb) as Ib.
    apply jsgt_total; try (now apply integral_not_NaN); [exact L |].
    destruct (same_value (YearlyData.year a) (YearlyData.year b)) eqn:E;
      [| reflexivity].
    exfalso. apply N.
    now apply (proj2 (proj2 (yearlyTrends_listing data))).
  - unfold yearlyTrends.
    apply (sort_sorted _ (fun y => integral (YearlyData.year y))).
    + intros x y Dx Dy. now rewrite sub_positive.
    + intros x y Dx Dy. rewrite sub_positive by assumption.
      apply jsgt_asym.
    + intros x y z Dx Dy Dz.
      apply jsgt_false_trans; now apply integral_not_NaN.
    + apply Forall_forall. intros y Hy.
      apply (yearlyTrends_integral rows).
      unfold yearlyTrends. now apply sort_In.
Qed.

(** ** The latest and the earliest year of [getDashboardStats] *)

Lemma jsge_refl (x : number) : x <> NaN -> jsge x x = true.
Proof.
  destruct x as [| [|] | a]; simpl; try congruence; intros _.
  apply Qle_bool_iff, Qle_refl.
Qed.

Lemma jsge_trans (x y z : number) :
  jsge x y = true -> jsge y z = true -> jsge x z = true.
Proof.
  destruct x as [| [|] | a], y as [| [|] | b], z as [| [|] | c]; simpl;
    try congruence.
  intros H1 H2. apply Qle_bool_iff in H1, H2.
  apply Qle_bool_iff. now apply Qle_trans with b.
Qed.

Lemma jsge_total (x y : number) :
  x <> NaN -> y <> NaN -> jsge x y = false -> jsge y x = true.
Proof.
  destruct x as [| [|] | a], y as [| [|] | b]; simpl; try congruence;
    intros _ _ H.
  apply Qle_bool_iff.
  destruct (Qlt_le_dec a b) as [L | G]; [now apply Qlt_le_weak |].
  apply Qle_bool_iff in G. congruence.
Qed.

Lemma max2_spec (x y : number) :
  x <> NaN -> y <> NaN ->
  (max2 x y = x \/ max2 x y = y) /\
  jsge (max2 x y) x = true /\ jsge (max2 x y) y = true.
Proof.
  intros Hx Hy.
  assert (E : max2 x y = if jsge x y then x else y).
  { destruct x, y; try congruence; reflexivity. }
  rewrite E. destruct (jsge x y) eqn:G.
  - split; [now left |]. split; [now apply jsge_refl | exact G].
  - split; [now right |].
    split; [now apply jsge_total | now apply jsge_refl].
Qed.

Lemma min2_spec (x y : number) :
  x <> NaN -> y <> NaN ->
  (min2 x y = x \/ min2 x y = y) /\
  jsle (min2 x y) x = true /\ jsle (min2 x y) y = true.
Proof.
  intros Hx Hy. unfold jsle.
  assert (E : min2 x y = if jsge y x then x else y).
  { destruct x, y; try congruence; reflexivity. }
  rewrite E. destruct (jsge y x) eqn:G.
  - split; [now left |]. split; [now apply jsge_refl | exact G].
  - split; [now right |].
    split; [now apply jsge_total | now apply jsge_refl].
Qed.

Lemma fold_max2_spec (l : list number) (a : number) :
  a <> NaN -> Forall (fun y => y <> NaN) l ->
  let r := fold_left max2 l a in
  r <> NaN /\ (r = a \/ In r l) /\ jsge r a = true /\
  forall y, In y l -> jsge r y = true.
Proof.
  intros Ha Hl. revert a Ha.
  induction Hl as [| y l Hy Hl IH]; intros a Ha; simpl.
  - repeat split; [exact Ha | now left | now apply jsge_refl | tauto].
  - destruct (max2_spec a y Ha Hy) as [C [G1 G2]].
    assert (Hm : max2 a y <> NaN) by (destruct C as [-> | ->]; assumption).
    destruct (IH (max2 a y) Hm) as [N [I [G F]]].
    split; [exact N |]. split; [| split].
    + destruct I as [-> | I]; [| tauto].
      destruct C as [-> | ->]; tauto.
    + now apply jsge_trans with (max2 a y).
    + intros z [<- | Hz]; [| now apply F].
      now apply jsge_trans with (max2 a y).
Qed.

Lemma fold_min2_spec (l : list number) (a : number) :
  a <> NaN -> Forall (fun y => y <> NaN) l ->
  let r := fold_left min2 l a in
  r <> NaN /\ (r = a \/ In r l) /\ jsle r a = true /\
  forall y, In y l -> jsle r y = true.
Proof.
  intros Ha Hl. revert a Ha.
  induction Hl as [| y l Hy Hl IH]; intros a Ha; simpl.
  - repeat split; [exact Ha | now left | now apply jsge_refl | tauto].
  - destruct (min2_spec a y Ha Hy) as [C [G1 G2]].
    assert (Hm : min2 a y <> NaN) by (destruct C as [-> | ->]; assumption).
    destruct (IH (min2 a y) Hm) as [N [I [G F]]].
    split; [exact N |]. split; [| split].
    + destruct I as [-> | I]; [| tauto].
      destruct C as [-> | ->]; tauto.
    + unfold jsle in *. now apply jsge_trans with (min2 a y).
    + intros z [<- | Hz]; [| now apply F].
      unfold jsle in *. now apply jsge_trans with (min2 a y).
Qed.

(** [Math.max] and [Math.min] of a non-empty list without [NaN] are
    elements of the list and bound it. *)
Lemma Math_max_spec (l : list number) :
  l <> [] -> Forall (fun y => y <> NaN) l ->
  In (Math_max l) l /\ forall y, In y l -> jsge (Math_max l) y = true.
Proof.
  intros Hne Hl. destruct l as [| x l]; [congruence |].
  inversion Hl as [| ? ? Hx Hl']; subst.
  unfold Math_max. cbn [fold_left].
  assert (E : max2 (Inf true) x = x)
    by (destruct x as [| [|] |]; try congruence; reflexivity).
  rewrite E.
  destruct (fold_max2_spec l x Hx Hl') as [_ [I [G F]]].
  split; [destruct I as [I | I]; [left; now rewrite I | now right] |].
  intros y [<- | Hy]; auto.
Qed.

Lemma Math_min_spec (l : list number) :
  l <> [] -> Forall (fun y => y <> NaN) l ->
  In (Math_min l) l /\ forall y, In y l -> jsle (Math_min l) y = true.
Proof.
  intros Hne Hl. destruct l as [| x l]; [congruence |].
  inversion Hl as [| ? ? Hx Hl']; subst.
  unfold Math_min. cbn [fold_left].
  assert (E : min2 (Inf false) x = x)
    by (destruct x as [| [|] |]; try congruence; reflexivity).
  rewrite E.
  destruct (fold_min2_spec l x Hx Hl') as [_ [I [G F]]].
  split; [destruct I as [I | I]; [left; now rewrite I | now right] |].
  intros y [<- | Hy]; auto.
Qed.

Lemma positive_truthy (x : number) : jsgt x (Fin 0) = true -> truthy x = true.
Proof.
  destruct x as [| [|] | a]; simpl; try congruence.
  intros H. apply negb_true_iff in H. apply negb_true_iff.
  apply not_true_is_false. intros E. apply Qeq_bool_iff in E.
  assert (C : Qle_bool a 0 = true)
    by (apply Qle_bool_iff; rewrite E; apply Qle_refl).
  congruence.
Qed.

(** X3. When some record has a positive model year, [latestYear] and
    [earliestYear] of [getDashboardStats] are positive model years of
    records, and every positive model year of a record is between them. *)
Theorem latest_earliest_year (data : list EVRecord) :
  (exists v, In v data /\ positive_year v = true) ->
  let latest := DashboardStats.latestYear (dashboardStats data) in
  let earliest := DashboardStats.earliestYear (dashboardStats data) in
  (exists v, In v data /\ positive_year v = true /\ modelYear v = latest) /\
  (exists v, In v data /\ positive_year v = true /\ modelYear v = earliest) /\
  forall v, In v data -> positive_year v = true ->
            jsge latest (modelYear v) = true /\
            jsle earliest (modelYear v) = true.
Proof.
  intros [v0 [Hv0 P0]].
  cbn [dashboardStats DashboardStats.latestYear DashboardStats.earliestYear].
  set (years := filter (fun y => jsgt y (Fin 0)) (map modelYear data)).
  assert (Hin : forall y, In y years <->
                  exists v, In v data /\ positive_year v = true /\
                            modelYear v = y).
  { intros y. unfold years. rewrite filter_In, in_map_iff. split.
    - intros [[v [<- Hv]] P]. eauto.
    - intros [v [Hv [P <-]]]. split; [eauto | exact P]. }
  assert (Hne : years <> []).
  { intros E. assert (I : In (modelYear v0) years) by (apply Hin; eauto).
    now rewrite E in I. }
  assert (Hnan : Forall (fun y => y <> NaN) years).
  { apply Forall_forall. intros y Hy. apply filter_In in Hy.
    destruct Hy as [_ P]. intros ->. discriminate P. }
  destruct (Math_max_spec years Hne Hnan) as [Imax Bmax].
  destruct (Math_min_spec years Hne Hnan) as [Imin Bmin].
  assert (Tmax : truthy (Math_max years) = true).
  { apply positive_truthy. apply filter_In in Imax. tauto. }
  assert (Tmin : truthy (Math_min years) = true).
  { apply positive_truthy. apply filter_In in Imin. tauto. }
  unfold or_num. rewrite Tmax, Tmin.
  split; [now apply Hin |]. split; [now apply Hin |].
  intros v Hv P. split; [apply Bmax | apply Bmin]; apply Hin; eauto.
Qed.

Lemma latest_earliest_year_witness :
  let latest := DashboardStats.latestYear (dashboardStats sample_data) in
  let earliest := DashboardStats.earliestYear (dashboardStats sample_data) in
  (exists v, In v sample_data /\ positive_year v = true /\
             modelYear v = latest) /\
  (exists v, In v sample_data /\ positive_year v = true /\
             modelYear v = earliest) /\
  forall v, In v sample_data -> positive_year v = true ->
            jsge latest (modelYear v) = true /\
            jsle earliest (modelYear v) = true.
Proof.
  apply (latest_earliest_year sample_data).
  exists (nth 0 sample_data (parseRow [])). split; [now left | reflexivity].
Defined.

(** ** The percentages of [getDashboardStats] and [getRangeDistribution] *)

Open Scope Q_scope.

Lemma fl_zero (q : Q) : q == 0 -> fl q = Fin 0.
Proof. intros E. unfold fl. apply Qeq_alt in E. now rewrite E. Qed.

(** [Math.round((count / total) * 100)] is an integer between 0 and 100,
    within a half of the exact percentage. *)
Lemma percent0_range (c t : nat) :
  (c <= t)%nat -> (1 <= t)%nat -> (Z.of_nat t < 2 ^ 53)%Z ->
  exists R : Z,
    percent0 c t = Fin (inject_Z R) /\ (0 <= R <= 100)%Z /\
    Qabs (inject_Z R - 100 * (inject_Z (Z.of_nat c) / inject_Z (Z.of_nat t)))
      <= tolerance0.
Proof.
  intros Hct Ht1 Ht. unfold percent0, tolerance0.
  rewrite !of_nat_exact by lia.
  set (C := inject_Z (Z.of_nat c)). set (T := inject_Z (Z.of_nat t)).
  assert (HT1 : 1 <= T).
  { unfold T. change 1 with (inject_Z 1). rewrite <- Zle_Qle. lia. }
  assert (HT : T <= 9007199254740992).
  { unfold T. change (9007199254740992 : Q) with (inject_Z (2 ^ 53)).
    rewrite <- Zle_Qle. lia. }
  assert (NZ : Qeq_bool T 0 = false).
  { apply not_true_is_false. intros E. apply Qeq_bool_iff in E. lra. }
  unfold jsdiv. rewrite NZ. clear NZ.
  destruct (Nat.eq_dec c 0) as [-> | Hc].
  - exists 0%Z. split; [| split; [lia |]].
    + rewrite fl_zero by (unfold C; simpl; field; lra). reflexivity.
    + unfold C. change (inject_Z (Z.of_nat 0)) with 0.
      change (inject_Z 0) with 0.
      assert (E : 0 - 100 * (0 / T) == 0) by (field; lra).
      rewrite E. apply Qabs_Qle_condition. split; lra.
  - assert (HC : 1 <= C).
    { unfold C. change 1 with (inject_Z 1). rewrite <- Zle_Qle. lia. }
    assert (HCT : C <= T) by (unfold C, T; rewrite <- Zle_Qle; lia).
    assert (Q0 : 1 # 9007199254740992 <= C / T).
    { apply Qle_shift_div_l; lra. }
    assert (Q1 : C / T <= 1).
    { apply Qle_shift_div_r; lra. }
    set (q0 := C / T) in *. clearbody q0. clear HC HCT HT HT1.
    destruct (fl_error_mid q0) as [a [-> Ba]]; [lra | lra |].
    unfold jsmul.
    destruct (fl_error_mid (a * 100)) as [v [-> Bv]]; [lra | lra |].
    unfold Math_round.
    pose proof (Qfloor_le (v + (1 # 2))) as FL.
    pose proof (Qlt_floor (v + (1 # 2))) as FU.
    rewrite inject_Z_plus in FU. change (inject_Z 1) with 1 in FU.
    set (R := Qfloor (v + (1 # 2))) in *.
    exists R. split; [reflexivity |]. split.
    + split.
      * change 0%Z with (Qfloor 0). apply Qfloor_resp_le. lra.
      * assert (L : (R < 101)%Z); [| lia].
        rewrite Zlt_Qlt. change (inject_Z 101) with 101. lra.
    + apply Qabs_Qle_condition. split; lra.
Qed.

Close Scope Q_scope.

(** X4. On a non-empty record set of fewer than 2^53 records,
    [bevPercentage] and [phevPercentage] of [getDashboardStats] are integers
    between 0 and 100, each within a half (and a rounding error) of the
    exact percentage of the BEV, of the PHEV records. *)
Theorem bev_phev_percentages (data : list EVRecord) :
  data <> [] -> (Z.of_nat (List.length data) < 2 ^ 53)%Z ->
  let total := inject_Z (Z.of_nat (List.length data)) in
  let bev := inject_Z (Z.of_nat (List.length (filter is_bev data))) in
  let phev := inject_Z (Z.of_nat (List.length (filter is_phev data))) in
  exists B P : Z,
    DashboardStats.bevPercentage (dashboardStats data) = Fin (inject_Z B) /\
    DashboardStats.phevPercentage (dashboardStats data) = Fin (inject_Z P) /\
    (0 <= B <= 100)%Z /\ (0 <= P <= 100)%Z /\
    (Qabs (inject_Z B - 100 * (bev / total)) <= tolerance0)%Q /\
    (Qabs (inject_Z P - 100 * (phev / total)) <= tolerance0)%Q.
Proof.
  intros Hne Ht.
  assert (H1 : 1 <= List.length data)
    by (destruct data; simpl; [congruence | lia]).
  destruct (percent0_range (List.length (filter is_bev data))
              (List.length data) (filter_length_le _ _) H1 Ht)
    as [B [EB [RB AB]]].
  destruct (percent0_range (List.length (filter is_phev data))
              (List.length data) (filter_length_le _ _) H1 Ht)
    as [P [EP [RP AP]]].
  exists B, P. repeat split; try assumption; lia.
Qed.

Lemma bev_phev_percentages_witness :
  let total := inject_Z (Z.of_nat (List.length sample_data)) in
  let bev := inject_Z (Z.of_nat (List.length (filter is_bev sample_data))) in
  let phev := inject_Z (Z.of_nat (List.length (filter is_phev sample_data))) in
  exists B P : Z,
    DashboardStats.bevPercentage (dashboardStats sample_data)
      = Fin (inject_Z B) /\
    DashboardStats.phevPercentage (dashboardStats sample_data)
      = Fin (inject_Z P) /\
    (0 <= B <= 100)%Z /\ (0 <= P <= 100)%Z /\
    (Qabs (inject_Z B - 100 * (bev / total)) <= tolerance0)%Q /\
    (Qabs (inject_Z P - 100 * (phev / total)) <= tolerance0)%Q.
Proof.
  apply (bev_phev_percentages sample_data); [discriminate | reflexivity].
Defined.

Lemma bucket_count_le (known : list EVRecord) (range : Bucket) :
  bucket_count known range <= List.length known.
Proof. apply filter_length_le. Qed.

(** X5. On a loaded record set with fewer than 2^53 records of known
    range, [getRangeDistribution] is empty exactly when no record has a
    known range; otherwise its percentages are finite and add up to 100,
    within the rounding tolerance of one percentage for each bucket. *)
Theorem getRangeDistribution_percentages (rows : list (list string)) :
  let data := map parseRow rows in
  let known := filter known_range data in
  (Z.of_nat (List.length known) < 2 ^ 53)%Z ->
  (rangeDistribution data = [] <-> known = []) /\
  exists ps : list Q,
    map RangeDistribution.percentage (rangeDistribution data) = map Fin ps /\
    (known <> [] ->
     (Qabs (Qsum ps - 100)
      <= inject_Z (Z.of_nat (List.length (rangeDistribution data)))
         * tolerance)%Q).
Proof.
  intros data known Ht.
  assert (Sum : list_sum (map RangeDistribution.count (rangeDistribution data))
                = List.length known).
  { unfold rangeDistribution.
    rewrite (list_sum_drop_zero RangeDistribution.count), map_map.
    apply bucket_counts_total.
    apply Forall_forall. intros v Hv.
    apply filter_In in Hv. destruct Hv as [Hv Hk]. split; [| exact Hk].
    apply in_map_iff in Hv. destruct Hv as [row [<- _]].
    apply electricRange_integral. }
  assert (Ent : forall r, In r (rangeDistribution data) ->
                  1 <= RangeDistribution.count r <= List.length known /\
                  RangeDistribution.percentage r
                  = percent2 (RangeDistribution.count r) (List.length known)).
  { intros r Hr. rewrite rangeDistribution_entries in Hr.
    apply in_map_iff in Hr. destruct Hr as [b [<- Hb]].
    apply filter_In in Hb. destruct Hb as [_ Hb]. apply Nat.ltb_lt in Hb.
    cbn [bucket_entry RangeDistribution.count RangeDistribution.percentage].
    pose proof (bucket_count_le (filter known_range data) b).
    unfold known. repeat split; lia. }
  split.
  - split.
    + intros E. rewrite E in Sum. simpl in Sum.
      now apply length_zero_iff_nil.
    + intros E.
      destruct (rangeDistribution data) as [| r l] eqn:D; [reflexivity |].
      destruct (Ent r (or_introl eq_refl)) as [[L U] _].
      rewrite E in U. simpl in U. lia.
  - destruct (percent2_sum_error (List.length known)
                (map RangeDistribution.count (rangeDistribution data)))
      as [ps [Eps Bps]].
    + apply Forall_forall. intros c Hc.
      apply in_map_iff in Hc. destruct Hc as [r [<- Hr]].
      now apply Ent.
    + exact Ht.
    + rewrite Sum, length_map in Bps.
      exists ps. split.
      * rewrite <- Eps, map_map. apply map_ext_in. intros r Hr.
        now apply Ent.
      * intros Hne.
        assert (Tpos : (0 < inject_Z (Z.of_nat (List.length known)))%Q).
        { change 0%Q with (inject_Z 0). rewrite <- Zlt_Qlt.
          destruct known; simpl; [congruence | lia]. }
        assert (D : (100 * (inject_Z (Z.of_nat (List.length known))
                            / inject_Z (Z.of_nat (List.length known)))
                     == 100)%Q) by (field; lra).
        now rewrite D in Bps.
Qed.

Lemma getRangeDistribution_percentages_witness :
  let data := map parseRow (tl sample_rows) in
  let known := filter known_range data in
  (rangeDistribution data = [] <-> known = []) /\
  exists ps : list Q,
    map RangeDistribution.percentage (rangeDistribution data) = map Fin ps /\
    (known <> [] ->
     (Qabs (Qsum ps - 100)
      <= inject_Z (Z.of_nat (List.length (rangeDistribution data)))
         * tolerance)%Q).
Proof.
  apply (getRangeDistribution_percentages (tl sample_rows)). reflexivity.
Defined.

(** ** The limit of [getTopModels] *)

Lemma slice0_nonneg {A : Type} (l : list A) (q : Q) :
  (0 <= q)%Q ->
  slice0 l (Fin q) = firstn (Z.to_nat (Qfloor q)) l.
Proof.
  intros Hq. unfold slice0.
  assert (Hnum : (0 <= Qnum q)%Z) by (unfold Qle in Hq; simpl in Hq; lia).
  assert (Hk : Z.quot (Qnum q) (Z.pos (Qden q)) = Qfloor q).
  { destruct q as [a b]. simpl in *. apply Z.quot_div_nonneg; lia. }
  rewrite Hk.
  assert (H0 : (0 <= Qfloor q)%Z).
  { change 0%Z with (Qfloor 0). now apply Qfloor_resp_le. }
  destruct (Z.ltb_spec (Qfloor q) 0) as [L | _]; [lia |].
  destruct (Z.le_gt_cases (Qfloor q) (Z.of_nat (List.length l))) as [L | G].
  - now rewrite Z.min_l.
  - rewrite Z.min_r, Nat2Z.id by lia.
    rewrite !firstn_all2; [reflexivity | lia | lia].
Qed.

(** Slicing a slice: the first [m] of the first [n] are the first [m],
    for [0 <= m <= n]. *)
Lemma slice0_slice0 {A : Type} (l : list A) (m n : number) :
  jsge m (Fin 0) = true -> jsge n m = true ->
  slice0 (slice0 l n) m = slice0 l m.
Proof.
  destruct m as [| [|] | p]; simpl; try discriminate.
  - destruct n as [| [|] | q]; simpl; try discriminate.
    intros _ _. now rewrite !slice0_all.
  - intros Hp. apply Qle_bool_iff in Hp.
    destruct n as [| [|] | q]; simpl; try discriminate.
    + intros _. now rewrite slice0_all.
    + intros Hq. apply Qle_bool_iff in Hq.
      rewrite !slice0_nonneg by (try assumption; now apply Qle_trans with p).
      rewrite firstn_firstn. f_equal.
      pose proof (Qfloor_resp_le _ _ Hq).
      assert (0 <= Qfloor p)%Z
        by (change 0%Z with (Qfloor 0); now apply Qfloor_resp_le).
      lia.
Qed.

(** X6. The first [m] models of [getTopModels(n)] are [getTopModels(m)],
    for [0 <= m <= n]: a caller that slices a ranking gets the ranking
    with the smaller limit. *)
Theorem getTopModels_prefix (this : EVDataProcessor) (m n : number) :
  jsge m (Fin 0) = true -> jsge n m = true ->
  exists top : list ModelData.t,
    getTopModels (Some n) this = (Normal top, this) /\
    getTopModels (Some m) this = (Normal (slice0 top m), this).
Proof.
  intros Hm Hn. exists (topModels (rawData this) n).
  split; [reflexivity |].
  unfold getTopModels, bind, read_rawData, ret, topModels.
  now rewrite slice0_slice0.
Qed.

Lemma getTopModels_prefix_witness :
  exists top : list ModelData.t,
    getTopModels (Some (Fin 15)) sample_engine = (Normal top, sample_engine) /\
    getTopModels (Some (Fin 10)) sample_engine
    = (Normal (slice0 top (Fin 10)), sample_engine).
Proof.
  apply (getTopModels_prefix sample_engine (Fin 10) (Fin 15)); reflexivity.
Defined.

(** X7. With a negative integer limit [-k], [getTopModels] returns the
    whole ranking without its last [k] entries; with the limit [NaN] or
    [-Infinity] it returns nothing; with no limit it returns what it
    returns with the limit 10; and a limit that is not below the number of
    ranked models returns them all. *)
Theorem getTopModels_limits (this : EVDataProcessor) :
  let ranked := rankedModels (rawData this) in
  (forall k : nat,
      0 < k ->
      getTopModels (Some (Fin (inject_Z (- Z.of_nat k)))) this
      = (Normal (firstn (List.length ranked - k) ranked), this)) /\
  getTopModels (Some NaN) this = (Normal [], this) /\
  getTopModels (Some (Inf true)) this = (Normal [], this) /\
  getTopModels None this = getTopModels (Some (Fin 10)) this /\
  (forall n : nat,
      List.length ranked <= n ->
      getTopModels (Some (Fin (inject_Z (Z.of_nat n)))) this
      = (Normal ranked, this)).
Proof.
  intros ranked. repeat split.
  - intros k Hk.
    unfold getTopModels, bind, read_rawData, ret, topModels, slice0.
    fold ranked. cbn [Qnum Qden inject_Z].
    rewrite Z.quot_1_r.
    destruct (Z.ltb_spec (- Z.of_nat k) 0) as [_ | G]; [| lia].
    do 3 f_equal. lia.
  - intros n Hn.
    unfold getTopModels, bind, read_rawData, ret, topModels.
    fold ranked. rewrite slice0_nonneg.
    + rewrite Qfloor_Z, Nat2Z.id. now rewrite firstn_all2.
    + change 0%Q with (inject_Z 0). rewrite <- Zle_Qle. lia.
Qed.

Lemma getTopModels_limits_witness :
  getTopModels (Some (Fin (inject_Z (- Z.of_nat 1)))) sample_engine
  = (Normal (firstn (List.length (rankedModels sample_data) - 1)
                    (rankedModels sample_data)), sample_engine).
Proof.
  apply (proj1 (getTopModels_limits sample_engine) 1). lia.
Defined.

(** ** The averages of [getTopModels] *)

Lemma model_map_group (data : list EVRecord) :
  model_map data =
  fold_left (group_step String.eqb has_model model_key model_upd) data [].
Proof. apply fold_left_ext_eq. reflexivity. Qed.

Lemma year_sum_snoc (l : list EVRecord) (r : EVRecord) :
  year_sum (l ++ [r]) =
  if positive_year r then jsadd (year_sum l) (modelYear r) else year_sum l.
Proof.
  unfold year_sum. rewrite filter_app. simpl.
  destruct (positive_year r); [| now rewrite app_nil_r].
  now rewrite fold_left_app.
Qed.

Lemma model_fold (l : list EVRecord) :
  group_fold model_upd l =
  match l with [] => None | _ => Some (model_acc_of l) end.
Proof.
  induction l as [| r l IH] using rev_ind; [reflexivity |].
  rewrite group_fold_snoc, IH.
  assert (E : Some (model_upd match l with
                              | [] => None
                              | _ => Some (model_acc_of l)
                              end r) = Some (model_acc_of (l ++ [r]))).
  { f_equal. unfold model_acc_of.
    rewrite range_sum_snoc, year_sum_snoc, !filter_app, !length_app. simpl.
    unfold model_upd, known_range, positive_year.
    destruct l as [| x l]; destruct (jsgt (electricRange r) (Fin 0));
      destruct (jsgt (modelYear r) (Fin 0));
      cbn [a_count a_totalRange a_rangeCount a_totalYear a_yearCount
           List.length app];
      f_equal; try lia; try reflexivity. }
  rewrite E. now destruct l.
Qed.

Lemma model_map_entry (data : list EVRecord) (k : string) (d : ModelAcc) :
  In (k, d) (model_map data) ->
  exists v, In v data /\ has_model v = true /\ model_key v = k /\
            d = model_acc_of (filter (same_key v) data).
Proof.
  rewrite model_map_group. intros H.
  apply (group_In String.eqb has_model model_key model_upd String.eqb_refl
           String.eqb_sym string_eqb_trans) in H.
  destruct H as [F [r [Hr [G E]]]].
  apply String.eqb_eq in E. subst k.
  exists r. repeat split; try assumption.
  change (group_members String.eqb has_model model_key data (model_key r))
    with (filter (same_key r) data) in F.
  rewrite model_fold in F.
  destruct (filter (same_key r) data); [discriminate | congruence].
Qed.

Lemma firstn_incl {A : Type} (n : nat) (l : list A) (x : A) :
  In x (firstn n l) -> In x l.
Proof.
  intros H. rewrite <- (firstn_skipn n l). apply in_or_app. now left.
Qed.

(** X8. Every entry of [getTopModels] is the entry of a record with a make
    and a model, for the group of the records under the same key
    [make + "|" + model], which are the records with the same make and the
    same model when no make has a ["|"]: its count is the size of the group,
    its average range is the rounded mean of the known ranges of the group
    and its average year the rounded mean of the positive model years of
    the group, each 0 when there is none. *)
Theorem getTopModels_averages (this : EVDataProcessor) (limit : option number)
    (e : ModelData.t) :
  (exists top, getTopModels limit this = (Normal top, this) /\ In e top) ->
  exists v : EVRecord,
    In v (rawData this) /\ make v <> "" /\ model v <> "" /\
    let group := filter (same_key v) (rawData this) in
    (Forall (fun w => no_bar (make w) = true) (rawData this) ->
     group = filter (same_pair v) (rawData this)) /\
    ModelData.count e = List.length group /\
    ModelData.avgRange e =
      match filter known_range group with
      | [] => Fin 0
      | known =>
          Math_round (jsdiv (range_sum group) (of_nat (List.length known)))
      end /\
    ModelData.avgYear e =
      match filter positive_year group with
      | [] => Fin 0
      | dated =>
          Math_round (jsdiv (year_sum group) (of_nat (List.length dated)))
      end.
Proof.
  intros [top [E He]].
  unfold getTopModels, bind, read_rawData, ret in E.
  injection E as <-.
  unfold topModels, slice0 in He. apply firstn_incl in He.
  unfold rankedModels in He. apply sort_In, in_map_iff in He.
  destruct He as [[k d] [<- H]].
  apply model_map_entry in H. destruct H as [v [Hv [G [<- ->]]]].
  exists v. split; [exact Hv |].
  unfold has_model, truthy_str in G. apply andb_prop in G.
  destruct G as [G1 G2]. apply negb_true_iff, String.eqb_neq in G1, G2.
  split; [exact G1 |]. split; [exact G2 |].
  cbv zeta. split.
  { intros B. rewrite Forall_forall in B. apply filter_ext_in.
    intros w Hw. apply same_key_same_pair; auto. }
  cbn [model_entry ModelData.count ModelData.avgRange ModelData.avgYear
       model_acc_of a_count a_totalRange a_rangeCount a_totalYear a_yearCount].
  unfold average. repeat split.
  - now destruct (filter known_range (filter (same_key v) (rawData this))).
  - now destruct (filter positive_year (filter (same_key v) (rawData this))).
Qed.

Lemma getTopModels_averages_witness :
  exists v : EVRecord,
    In v (rawData sample_engine) /\ make v <> "" /\ model v <> "" /\
    let group := filter (same_key v) (rawData sample_engine) in
    (Forall (fun w => no_bar (make w) = true) (rawData sample_engine) ->
     group = filter (same_pair v) (rawData sample_engine)) /\
    2 = List.length group /\
    Fin 75 =
      match filter known_range group with
      | [] => Fin 0
      | known =>
          Math_round (jsdiv (range_sum group) (of_nat (List.length known)))
      end /\
    Fin 2022 =
      match filter positive_year group with
      | [] => Fin 0
      | dated =>
          Math_round (jsdiv (year_sum group) (of_nat (List.length dated)))
      end.
Proof.
  apply (getTopModels_averages sample_engine (Some (Fin 1))
           {| ModelData.make := Some "NISSAN"; ModelData.model := Some "LEAF";
              ModelData.count := 2; ModelData.avgRange := Fin 75;
              ModelData.avgYear := Fin 2022 |}).
  eexists. split; [reflexivity |]. vm_compute. now left.
Defined.

(** ** The average range of [getDashboardStats] *)

Open Scope Q_scope.

Lemma ilog2_unique (q : Q) (e : Z) :
  0 < q -> pow2 e <= q -> q < pow2 (e + 1) -> ilog2 q = e.
Proof.
  intros Hq L U. destruct (ilog2_spec q Hq) as [L' U'].
  assert (e < ilog2 q + 1)%Z by (apply pow2_lt_inv; lra).
  assert (ilog2 q < e + 1)%Z by (apply pow2_lt_inv; lra).
  lia.
Qed.

Lemma fl_abs_proper (q q' : Q) :
  0 < q -> q == q' -> fl_abs q == fl_abs q'.
Proof.
  intros Hq E. unfold fl_abs.
  assert (I : ilog2 q' = ilog2 q).
  { destruct (ilog2_spec q Hq) as [L U].
    apply ilog2_unique; rewrite <- E; assumption. }
  rewrite I.
  set (e := Z.max (ilog2 q - 52) (-1074)).
  assert (D : q / pow2 e == q' / pow2 e) by now rewrite E.
  now rewrite (rne_proper _ _ D).
Qed.

(** The rounding depends on the value of a rational, not on the fraction
    that represents it. *)
Lemma fl_proper (q q' : Q) : q == q' -> fl q = fl q'.
Proof.
  intros E. unfold fl. rewrite <- E.
  destruct (Qcompare q 0) eqn:C; [reflexivity | |].
  - apply Qlt_alt in C.
    assert (P : fl_abs (- q) == fl_abs (- q'))
      by (apply fl_abs_proper; [lra | now rewrite E]).
    assert (B : Qle_bool (pow2 1024) (fl_abs (- q))
                = Qle_bool (pow2 1024) (fl_abs (- q'))).
    { apply eq_true_iff_eq. rewrite !Qle_bool_iff. now rewrite P. }
    rewrite <- B. destruct (Qle_bool (pow2 1024) (fl_abs (- q)));
      [reflexivity |].
    f_equal. apply Qred_complete. now rewrite P.
  - apply Qgt_alt in C.
    assert (P : fl_abs q == fl_abs q') by (apply fl_abs_proper; assumption).
    assert (B : Qle_bool (pow2 1024) (fl_abs q)
                = Qle_bool (pow2 1024) (fl_abs q')).
    { apply eq_true_iff_eq. rewrite !Qle_bool_iff. now rewrite P. }
    rewrite <- B. destruct (Qle_bool (pow2 1024) (fl_abs q));
      [reflexivity |].
    f_equal. now apply Qred_complete.
Qed.

(** Integers add up exactly as long as the sums stay below 2^53. *)
Lemma jsadd_int_exact (a b : Z) :
  (0 <= a)%Z -> (0 <= b)%Z -> (a + b < 2 ^ 53)%Z ->
  jsadd (Fin (inject_Z a)) (Fin (inject_Z b)) = Fin (inject_Z (a + b)).
Proof.
  intros Ha Hb H. unfold jsadd.
  rewrite (fl_proper _ (inject_Z (a + b))) by (now rewrite inject_Z_plus).
  apply fl_int_exact. lia.
Qed.

Lemma Zsum_nonneg (zs : list Z) :
  Forall (fun z => 0 <= z)%Z zs -> (0 <= Zsum zs)%Z.
Proof.
  induction 1 as [| z zs Hz Hzs IH]; [reflexivity |].
  change (Zsum (z :: zs)) with (z + Zsum zs)%Z. lia.
Qed.

Lemma fold_jsadd_exact (zs : list Z) (s : Z) :
  Forall (fun z => 0 <= z)%Z zs -> (0 <= s)%Z -> (s + Zsum zs < 2 ^ 53)%Z ->
  fold_left jsadd (map (fun z => Fin (inject_Z z)) zs) (Fin (inject_Z s))
  = Fin (inject_Z (s + Zsum zs)).
Proof.
  intros Hzs. revert s.
  induction Hzs as [| z zs Hz Hzs IH]; intros s Hs H.
  - simpl. now rewrite Z.add_0_r.
  - pose proof (Zsum_nonneg zs Hzs) as P.
    change (Zsum (z :: zs)) with (z + Zsum zs)%Z in *.
    cbn [map fold_left].
    rewrite jsadd_int_exact by lia.
    rewrite IH by lia. do 2 f_equal. lia.
Qed.

Lemma fold_left_map_arg {A B C : Type} (f : A -> C -> A) (g : B -> C)
    (l : list B) (a : A) :
  fold_left (fun s v => f s (g v)) l a = fold_left f (map g l) a.
Proof. revert a. induction l as [| b l IH]; intros a; simpl; auto. Qed.

Lemma Zsum_ge_length (zs : list Z) :
  Forall (fun z => 1 <= z)%Z zs -> (Z.of_nat (List.length zs) <= Zsum zs)%Z.
Proof.
  induction 1 as [| z zs Hz Hzs IH]; [simpl; lia |].
  change (Zsum (z :: zs)) with (z + Zsum zs)%Z.
  cbn [List.length]. lia.
Qed.

Close Scope Q_scope.

(** X9. When the known ranges of the record set are integers with a sum
    below 2^53, [avgElectricRange] of [getDashboardStats] is an integer
    within a half (and one rounding error) of their mean. *)
Theorem avgElectricRange_mean (data : list EVRecord) (zs : list Z) :
  map electricRange (filter known_range data)
  = map (fun z => Fin (inject_Z z)) zs ->
  zs <> [] -> (Zsum zs < 2 ^ 53)%Z ->
  let mean := (inject_Z (Zsum zs) / inject_Z (Z.of_nat (List.length zs)))%Q in
  exists R : Z,
    DashboardStats.avgElectricRange (dashboardStats data) = Fin (inject_Z R) /\
    (Qabs (inject_Z R - mean)
     <= (1 # 2) + mean * (1 # 9007199254740992))%Q.
Proof.
  intros Hmap Hne Hsum mean.
  assert (Hlen : List.length (filter known_range data) = List.length zs).
  { rewrite <- (length_map electricRange), Hmap. apply length_map. }
  assert (Hpos : Forall (fun z => 1 <= z)%Z zs).
  { apply Forall_forall. intros z Hz.
    apply (in_map (fun z => Fin (inject_Z z))) in Hz. rewrite <- Hmap in Hz.
    apply in_map_iff in Hz. destruct Hz as [v [Ev Hv]].
    apply filter_In in Hv. destruct Hv as [_ Hk].
    unfold known_range in Hk. rewrite Ev in Hk. simpl in Hk.
    apply negb_true_iff in Hk.
    destruct (Z.le_gt_cases z 0) as [L | G]; [| lia].
    exfalso. assert (C : Qle_bool (inject_Z z) 0 = true).
    { apply Qle_bool_iff. change 0%Q with (inject_Z 0).
      now rewrite <- Zle_Qle. }
    congruence. }
  pose proof (Zsum_ge_length zs Hpos) as Hge.
  assert (Hn : 1 <= List.length zs) by (destruct zs; simpl; [congruence | lia]).
  cbn [dashboardStats DashboardStats.avgElectricRange].
  rewrite Hlen.
  destruct (Nat.ltb_spec 0 (List.length zs)) as [_ | C]; [| lia].
  rewrite (fold_left_map_arg jsadd electricRange), Hmap.
  change (Fin 0) with (Fin (inject_Z 0)).
  rewrite (fold_jsadd_exact zs 0);
    [| eapply Forall_impl; [| exact Hpos]; simpl; intros; lia | lia | lia].
  rewrite Z.add_0_l, of_nat_exact by lia.
  set (S := inject_Z (Zsum zs)) in *.
  set (N := inject_Z (Z.of_nat (List.length zs))) in *.
  assert (HN : (1 <= N)%Q).
  { unfold N. change 1%Q with (inject_Z 1). rewrite <- Zle_Qle. lia. }
  assert (HNS : (N <= S)%Q) by (unfold N, S; now rewrite <- Zle_Qle).
  assert (HS : (S <= 9007199254740992)%Q).
  { unfold S. change (9007199254740992 : Q) with (inject_Z (2 ^ 53)).
    rewrite <- Zle_Qle. lia. }
  assert (M1 : (1 <= S / N)%Q) by (apply Qle_shift_div_l; lra).
  assert (M2 : (S / N <= 9007199254740992)%Q)
    by (apply Qle_shift_div_r; nra).
  unfold jsdiv.
  assert (NZ : Qeq_bool N 0 = false).
  { apply not_true_is_false. intros E. apply Qeq_bool_iff in E. lra. }
  rewrite NZ. fold mean in M1, M2 |- *. clearbody mean.
  destruct (fl_error_mid mean) as [a [-> Ba]]; [lra | lra |].
  unfold Math_round.
  pose proof (Qfloor_le (a + (1 # 2))) as FL.
  pose proof (Qlt_floor (a + (1 # 2))) as FU.
  rewrite inject_Z_plus in FU. change (inject_Z 1) with 1%Q in FU.
  exists (Qfloor (a + (1 # 2))). split; [reflexivity |].
  apply Qabs_Qle_condition. split; lra.
Qed.

Lemma avgElectricRange_mean_witness :
  let mean := (inject_Z (Zsum [200; 75]%Z)
               / inject_Z (Z.of_nat (List.length [200; 75]%Z)))%Q in
  exists R : Z,
    DashboardStats.avgElectricRange (dashboardStats sample_data)
    = Fin (inject_Z R) /\
    (Qabs (inject_Z R - mean)
     <= (1 # 2) + mean * (1 # 9007199254740992))%Q.
Proof.
  apply (avgElectricRange_mean sample_data [200; 75]%Z);
    [reflexivity | discriminate | reflexivity].
Defined.

(** ** The entries of [getUtilityDistribution] *)

Lemma utility_map_names_from (data : list EVRecord) (m : list (string * nat)) :
  fold_left utility_step data m =
  fold_left (group_step String.eqb truthy_str (fun u => u) utility_upd)
            (utility_names data) m.
Proof.
  revert m. induction data as [| v data IH]; intros m; [reflexivity |].
  simpl. rewrite fold_left_app, IH. f_equal.
  unfold utility_step.
  destruct (truthy_str (electricUtility v)); [| reflexivity].
  apply fold_left_ext_eq. reflexivity.
Qed.

Lemma utility_map_names (data : list EVRecord) :
  utility_map data =
  fold_left (group_step String.eqb truthy_str (fun u => u) utility_upd)
            (utility_names data) [].
Proof. apply utility_map_names_from. Qed.

Lemma utility_fold (l : list string) :
  group_fold utility_upd l =
  match l with [] => None | _ => Some (List.length l) end.
Proof.
  induction l as [| r l IH] using rev_ind; [reflexivity |].
  rewrite group_fold_snoc, IH, length_app. simpl.
  destruct l; simpl; unfold utility_upd; f_equal; lia.
Qed.

Lemma utility_map_In (data : list EVRecord) (u : string) (c : nat) :
  In (u, c) (utility_map data) ->
  u <> "" /\ c = occurrences (utility_names data) u /\ 1 <= c.
Proof.
  rewrite utility_map_names. intros H.
  apply (group_In String.eqb truthy_str (fun u => u) utility_upd
           String.eqb_refl String.eqb_sym string_eqb_trans) in H.
  destruct H as [F [r [Hr [G E]]]].
  apply String.eqb_eq in E. subst r.
  assert (N : u <> "").
  { unfold truthy_str in G. apply negb_true_iff in G.
    now apply String.eqb_neq. }
  split; [exact N |].
  assert (M : group_members String.eqb truthy_str (fun u => u)
                (utility_names data) u
              = filter (fun n => String.eqb n u) (utility_names data)).
  { apply filter_ext. intros n.
    destruct (String.eqb_spec n u) as [-> | D]; [| apply andb_false_r].
    now rewrite G. }
  rewrite M, utility_fold in F. unfold occurrences.
  destruct (filter (fun n => String.eqb n u) (utility_names data));
    [discriminate |].
  injection F as <-. simpl. split; [reflexivity | lia].
Qed.

Lemma utility_map_has (data : list EVRecord) (u : string) :
  u <> "" -> 0 < occurrences (utility_names data) u ->
  exists c, In (u, c) (utility_map data).
Proof.
  intros N H. apply filter_nonempty_In in H. destruct H as [n [Hn E]].
  apply String.eqb_eq in E. subst n.
  destruct (group_member_In String.eqb truthy_str (fun u => u) utility_upd
              String.eqb_refl String.eqb_sym string_eqb_trans
              (utility_names data) u Hn) as [k [c [Hk Hin]]].
  - unfold truthy_str. now apply negb_true_iff, String.eqb_neq.
  - apply String.eqb_eq in Hk. subst k. exists c.
    now rewrite utility_map_names.
Qed.

Lemma utility_map_NoDup (data : list EVRecord) :
  NoDup (map fst (utility_map data)).
Proof.
  rewrite utility_map_names.
  induction (utility_names data) as [| n l IH] using rev_ind; [constructor |].
  rewrite fold_left_app. simpl. unfold group_step at 1.
  destruct (truthy_str n); [| exact IH].
  now apply (map_set_NoDup String.eqb String.eqb_eq).
Qed.

Lemma descending_app {A : Type} (count : A -> nat) (l1 l2 : list A) :
  descending count (l1 ++ l2) ->
  forall a b, In a l1 -> In b l2 -> count b <= count a.
Proof.
  unfold descending. induction l1 as [| x l1 IH]; simpl; [tauto |].
  intros S a b [<- | Ha] Hb.
  - inversion S as [| ? ? _ F]; subst. rewrite Forall_forall in F.
    apply F, in_or_app. now right.
  - inversion S; subst. now apply IH.
Qed.

Lemma NoDup_firstn {A : Type} (n : nat) (l : list A) :
  NoDup l -> NoDup (firstn n l).
Proof.
  intros H. rewrite <- (firstn_skipn n l) in H.
  now apply NoDup_app_remove_r in H.
Qed.

(** X10. [getUtilityDistribution] returns at most ten entries, in
    descending order of their counts and with distinct non-empty names;
    the count of an entry is the number of times that its name occurs among
    the trimmed pieces of the utility fields; and a name that occurs is
    left out only when ten entries are returned, none with a smaller
    count. *)
Theorem getUtilityDistribution_top (this : EVDataProcessor) :
  let names := utility_names (rawData this) in
  exists out : list UtilityData.t,
    getUtilityDistribution this = (Normal out, this) /\
    List.length out <= 10 /\
    descending UtilityData.count out /\
    NoDup (map UtilityData.utility out) /\
    (forall e, In e out ->
               UtilityData.utility e <> "" /\
               UtilityData.count e
               = occurrences names (UtilityData.utility e) /\
               1 <= UtilityData.count e) /\
    (forall u, u <> "" -> 0 < occurrences names u ->
               ~ In u (map UtilityData.utility out) ->
               List.length out = 10 /\
               forall e, In e out ->
                         occurrences names u <= UtilityData.count e).
Proof.
  intros names.
  set (data := rawData this).
  set (mk := fun '(utility, count) =>
               {| UtilityData.utility := utility;
                  UtilityData.count := count;
                  UtilityData.percentage :=
                    percent2 count (List.length data) |}).
  set (full := sort (count_after UtilityData.count)
                    (map mk (utility_map data))).
  assert (Eout : utilityDistribution data = firstn 10 full).
  { unfold utilityDistribution. fold mk. fold full.
    rewrite slice0_nonneg by (apply Qle_bool_iff; reflexivity).
    reflexivity. }
  assert (Dfull : descending UtilityData.count full)
    by apply sort_descending.
  assert (Ifull : forall e, In e full <->
                    exists u c, In (u, c) (utility_map data) /\ e = mk (u, c)).
  { intros e. unfold full. rewrite sort_In, in_map_iff. split.
    - intros [[u c] [<- H]]. eauto.
    - intros [u [c [H ->]]]. exists (u, c). now split. }
  assert (Nfull : NoDup (map UtilityData.utility full)).
  { apply (Permutation_NoDup
             (l := map UtilityData.utility (map mk (utility_map data)))).
    - apply Permutation_map. symmetry. apply sort_perm.
    - rewrite map_map.
      rewrite (map_ext _ fst) by (now intros [u c]).
      apply utility_map_NoDup. }
  exists (utilityDistribution data). rewrite Eout.
  split; [unfold getUtilityDistribution, bind, read_rawData, ret;
          fold data; now rewrite Eout |].
  split; [apply firstn_le_length |].
  split; [now apply firstn_descending |].
  split; [rewrite <- firstn_map; now apply NoDup_firstn |].
  split.
  - intros e He. apply firstn_incl, Ifull in He.
    destruct He as [u [c [H ->]]]. simpl.
    now apply utility_map_In in H.
  - intros u Nu Hocc Hout.
    destruct (utility_map_has data u Nu Hocc) as [c Hc].
    assert (Hin : In (mk (u, c)) full) by (apply Ifull; eauto).
    rewrite <- (firstn_skipn 10 full) in Hin, Dfull.
    apply in_app_or in Hin. destruct Hin as [Hin | Hin].
    + exfalso. apply Hout.
      change u with (UtilityData.utility (mk (u, c))). now apply in_map.
    + split.
      * rewrite length_firstn. apply Nat.min_l.
        destruct (Nat.le_gt_cases 10 (List.length full)) as [L | G];
          [exact L |].
        rewrite skipn_all2 in Hin by lia. contradiction.
      * intros e He.
        pose proof (descending_app _ _ _ Dfull e (mk (u, c)) He Hin) as B.
        simpl in B. apply utility_map_In in Hc.
        destruct Hc as [_ [Ec _]]. unfold names. fold data.
        now rewrite <- Ec.
Qed.

Lemma getUtilityDistribution_top_witness :
  let this :=
    {| rawData :=
         [parseRow ["VIN"; "King"; "Seattle"; "WA"; "98101"; "2021"; "TESLA";
                    "MODEL 3"; BEV; "Clean"; "200"; "0"; "43"; "1001";
                    "POINT (1 2)"; "A|B|C|D|E|F|G|H|I|J|K"; "53033"]] |} in
  exists out : list UtilityData.t,
    getUtilityDistribution this = (Normal out, this) /\
    List.length out = 10 /\
    forall e, In e out ->
              occurrences (utility_names (rawData this)) "K"
              <= UtilityData.count e.
Proof.
  intros this.
  destruct (getUtilityDistribution_top this) as [out [E [_ [_ [_ [_ Out]]]]]].
  exists out. split; [exact E |].
  apply Out.
  - discriminate.
  - vm_compute. constructor.
  - intros I. pose proof (f_equal fst E) as F. vm_compute in F.
    injection F as F. subst out. vm_compute in I.
    repeat (destruct I as [I | I]; [discriminate I |]). exact I.
Defined.

(** ** Trimmed names *)

Lemma string_rev_rev (s a b : string) :
  string_rev (string_rev s a) b = string_rev a (s ++ b)%string.
Proof.
  revert a b. induction s as [| c s IH]; intros a b; simpl; [reflexivity |].
  now rewrite IH.
Qed.

Lemma string_app_nil (s : string) : (s ++ "")%string = s.
Proof. induction s as [| c s IH]; simpl; [reflexivity | now rewrite IH]. Qed.

Lemma string_app_assoc (a b c : string) :
  ((a ++ b) ++ c)%string = (a ++ (b ++ c))%string.
Proof. induction a as [| x a IH]; simpl; [reflexivity | now rewrite IH]. Qed.

Lemma string_length_app (a b : string) :
  String.length (a ++ b)%string = String.length a + String.length b.
Proof. induction a as [| x a IH]; simpl; [reflexivity | now rewrite IH]. Qed.

Lemma string_rev_involutive (s : string) :
  string_rev (string_rev s "") "" = s.
Proof. rewrite string_rev_rev. simpl. apply string_app_nil. Qed.

Lemma string_rev_acc (s a : string) :
  string_rev s a = (string_rev s "" ++ a)%string.
Proof.
  revert a. induction s as [| c s IH]; intros a; simpl; [reflexivity |].
  rewrite (IH (String c a)), (IH (String c "")).
  now rewrite string_app_assoc.
Qed.

Section SkipFacts.
Variable p1 : ascii -> bool.
Variable p2 : ascii -> ascii -> bool.
Variable p3 : ascii -> ascii -> ascii -> bool.

(** [skip] leaves the string as it is, or goes on after a character. *)
Lemma skip_step (s : string) :
  skip p1 p2 p3 s = s \/
  exists p s' : string,
    s = (p ++ s')%string /\ 0 < String.length p /\
    forall t : string,
      skip p1 p2 p3 ((p ++ s') ++ t)%string = skip p1 p2 p3 (s' ++ t)%string.
Proof.
  destruct s as [| a s1]; [now left |].
  destruct (p1 a) eqn:E1.
  { right. exists (String a ""), s1. split; [reflexivity |].
    split; [simpl; lia |]. intros t. cbn [append skip]. now rewrite E1. }
  destruct s1 as [| b s2]; [left; cbn [skip]; now rewrite E1 |].
  destruct (p2 a b) eqn:E2.
  { right. exists (String a (String b "")), s2. split; [reflexivity |].
    split; [simpl; lia |]. intros t. cbn [append skip]. now rewrite E1, E2. }
  destruct s2 as [| c s3]; [left; cbn [skip]; now rewrite E1, E2 |].
  destruct (p3 a b c) eqn:E3.
  { right. exists (String a (String b (String c ""))), s3.
    split; [reflexivity |]. split; [simpl; lia |].
    intros t. cbn [append skip]. now rewrite E1, E2, E3. }
  left. cbn [skip]. now rewrite E1, E2, E3.
Qed.

Lemma skip_cases (s : string) :
  skip p1 p2 p3 s = s \/
  exists p s' : string,
    s = (p ++ s')%string /\ 0 < String.length p /\
    skip p1 p2 p3 s = skip p1 p2 p3 s'.
Proof.
  destruct (skip_step s) as [E | [p [s' [E [L H]]]]]; [now left |].
  right. exists p, s'. split; [exact E |]. split; [exact L |].
  specialize (H ""). rewrite !string_app_nil in H. now rewrite E.
Qed.

(** What [skip] leaves is the end of the string. *)
Lemma skip_suffix (s : string) :
  exists p, s = (p ++ skip p1 p2 p3 s)%string.
Proof.
  remember (String.length s) as n eqn:N.
  revert s N. induction n as [n IH] using lt_wf_ind. intros s N.
  destruct (skip_cases s) as [E | [p [s' [E [L H]]]]].
  - exists "". now rewrite E.
  - destruct (IH (String.length s')) with (s := s') as [q Hq];
      [| reflexivity |].
    + subst s n. rewrite string_length_app. lia.
    + exists (p ++ q)%string.
      rewrite H, string_app_assoc, <- Hq. exact E.
Qed.

Lemma skip_idem (s : string) :
  skip p1 p2 p3 (skip p1 p2 p3 s) = skip p1 p2 p3 s.
Proof.
  remember (String.length s) as n eqn:N.
  revert s N. induction n as [n IH] using lt_wf_ind. intros s N.
  destruct (skip_cases s) as [E | [p [s' [E [L H]]]]].
  - now rewrite !E.
  - rewrite H. apply (IH (String.length s')); [| reflexivity].
    subst s n. rewrite string_length_app. lia.
Qed.

(** A string that starts with one of the characters does so with
    anything after it. *)
Lemma skip_prefix (s t : string) :
  skip p1 p2 p3 (s ++ t)%string = (s ++ t)%string -> skip p1 p2 p3 s = s.
Proof.
  intros H.
  destruct (skip_step s) as [E | [p [s' [E [L K]]]]]; [exact E |].
  exfalso. subst s. rewrite (K t) in H.
  destruct (skip_suffix (s' ++ t)%string) as [q Hq].
  rewrite H in Hq. apply (f_equal String.length) in Hq.
  rewrite !string_length_app in Hq. lia.
Qed.
End SkipFacts.

Lemma skip_ws_idem (s : string) : skip_ws (skip_ws s) = skip_ws s.
Proof. apply skip_idem. Qed.

Lemma skip_ws_rev_idem (s : string) :
  skip_ws_rev (skip_ws_rev s) = skip_ws_rev s.
Proof. apply skip_idem. Qed.

Lemma string_rev_app (p t : string) :
  string_rev (p ++ t)%string "" = (string_rev t "" ++ string_rev p "")%string.
Proof.
  revert t. induction p as [| c p IH]; intros t; simpl.
  - now rewrite string_app_nil.
  - rewrite (string_rev_acc (p ++ t)), (string_rev_acc p (String c "")).
    rewrite IH. now rewrite string_app_assoc.
Qed.

(** A trimmed string does not start with white space. *)
Lemma trim_no_leading (s : string) : skip_ws (trim s) = trim s.
Proof.
  unfold trim.
  set (r := skip_ws s).
  destruct (skip_suffix ws1 (fun a b => ws2 b a) (fun a b c => ws3 c b a)
              (string_rev r "")) as [p Hp].
  fold (skip_ws_rev (string_rev r "")) in Hp.
  set (t := skip_ws_rev (string_rev r "")) in *.
  assert (E : r = (string_rev t "" ++ string_rev p "")%string).
  { now rewrite <- (string_rev_involutive r), Hp, string_rev_app. }
  apply (skip_prefix ws1 ws2 ws3 _ (string_rev p "")). rewrite <- E.
  apply skip_ws_idem.
Qed.

(** Nor does it end with white space. *)
Lemma trim_no_trailing (s : string) :
  skip_ws_rev (string_rev (trim s) "") = string_rev (trim s) "".
Proof.
  unfold trim. rewrite string_rev_involutive. apply skip_ws_rev_idem.
Qed.

(** [trim] leaves a trimmed string as it is. *)
Lemma trim_idem (s : string) : trim (trim s) = trim s.
Proof.
  unfold trim at 1. rewrite trim_no_leading, trim_no_trailing.
  apply string_rev_involutive.
Qed.

Lemma utility_names_trimmed (data : list EVRecord) (u : string) :
  In u (utility_names data) -> trim u = u.
Proof.
  unfold utility_names. rewrite in_flat_map. intros [v [_ H]].
  destruct (truthy_str (electricUtility v)); [| contradiction].
  apply in_map_iff in H. destruct H as [piece [<- _]]. apply trim_idem.
Qed.

(** X11. The utility names that [getUtilityDistribution] returns are
    trimmed: trimming one of them again changes nothing, and none of them
    starts or ends with white space. *)
Theorem getUtilityDistribution_trimmed (this : EVDataProcessor)
    (e : UtilityData.t) :
  (exists out, getUtilityDistribution this = (Normal out, this) /\ In e out) ->
  trim (UtilityData.utility e) = UtilityData.utility e /\
  skip_ws (UtilityData.utility e) = UtilityData.utility e /\
  skip_ws_rev (string_rev (UtilityData.utility e) "")
  = string_rev (UtilityData.utility e) "".
Proof.
  intros [out [E He]].
  unfold getUtilityDistribution, bind, read_rawData, ret in E.
  injection E as <-.
  unfold utilityDistribution, slice0 in He. apply firstn_incl in He.
  apply sort_In, in_map_iff in He. destruct He as [[u c] [<- H]].
  cbn [UtilityData.utility].
  apply utility_map_In in H. destruct H as [N [Hc Hpos]].
  rewrite Hc in Hpos. apply filter_nonempty_In in Hpos.
  destruct Hpos as [n [Hn E]]. apply String.eqb_eq in E. subst n.
  pose proof (utility_names_trimmed _ _ Hn) as T.
  split; [exact T |]. rewrite <- T.
  split; [apply trim_no_leading | apply trim_no_trailing].
Qed.

Lemma getUtilityDistribution_trimmed_witness :
  trim "A" = "A" /\ skip_ws "A" = "A" /\
  skip_ws_rev (string_rev "A" "") = string_rev "A" "".
Proof.
  apply (getUtilityDistribution_trimmed
           {| rawData := [parseRow spaced_row] |}
           {| UtilityData.utility := "A";
              UtilityData.count := 2;
              UtilityData.percentage := Fin 200 |}).
  eexists. split; [reflexivity |]. vm_compute. tauto.
Defined.

(** ** Reading the columns of a row *)

Lemma read_digits_uint (d : Decimal.uint) (a : nat) :
  read_digits 10 (NilEmpty.string_of_uint d) (Some (Z.of_nat a))
  = Some (Z.of_nat (Nat.of_uint_acc d a)).
Proof.
  revert a. induction d; intros a; [reflexivity | ..];
    cbn [NilEmpty.string_of_uint read_digits Nat.of_uint_acc];
    match goal with
    | |- context [digit_val 10 ?c] =>
        let v := eval vm_compute in (digit_val 10 c) in
        change (digit_val 10 c) with v
    end;
    cbv iota; rewrite <- IHd; do 2 f_equal;
    rewrite Nat.tail_mul_spec; lia.
Qed.

Lemma read_digits_uint_first (d : Decimal.uint) :
  d <> Decimal.Nil ->
  read_digits 10 (NilEmpty.string_of_uint d) None
  = Some (Z.of_nat (Nat.of_uint d)).
Proof.
  intros N. unfold Nat.of_uint.
  destruct d; [congruence | ..];
    cbn [NilEmpty.string_of_uint read_digits Nat.of_uint_acc];
    match goal with
    | |- context [digit_val 10 ?c] =>
        let v := eval vm_compute in (digit_val 10 c) in
        change (digit_val 10 c) with v
    end;
    cbv iota;
    match goal with
    | |- read_digits 10 _ (Some ?z) = _ =>
        let n := eval vm_compute in (Z.to_nat z) in
        change z with (Z.of_nat n)
    end;
    apply read_digits_uint.
Qed.

(** No white space starts with an ASCII character that is not one. *)
Lemma skip_ws_ascii (a : ascii) (s : string) :
  ws1 a = false -> (nat_of_ascii a <? 128)%nat = true ->
  skip_ws (String a s) = String a s.
Proof.
  intros W A. apply Nat.ltb_lt in A.
  assert (W2 : forall b, ws2 a b = false).
  { intros b. unfold ws2.
    replace (nat_of_ascii a =? 194)%nat with false; [reflexivity |].
    symmetry. apply Nat.eqb_neq. lia. }
  assert (W3 : forall b c, ws3 a b c = false).
  { intros b c. unfold ws3. cbv zeta.
    replace (nat_of_ascii a =? 225)%nat with false
      by (symmetry; apply Nat.eqb_neq; lia).
    replace (nat_of_ascii a =? 226)%nat with false
      by (symmetry; apply Nat.eqb_neq; lia).
    replace (nat_of_ascii a =? 227)%nat with false
      by (symmetry; apply Nat.eqb_neq; lia).
    replace (nat_of_ascii a =? 239)%nat with false
      by (symmetry; apply Nat.eqb_neq; lia).
    reflexivity. }
  unfold skip_ws. cbn [skip]. rewrite W.
  destruct s as [| b s2]; [reflexivity |]. rewrite W2.
  destruct s2 as [| c s3]; [reflexivity |]. now rewrite W3.
Qed.

(** [parseInt] reads a decimal numeral back as the number it writes. *)
Lemma parseInt_decimal (n : nat) : parseInt (Some (decimal n)) = of_nat n.
Proof.
  unfold of_nat. rewrite <- (DecimalNat.Unsigned.of_to n) at 2.
  unfold parseInt, decimal. generalize (Nat.to_uint n). intros d.
  assert (G : forall s : string,
             skip_ws s = s -> strip_sign s = (false, s) ->
             strip_radix s = (10%Z, s) ->
             forall z, read_digits 10 s None = Some z ->
                       parseInt_string s = of_Z z).
  { intros s E1 E2 E3 z Ez. unfold parseInt_string.
    now rewrite E1, E2, E3, Ez. }
  destruct d as [| d | d | d | d | d | d | d | d | d | d];
    try (apply G; [apply skip_ws_ascii; reflexivity | reflexivity |
                   reflexivity | now apply read_digits_uint_first]).
  - reflexivity.
  - apply G; [apply skip_ws_ascii; reflexivity | reflexivity | |
              now apply read_digits_uint_first].
    destruct d; reflexivity.
Qed.

Lemma numeric_field_decimal (n : nat) :
  (Z.of_nat n < 2 ^ 53)%Z ->
  or_num (parseInt (Some (decimal n))) (Fin 0) = Fin (inject_Z (Z.of_nat n)).
Proof.
  intros H. rewrite parseInt_decimal, of_nat_exact by exact H.
  unfold or_num, truthy.
  destruct (Qeq_bool (inject_Z (Z.of_nat n)) 0) eqn:E; [| reflexivity].
  apply Qeq_bool_iff in E. simpl.
  assert (Z.of_nat n = 0)%Z as ->; [| reflexivity].
  unfold Qeq in E. simpl in E. lia.
Qed.

(** X12. The four numeric columns of a row, when they hold the decimal
    numerals of numbers below 2^53, are read by [parseRow] as these
    numbers. *)
Theorem parseRow_decimal_fields (row : list string)
    (year range msrp district : nat) :
  (Z.of_nat year < 2 ^ 53)%Z -> (Z.of_nat range < 2 ^ 53)%Z ->
  (Z.of_nat msrp < 2 ^ 53)%Z -> (Z.of_nat district < 2 ^ 53)%Z ->
  nth_error row 5 = Some (decimal year) ->
  nth_error row 10 = Some (decimal range) ->
  nth_error row 11 = Some (decimal msrp) ->
  nth_error row 12 = Some (decimal district) ->
  modelYear (parseRow row) = Fin (inject_Z (Z.of_nat year)) /\
  electricRange (parseRow row) = Fin (inject_Z (Z.of_nat range)) /\
  baseMsrp (parseRow row) = Fin (inject_Z (Z.of_nat msrp)) /\
  legislativeDistrict (parseRow row) = Fin (inject_Z (Z.of_nat district)).
Proof.
  intros Hy Hr Hm Hd Ey Er Em Ed. unfold parseRow.
  cbn [modelYear electricRange baseMsrp legislativeDistrict].
  rewrite Ey, Er, Em, Ed.
  now rewrite !numeric_field_decimal.
Qed.

Lemma parseRow_decimal_fields_witness :
  modelYear (parseRow (nth 1 sample_rows []))
  = Fin (inject_Z (Z.of_nat 2021)) /\
  electricRange (parseRow (nth 1 sample_rows []))
  = Fin (inject_Z (Z.of_nat 200)) /\
  baseMsrp (parseRow (nth 1 sample_rows [])) = Fin (inject_Z (Z.of_nat 0)) /\
  legislativeDistrict (parseRow (nth 1 sample_rows []))
  = Fin (inject_Z (Z.of_nat 43)).
Proof.
  apply (parseRow_decimal_fields (nth 1 sample_rows []) 2021 200 0 43);
    reflexivity.
Defined.

(** X13. [parseRow] reads the first seventeen columns of a row: the columns
    after them do not change the record. *)
Theorem parseRow_ignores_extra_columns (row extra : list string) :
  17 <= List.length row -> parseRow (row ++ extra) = parseRow row.
Proof.
  intros H. unfold parseRow.
  now rewrite !nth_error_app1 by lia.
Qed.

Lemma parseRow_ignores_extra_columns_witness :
  parseRow (nth 1 sample_rows [] ++ ["extra"; "columns"])
  = parseRow (nth 1 sample_rows []).
Proof.
  apply (parseRow_ignores_extra_columns (nth 1 sample_rows [])).
  simpl. lia.
Defined.

(** * Properties of the callers of the engine *)

(** ** The pie chart of [GeographicAnalysis] *)

#[local] Arguments firstn : simpl never.
#[local] Arguments skipn : simpl never.

Lemma fold_count_sum {A : Type} (count : A -> nat) (l : list A) (a : nat) :
  fold_left (fun sum x => sum + count x) l a = a + list_sum (map count l).
Proof.
  revert a. induction l as [| x l IH]; intros a; simpl; [lia |].
  rewrite IH. lia.
Qed.

Lemma slice0_literal {A : Type} (l : list A) (n : nat) :
  slice0 l (Fin (inject_Z (Z.of_nat n))) = firstn n l.
Proof.
  rewrite slice0_nonneg.
  - now rewrite Qfloor_Z, Nat2Z.id.
  - change 0%Q with (inject_Z 0). rewrite <- Zle_Qle. lia.
Qed.

Lemma list_sum_firstn_skipn (n : nat) (l : list nat) :
  list_sum (firstn n l) + list_sum (skipn n l) = list_sum l.
Proof. rewrite <- list_sum_app. now rewrite firstn_skipn. Qed.

(** The pie chart keeps the first five entries and adds up the others. *)
Lemma GeographicAnalysis_pie_counts (data : list CountyData.t) :
  let g := GeographicAnalysis data in
  Geographic.totalVehicles g = list_sum (map CountyData.count data) /\
  list_sum (map CountyData.count (Geographic.pieData g))
  = Geographic.totalVehicles g /\
  firstn 5 (Geographic.pieData g) = firstn 5 data /\
  List.length (Geographic.pieData g) <= 6 /\
  forall e, In e (skipn 5 (Geographic.pieData g)) ->
            CountyData.county e = "Others" /\
            CountyData.count e
            = list_sum (map CountyData.count (skipn 5 data)) /\
            0 < CountyData.count e.
Proof.
  cbn [GeographicAnalysis Geographic.totalVehicles Geographic.pieData].
  change (Fin 5) with (Fin (inject_Z (Z.of_nat 5))).
  rewrite slice0_literal. unfold slice_from.
  rewrite !fold_count_sum. cbn [Nat.add].
  set (others := list_sum (map CountyData.count (skipn 5 data))).
  assert (L5 : List.length (firstn 5 data) <= 5) by apply firstn_le_length.
  split; [reflexivity |].
  split; [| split; [| split]].
  - rewrite map_app, list_sum_app, <- firstn_map.
    rewrite <- (list_sum_firstn_skipn 5 (map CountyData.count data)).
    rewrite skipn_map. fold others.
    destruct (Nat.ltb_spec 0 others); simpl; lia.
  - destruct (Nat.le_gt_cases 5 (List.length data)) as [G | L].
    + rewrite firstn_app.
      rewrite length_firstn, Nat.min_l, Nat.sub_diag by exact G.
      rewrite firstn_firstn, firstn_0. simpl. now rewrite app_nil_r.
    + assert (E : others = 0).
      { unfold others. now rewrite skipn_all2 by lia. }
      rewrite E. simpl. rewrite app_nil_r. apply firstn_firstn.
  - rewrite length_app.
    destruct (0 <? others)%nat; simpl; lia.
  - intros e He.
    destruct (Nat.ltb_spec 0 others) as [P | Z].
    + destruct (Nat.le_gt_cases 5 (List.length data)) as [G | L].
      * rewrite skipn_app in He.
        rewrite length_firstn, Nat.min_l, Nat.sub_diag in He by exact G.
        rewrite skipn_all2 in He by (rewrite length_firstn; lia).
        simpl in He. destruct He as [<- | []]. simpl. eauto.
      * exfalso. unfold others in P. rewrite skipn_all2 in P by lia.
        simpl in P. lia.
    + rewrite app_nil_r in He. rewrite skipn_all2 in He by lia.
      contradiction.
Qed.

(** X14. The pie chart that [GeographicAnalysis] draws from the result of
    [getCountyDistribution] accounts for every record that has a county: it
    has at most six slices, the first five counties as they are and one
    slice ["Others"] with the sum of the counts of all the other counties
    when there are more than five, and the counts of its slices add up to
    the number of records with a county. *)
Theorem GeographicAnalysis_pie (records : list EVRecord) :
  let data := countyDistribution records in
  let g := GeographicAnalysis data in
  Geographic.totalVehicles g = List.length (filter named records) /\
  list_sum (map CountyData.count (Geographic.pieData g))
  = List.length (filter named records) /\
  firstn 5 (Geographic.pieData g) = firstn 5 data /\
  List.length (Geographic.pieData g) <= 6 /\
  (skipn 5 (Geographic.pieData g) = [] <-> List.length data <= 5) /\
  forall e, In e (skipn 5 (Geographic.pieData g)) ->
            CountyData.county e = "Others" /\
            CountyData.count e
            = list_sum (map CountyData.count (skipn 5 data)).
Proof.
  intros data g.
  destruct (GeographicAnalysis_pie_counts data) as [T [S [F [L O]]]].
  fold g in T, S, F, L, O.
  pose proof (countyDistribution_count_sum records) as C. fold data in C.
  split; [congruence |]. split; [congruence |].
  split; [exact F |]. split; [exact L |].
  split; [| intros e He; destruct (O e He); tauto].
  split.
  - intros E.
    destruct (Nat.le_gt_cases (List.length data) 5) as [Le | G]; [exact Le |].
    exfalso.
    assert (P : 0 < list_sum (map CountyData.count (skipn 5 data))).
    { destruct (skipn 5 data) as [| x l] eqn:K.
      - apply (f_equal (@List.length _)) in K. rewrite length_skipn in K.
        simpl in K. lia.
      - assert (Hx : In x data).
        { rewrite <- (firstn_skipn 5 data), K. apply in_or_app.
          right. now left. }
        apply countyDistribution_entries in Hx. simpl. lia. }
    unfold g in E.
    cbn [GeographicAnalysis Geographic.pieData] in E.
    unfold slice_from in E. rewrite fold_count_sum in E. cbn [Nat.add] in E.
    apply Nat.ltb_lt in P. rewrite P in E.
    change (Fin 5) with (Fin (inject_Z (Z.of_nat 5))) in E.
    rewrite slice0_literal in E.
    rewrite skipn_app, length_firstn, Nat.min_l in E by lia.
    rewrite Nat.sub_diag in E.
    apply (f_equal (@List.length _)) in E. rewrite length_app in E.
    simpl in E. lia.
  - intros Le.
    destruct (skipn 5 (Geographic.pieData g)) as [| e l] eqn:K;
      [reflexivity |].
    destruct (O e) as [_ [Ec Pos]]; [now left |].
    rewrite (skipn_all2 data) in Ec by exact Le. simpl in Ec. lia.
Qed.

Lemma GeographicAnalysis_pie_witness :
  let records :=
    map parseRow [["V1"; "A"]; ["V2"; "B"]; ["V3"; "C"]; ["V4"; "D"];
                  ["V5"; "E"]; ["V6"; "F"]; ["V7"; "G"]] in
  let data := countyDistribution records in
  exists e : CountyData.t,
    In e (skipn 5 (Geographic.pieData (GeographicAnalysis data))) /\
    CountyData.county e = "Others" /\
    CountyData.count e = list_sum (map CountyData.count (skipn 5 data)).
Proof.
  intros records data.
  pose proof (GeographicAnalysis_pie records) as [_ [_ [_ [_ [Few Others]]]]].
  fold data in Few, Others.
  destruct (skipn 5 (Geographic.pieData (GeographicAnalysis data)))
    as [| e l] eqn:K.
  - exfalso. assert (L : List.length data <= 5) by now apply Few.
    vm_compute in L. lia.
  - exists e. split; [now left |]. apply Others. now left.
Defined.

(** ** The ranges of a make in [RangeAnalysis] *)

Lemma range_count_step_total (ranges : RangeCounts) (v : EVRecord) :
  let r := range_count_step ranges v in
  r_0_50 r + r_51_100 r + r_101_200 r + r_201_300 r + r_300 r
  = r_0_50 ranges + r_51_100 ranges + r_101_200 ranges + r_201_300 ranges
    + r_300 ranges + 1.
Proof.
  unfold range_count_step.
  destruct (jsle (electricRange v) (Fin 50));
    [| destruct (jsle (electricRange v) (Fin 100));
       [| destruct (jsle (electricRange v) (Fin 200));
          [| destruct (jsle (electricRange v) (Fin 300))]]];
    simpl; lia.
Qed.

Lemma range_count_fold_total (l : list EVRecord) (ranges : RangeCounts) :
  let r := fold_left range_count_step l ranges in
  r_0_50 r + r_51_100 r + r_101_200 r + r_201_300 r + r_300 r
  = r_0_50 ranges + r_51_100 ranges + r_101_200 ranges + r_201_300 ranges
    + r_300 ranges + List.length l.
Proof.
  revert ranges. induction l as [| v l IH]; intros ranges; simpl; [lia |].
  rewrite IH. pose proof (range_count_step_total ranges v) as S.
  simpl in S. lia.
Qed.

Lemma range_count_fold_first (l : list EVRecord) (ranges : RangeCounts) :
  r_0_50 (fold_left range_count_step l ranges)
  = r_0_50 ranges
    + List.length (filter (fun v => jsle (electricRange v) (Fin 50)) l).
Proof.
  revert ranges.
  induction l as [| v l IH]; intros ranges; cbn [fold_left filter];
    [simpl; lia |].
  rewrite IH. unfold range_count_step.
  destruct (jsle (electricRange v) (Fin 50));
    [| destruct (jsle (electricRange v) (Fin 100));
       [| destruct (jsle (electricRange v) (Fin 200));
          [| destruct (jsle (electricRange v) (Fin 300))]]];
    cbn [r_0_50 List.length]; lia.
Qed.

(** X15. For every make that [getMakeDistribution] returns, the breakdown
    that [getRangeByMake] computes has the five range groups in their order,
    its counts add up to the count of the make in [getMakeDistribution],
    and its first group counts every record of the make with a range of at
    most 50, the records of unknown range (0) among them. *)
Theorem getRangeByMake_accounts (rawData : list EVRecord) (k : string)
    (groups : list RangeComparisonData.t) :
  In (k, groups) (getRangeByMake rawData (makeDistribution rawData)) ->
  map RangeComparisonData.range groups
  = ["0-50"; "51-100"; "101-200"; "201-300"; "300+"] /\
  Forall (fun g => RangeComparisonData.make g = k) groups /\
  (exists m, In m (makeDistribution rawData) /\ MakeData.make m = k /\
             list_sum (map RangeComparisonData.count groups)
             = MakeData.count m) /\
  option_map RangeComparisonData.count (nth_error groups 0)
  = Some (List.length
            (filter (fun v => jsle (electricRange v) (Fin 50))
                    (filter (of_make k) rawData))).
Proof.
  unfold getRangeByMake. rewrite in_map_iff.
  intros [m [E Hm]]. injection E as <- <-.
  split; [reflexivity |].
  split; [repeat constructor |].
  split.
  - exists m. split; [exact Hm |]. split; [reflexivity |].
    destruct (proj2 (proj2 (proj2 (makeDistribution_listing rawData))) m Hm)
      as [-> _].
    unfold rangeByMake. cbn [map list_sum fold_right RangeComparisonData.count].
    pose proof (range_count_fold_total
                  (filter (fun v => String.eqb (make v) (MakeData.make m))
                          rawData)
                  {| r_0_50 := 0; r_51_100 := 0; r_101_200 := 0;
                     r_201_300 := 0; r_300 := 0 |}) as S.
    cbn [r_0_50 r_51_100 r_101_200 r_201_300 r_300] in S.
    unfold of_make. lia.
  - unfold rangeByMake.
    cbn [map nth_error option_map RangeComparisonData.count].
    now rewrite range_count_fold_first.
Qed.

Lemma getRangeByMake_accounts_witness :
  map RangeComparisonData.range (rangeByMake sample_data "NISSAN")
  = ["0-50"; "51-100"; "101-200"; "201-300"; "300+"] /\
  Forall (fun g => RangeComparisonData.make g = "NISSAN")
         (rangeByMake sample_data "NISSAN") /\
  (exists m, In m (makeDistribution sample_data) /\
             MakeData.make m = "NISSAN" /\
             list_sum (map RangeComparisonData.count
                           (rangeByMake sample_data "NISSAN"))
             = MakeData.count m) /\
  option_map RangeComparisonData.count
             (nth_error (rangeByMake sample_data "NISSAN") 0)
  = Some (List.length
            (filter (fun v => jsle (electricRange v) (Fin 50))
                    (filter (of_make "NISSAN") sample_data))).
Proof.
  apply (getRangeByMake_accounts sample_data "NISSAN"
           (rangeByMake sample_data "NISSAN")).
  vm_compute. tauto.
Defined.

(** ** The growth figures of [ComparisonCharts] *)

Open Scope Q_scope.

Lemma fl_opp (q r : Q) :
  0 < q -> fl q = Fin r -> exists r', fl (- q) = Fin r' /\ r' == - r.
Proof.
  intros Hq. unfold fl.
  assert (G : (q ?= 0) = Gt) by now apply Qgt_alt.
  assert (L : (- q ?= 0) = Lt).
  { apply (proj1 (Qlt_alt (- q) 0)). lra. }
  rewrite G, L.
  assert (P : fl_abs (- - q) == fl_abs q)
    by (apply fl_abs_proper; [lra | apply Qopp_involutive]).
  assert (B : Qle_bool (pow2 1024) (fl_abs (- - q))
              = Qle_bool (pow2 1024) (fl_abs q)).
  { destruct (Qle_bool (pow2 1024) (fl_abs q)) eqn:O.
    - apply Qle_bool_iff. apply Qle_bool_iff in O. now rewrite P.
    - destruct (Qle_bool (pow2 1024) (fl_abs (- - q))) eqn:O';
        [| reflexivity].
      apply Qle_bool_iff in O'. rewrite P in O'.
      apply Qle_bool_iff in O'. congruence. }
  rewrite B. destruct (Qle_bool (pow2 1024) (fl_abs q)); [discriminate |].
  intros E. eexists. split; [reflexivity |].
  replace r with (Qred (fl_abs q)) by congruence.
  rewrite !Qred_correct. now rewrite P.
Qed.

(** One rounded operation on a negative operand of moderate size. *)
Lemma fl_error_mid_neg (q : Q) :
  q <= - (1 # 1152921504606846976) -> - (1152921504606846976) <= q ->
  exists r : Q,
    fl q = Fin r /\
    q + q * (1 # 9007199254740992) <= r <= q - q * (1 # 9007199254740992).
Proof.
  intros U L.
  assert (U' : 1 # 1152921504606846976 <= - q) by lra.
  assert (L' : - q <= 1152921504606846976) by lra.
  destruct (fl_error_mid (- q) U' L') as [r [E B]].
  assert (Hq : 0 < - q) by lra.
  destruct (fl_opp (- q) r Hq E) as [r' [E' R]].
  exists r'. split.
  - rewrite <- E'. apply fl_proper. now rewrite Qopp_involutive.
  - rewrite R. lra.
Qed.

Lemma or_0_count (z : Z) :
  or_0 (Some (Fin (inject_Z z))) = Fin (inject_Z z).
Proof.
  unfold or_0, or_num, truthy.
  destruct (Qeq_bool (inject_Z z) 0) eqn:E; [| reflexivity].
  apply Qeq_bool_eq in E. unfold Qeq in E. simpl in E.
  assert (z = 0)%Z by lia. now subst.
Qed.

Lemma inject_Z_sub (a b : Z) :
  inject_Z (a - b) == inject_Z a - inject_Z b.
Proof.
  unfold Z.sub. rewrite inject_Z_plus, inject_Z_opp. reflexivity.
Qed.

Lemma calculateGrowth_last2 (before : list (list (string * number)))
    (pp pl : list (string * number)) (key : string) :
  calculateGrowth (before ++ [pp; pl]) key
  = if is_zero (or_0 (obj_get pp key)) then Fin 0
    else jsmul (jsdiv (jssub (or_0 (obj_get pl key)) (or_0 (obj_get pp key)))
                      (or_0 (obj_get pp key)))
               (Fin 100).
Proof.
  unfold calculateGrowth.
  assert (N : List.length (before ++ [pp; pl]) = S (S (List.length before))).
  { rewrite length_app. simpl. lia. }
  rewrite N.
  replace (S (S (List.length before)) <? 2)%nat with false
    by (symmetry; apply Nat.ltb_ge; lia).
  replace (S (S (List.length before)) - 1)%nat
    with (List.length before + 1)%nat by lia.
  replace (S (S (List.length before)) - 2)%nat
    with (List.length before + 0)%nat by lia.
  rewrite !nth_error_app2 by lia.
  replace (List.length before + 1 - List.length before)%nat with 1%nat by lia.
  replace (List.length before + 0 - List.length before)%nat with 0%nat by lia.
  reflexivity.
Qed.

Lemma count_ratio_bounds (d p : Z) :
  (1 <= d < 2 ^ 53)%Z -> (1 <= p < 2 ^ 53)%Z ->
  1 # 9007199254740992 <= inject_Z d / inject_Z p <= 9007199254740992.
Proof.
  intros [Hd1 Hd] [Hp1 Hp].
  assert (D1 : 1 <= inject_Z d)
    by (change 1 with (inject_Z 1); rewrite <- Zle_Qle; lia).
  assert (P1 : 1 <= inject_Z p)
    by (change 1 with (inject_Z 1); rewrite <- Zle_Qle; lia).
  assert (D2 : inject_Z d <= 9007199254740992).
  { change (9007199254740992 : Q) with (inject_Z (2 ^ 53)).
    rewrite <- Zle_Qle. lia. }
  assert (P2 : inject_Z p <= 9007199254740992).
  { change (9007199254740992 : Q) with (inject_Z (2 ^ 53)).
    rewrite <- Zle_Qle. lia. }
  split.
  - apply Qle_shift_div_l; lra.
  - apply Qle_shift_div_r; nra.
Qed.

(** The value of [((latest - previous) / previous) * 100] on two counts. *)
Lemma growth_value (l p : Z) :
  (0 <= l < 2 ^ 53)%Z -> (0 < p < 2 ^ 53)%Z ->
  exists g : Q,
    jsmul (jsdiv (jssub (Fin (inject_Z l)) (Fin (inject_Z p)))
                 (Fin (inject_Z p)))
          (Fin 100) = Fin g /\
    Qabs (g - 100 * ((inject_Z l - inject_Z p) / inject_Z p))
    <= Qabs (100 * ((inject_Z l - inject_Z p) / inject_Z p))
       * (3 # 9007199254740992) /\
    (0 < g <-> (p < l)%Z) /\ (g < 0 <-> (l < p)%Z).
Proof.
  intros Hl Hp.
  assert (P1 : 1 <= inject_Z p)
    by (change 1 with (inject_Z 1); rewrite <- Zle_Qle; lia).
  assert (NZ : Qeq_bool (inject_Z p) 0 = false).
  { destruct (Qeq_bool (inject_Z p) 0) eqn:E; [| reflexivity].
    apply Qeq_bool_eq in E. lra. }
  destruct (Z.lt_trichotomy l p) as [Lt | [-> | Gt]].
  - (* the count fell *)
    set (d := (p - l)%Z).
    assert (Hd : (1 <= d < 2 ^ 53)%Z) by (unfold d; lia).
    assert (Dpos : 0 < inject_Z d)
      by (change 0 with (inject_Z 0); rewrite <- Zlt_Qlt; lia).
    destruct (fl_opp (inject_Z d) (inject_Z d) Dpos) as [r' [E' R]];
      [apply fl_int_exact; lia |].
    assert (S : jssub (Fin (inject_Z l)) (Fin (inject_Z p)) = Fin r').
    { cbn [jssub]. rewrite <- E'. apply fl_proper.
      unfold d. rewrite inject_Z_sub. ring. }
    rewrite S. cbn [jsdiv]. rewrite NZ.
    pose proof (count_ratio_bounds d p Hd ltac:(lia)) as [B1 B2].
    set (X := inject_Z d / inject_Z p) in *.
    assert (EX : r' / inject_Z p == - X)
      by (unfold X; rewrite R; field; lra).
    destruct (fl_error_mid_neg (r' / inject_Z p)) as [r1 [E1 [L1 U1]]];
      [lra | lra |].
    rewrite E1. cbn [jsmul].
    destruct (fl_error_mid_neg (r1 * 100)) as [g [E2 [L2 U2]]];
      [lra | lra |].
    exists g. split; [exact E2 |].
    assert (EY : 100 * ((inject_Z l - inject_Z p) / inject_Z p) == - (100 * X)).
    { unfold X, d. rewrite inject_Z_sub. field. lra. }
    rewrite EY. split; [| split].
    + rewrite Qabs_opp, (Qabs_pos (100 * X)) by lra.
      apply Qabs_Qle_condition. split; lra.
    + split; [lra | lia].
    + split; [lia | lra].
  - (* no change *)
    assert (S : jssub (Fin (inject_Z p)) (Fin (inject_Z p)) = Fin 0)
      by (cbn [jssub]; apply fl_zero; ring).
    rewrite S. cbn [jsdiv]. rewrite NZ.
    rewrite (fl_zero (0 / inject_Z p)) by (field; lra).
    exists 0. split; [reflexivity |].
    assert (EY : 100 * ((inject_Z p - inject_Z p) / inject_Z p) == 0)
      by (field; lra).
    rewrite EY. split; [| split].
    + apply Qabs_Qle_condition. split; simpl; lra.
    + split; [lra | lia].
    + split; [lra | lia].
  - (* the count rose *)
    set (d := (l - p)%Z).
    assert (Hd : (1 <= d < 2 ^ 53)%Z) by (unfold d; lia).
    assert (S : jssub (Fin (inject_Z l)) (Fin (inject_Z p))
                = Fin (inject_Z d)).
    { cbn [jssub]. rewrite <- (fl_int_exact d) by lia. apply fl_proper.
      unfold d. now rewrite inject_Z_sub. }
    rewrite S. cbn [jsdiv]. rewrite NZ.
    pose proof (count_ratio_bounds d p Hd ltac:(lia)) as [B1 B2].
    set (X := inject_Z d / inject_Z p) in *.
    destruct (fl_error_mid X) as [r1 [E1 [L1 U1]]]; [lra | lra |].
    rewrite E1. cbn [jsmul].
    destruct (fl_error_mid (r1 * 100)) as [g [E2 [L2 U2]]];
      [lra | lra |].
    exists g. split; [exact E2 |].
    assert (EY : 100 * ((inject_Z l - inject_Z p) / inject_Z p) == 100 * X).
    { unfold X, d. rewrite inject_Z_sub. reflexivity. }
    rewrite EY. split; [| split].
    + rewrite (Qabs_pos (100 * X)) by lra.
      apply Qabs_Qle_condition. split; lra.
    + split; [lia | lra].
    + split; [lra | lia].
Qed.

(** X16. On a series whose last two points hold the counts [p] and then [l]
    under the key, [calculateGrowth] is 0 when [p] is 0 and otherwise the
    relative change 100 (l - p) / p up to three rounding errors; the page
    shows a rise exactly when 0 < p < l and a fall exactly when l < p. *)
Theorem calculateGrowth_sign (before : list (list (string * number)))
    (pp pl : list (string * number)) (key : string) (l p : Z) :
  obj_get pl key = Some (Fin (inject_Z l)) ->
  obj_get pp key = Some (Fin (inject_Z p)) ->
  (0 <= l < 2 ^ 53)%Z -> (0 <= p < 2 ^ 53)%Z ->
  let growth := calculateGrowth (before ++ [pp; pl]) key in
  (exists g : Q,
     growth = Fin g /\
     (p = 0%Z -> g == 0) /\
     ((0 < p)%Z ->
      Qabs (g - 100 * ((inject_Z l - inject_Z p) / inject_Z p))
      <= Qabs (100 * ((inject_Z l - inject_Z p) / inject_Z p))
         * (3 # 9007199254740992))) /\
  (jsgt growth (Fin 0) = true <-> (0 < p < l)%Z) /\
  (jsgt (Fin 0) growth = true <-> (l < p)%Z).
Proof.
  intros Hl Hp Bl Bp. cbv zeta.
  rewrite calculateGrowth_last2, Hl, Hp, !or_0_count.
  destruct (Z.eq_dec p 0) as [-> | Np].
  - change (is_zero (Fin (inject_Z 0))) with true. cbv iota.
    split; [| split].
    + exists 0. split; [reflexivity |]. split; [reflexivity | lia].
    + split; [discriminate | lia].
    + split; [discriminate | lia].
  - assert (NZ : is_zero (Fin (inject_Z p)) = false).
    { cbn [is_zero]. destruct (Qeq_bool (inject_Z p) 0) eqn:E;
        [| reflexivity].
      apply Qeq_bool_eq in E. unfold Qeq in E. simpl in E. lia. }
    rewrite NZ.
    destruct (growth_value l p Bl ltac:(lia)) as [g [E [B [Pos Neg]]]].
    rewrite E. split; [| split].
    + exists g. split; [reflexivity |]. split; [lia | intros _; exact B].
    + cbn [jsgt]. rewrite negb_true_iff.
      split.
      * intros F. assert (0 < g).
        { apply Qnot_le_lt. intros C. apply Qle_bool_iff in C. congruence. }
        apply Pos in H. lia.
      * intros [_ H]. apply Pos in H.
        destruct (Qle_bool g 0) eqn:C; [| reflexivity].
        apply Qle_bool_iff in C. lra.
    + cbn [jsgt]. rewrite negb_true_iff.
      split.
      * intros F. assert (g < 0).
        { apply Qnot_le_lt. intros C. apply Qle_bool_iff in C. congruence. }
        now apply Neg.
      * intros H. apply Neg in H.
        destruct (Qle_bool 0 g) eqn:C; [| reflexivity].
        apply Qle_bool_iff in C. lra.
Qed.

Lemma calculateGrowth_sign_witness :
  let growth :=
    calculateGrowth
      ([] ++ [[("year", Fin 2020); ("make1", Fin (inject_Z 4))];
              [("year", Fin 2021); ("make1", Fin (inject_Z 5))]])
      "make1" in
  (exists g : Q,
     growth = Fin g /\
     (4%Z = 0%Z -> g == 0) /\
     ((0 < 4)%Z ->
      Qabs (g - 100 * ((inject_Z 5 - inject_Z 4) / inject_Z 4))
      <= Qabs (100 * ((inject_Z 5 - inject_Z 4) / inject_Z 4))
         * (3 # 9007199254740992))) /\
  (jsgt growth (Fin 0) = true <-> (0 < 4 < 5)%Z) /\
  (jsgt (Fin 0) growth = true <-> (5 < 4)%Z).
Proof.
  apply (calculateGrowth_sign []
           [("year", Fin 2020); ("make1", Fin (inject_Z 4))]
           [("year", Fin 2021); ("make1", Fin (inject_Z 5))]
           "make1" 5 4);
    [reflexivity | reflexivity | lia | lia].
Defined.

Close Scope Q_scope.

(** ** The page [Home] *)

Section HomeFacts.
Variable fetch_text : string -> completion string.
Variable Papa_parse : string -> list (list string).
Variable max_arguments : nat.
Variable range_message : string.

Lemma Home_analytics_throws (error : js_error) :
  fetch_text "/data.csv" = Throw error ->
  fst (Home_analytics fetch_text Papa_parse max_arguments range_message
         new_EVDataProcessor)
  = Throw error.
Proof.
  intros E. unfold Home_analytics, bind.
  now rewrite (loadData_throws _ _ _ _ _ E).
Qed.

Lemma years_length (data : list EVRecord) :
  List.length (filter (fun y => jsgt y (Fin 0)) (map modelYear data))
  = List.length (filter positive_year data).
Proof. now rewrite filter_of_map, length_map. Qed.

Lemma Home_analytics_loads (csvText : string) :
  fetch_text "/data.csv" = Normal csvText ->
  let data := map parseRow (tl (Papa_parse csvText)) in
  List.length (filter positive_year data) <= max_arguments ->
  fst (Home_analytics fetch_text Papa_parse max_arguments range_message
         new_EVDataProcessor)
  = Normal {| d_stats := dashboardStats data;
              d_yearlyData := yearlyTrends data;
              d_countyData := countyDistribution data;
              d_makeData := makeDistribution data;
              d_modelData := topModels data (Fin 15);
              d_rangeData := rangeDistribution data |}.
Proof.
  intros E data L. unfold Home_analytics, bind.
  rewrite (loadData_installs _ _ _ _ _ E).
  unfold run_getDashboardStats, bind, read_rawData. cbn [rawData].
  fold data. rewrite years_length.
  apply Nat.leb_le in L. now rewrite L.
Qed.

Lemma Home_analytics_overflows (csvText : string) :
  fetch_text "/data.csv" = Normal csvText ->
  let data := map parseRow (tl (Papa_parse csvText)) in
  max_arguments < List.length (filter positive_year data) ->
  fst (Home_analytics fetch_text Papa_parse max_arguments range_message
         new_EVDataProcessor)
  = Throw (Error range_message).
Proof.
  intros E data L. unfold Home_analytics, bind.
  rewrite (loadData_installs _ _ _ _ _ E).
  unfold run_getDashboardStats, bind, read_rawData. cbn [rawData].
  fold data. rewrite years_length.
  apply Nat.leb_gt in L. now rewrite L.
Qed.
End HomeFacts.

(** X17. The effect of the page [Home] always ends with [loading] off.  When
    the file cannot be fetched, the page holds the message of the error,
    or ["Failed to load data"] for a thrown value that is no [Error], and
    keeps the figures it had.  When the file is fetched and the engine
    accepts a call with one argument for each row with a positive model
    year, the page holds no error, its total is the number of rows after
    the header, it lists at most 15 models, and every list is the one of
    the engine query on the records of these rows.  When the engine
    refuses such a call, the page holds the message of its [RangeError] and
    keeps the figures it had. *)
Theorem Home_loadData_outcome
    (fetch_text : string -> completion string)
    (Papa_parse : string -> list (list string))
    (max_arguments : nat) (range_message : string) (s : HomeState) :
  let s' :=
    Home_loadData fetch_text Papa_parse max_arguments range_message s in
  let kept :=
    h_stats s' = h_stats s /\
    h_yearlyData s' = h_yearlyData s /\
    h_countyData s' = h_countyData s /\
    h_makeData s' = h_makeData s /\
    h_modelData s' = h_modelData s /\
    h_rangeData s' = h_rangeData s in
  h_loading s' = false /\
  match fetch_text "/data.csv" with
  | Throw (Error message) => h_error s' = Some message /\ kept
  | Throw (Thrown _) => h_error s' = Some "Failed to load data" /\ kept
  | Normal csvText =>
      let rows := tl (Papa_parse csvText) in
      let this := {| rawData := map parseRow rows |} in
      let dated := List.length (filter positive_year (rawData this)) in
      if (dated <=? max_arguments)%nat
      then
        h_error s' = None /\
        option_map DashboardStats.totalVehicles (h_stats s')
        = Some (List.length rows) /\
        List.length (h_modelData s') <= 15 /\
        (Normal (h_yearlyData s'), this) = getYearlyTrends this /\
        (Normal (h_countyData s'), this) = getCountyDistribution this /\
        (Normal (h_makeData s'), this) = getMakeDistribution this /\
        (Normal (h_modelData s'), this) = getTopModels (Some (Fin 15)) this /\
        (Normal (h_rangeData s'), this) = getRangeDistribution this
      else h_error s' = Some range_message /\ kept
  end.
Proof.
  cbv zeta. split; [reflexivity |].
  unfold Home_loadData.
  destruct (fetch_text "/data.csv") as [csvText | error] eqn:E.
  - cbn [rawData].
    destruct (Nat.leb_spec
                (List.length
                   (filter positive_year
                           (map parseRow (tl (Papa_parse csvText)))))
                max_arguments) as [L | L].
    + pose proof (Home_analytics_loads fetch_text Papa_parse max_arguments
                    range_message csvText E L) as H.
      destruct (Home_analytics fetch_text Papa_parse max_arguments
                  range_message new_EVDataProcessor) as [c this'].
      cbn [fst] in H. subst c.
      cbn [h_error h_stats h_yearlyData h_countyData h_makeData h_modelData
           h_rangeData d_stats d_yearlyData d_countyData d_makeData
           d_modelData d_rangeData].
      repeat match goal with |- _ /\ _ => split end; try reflexivity.
      * cbn [option_map]. f_equal. unfold dashboardStats.
        cbn [DashboardStats.totalVehicles]. apply length_map.
      * unfold topModels.
        change (Fin 15) with (Fin (inject_Z (Z.of_nat 15))).
        rewrite slice0_literal. apply firstn_le_length.
    + pose proof (Home_analytics_overflows fetch_text Papa_parse
                    max_arguments range_message csvText E L) as H.
      destruct (Home_analytics fetch_text Papa_parse max_arguments
                  range_message new_EVDataProcessor) as [c this'].
      cbn [fst] in H. subst c.
      repeat split.
  - pose proof (Home_analytics_throws fetch_text Papa_parse max_arguments
                  range_message error E) as H.
    destruct (Home_analytics fetch_text Papa_parse max_arguments
                range_message new_EVDataProcessor) as [c this'].
    cbn [fst] in H. subst c.
    destruct error; repeat split.
Qed.

(** ** The listings of the grouping queries *)

(** X18. [getCountyDistribution] lists every non-empty county of the record
    set once and nothing else, in descending order of the counts; the count
    of an entry is the number of records of its county, and its percentage
    is the one of this count in the whole record set, to two decimals. *)
Theorem getCountyDistribution_listing (this : EVDataProcessor) :
  let data := rawData this in
  exists out : list CountyData.t,
    getCountyDistribution this = (Normal out, this) /\
    descending CountyData.count out /\
    NoDup (map CountyData.county out) /\
    (forall k : string,
        In k (map CountyData.county out) <->
        k <> "" /\ exists v, In v data /\ county v = k) /\
    (forall e : CountyData.t,
        In e out ->
        CountyData.count e
        = List.length (filter (of_county (CountyData.county e)) data) /\
        CountyData.percentage e
        = percent2 (CountyData.count e) (List.length data)).
Proof.
  intros data. exists (countyDistribution data).
  destruct (countyDistribution_listing data) as [D [N [Names Counts]]].
  split; [reflexivity |]. split; [exact D |]. split; [exact N |].
  split; [exact Names |].
  intros e He. split; [now apply Counts |].
  now apply countyDistribution_entries.
Qed.

Lemma getCountyDistribution_listing_witness :
  exists (out : list CountyData.t) (e : CountyData.t),
    getCountyDistribution sample_engine = (Normal out, sample_engine) /\
    In e out /\ CountyData.county e = "King" /\
    CountyData.count e
    = List.length (filter (of_county "King") sample_data) /\
    CountyData.percentage e
    = percent2 (CountyData.count e) (List.length sample_data).
Proof.
  destruct (getCountyDistribution_listing sample_engine)
    as [out [E [_ [_ [Names Entries]]]]].
  assert (I : In "King" (map CountyData.county out)).
  { apply Names. split; [discriminate |].
    exists (nth 0 sample_data (parseRow [])).
    split; [now left | reflexivity]. }
  apply in_map_iff in I. destruct I as [e [Ek He]].
  exists out, e. split; [exact E |]. split; [exact He |].
  split; [exact Ek |]. rewrite <- Ek. now apply Entries.
Defined.

(** X19. [getMakeDistribution] lists every non-empty make of the record set
    once and nothing else, in descending order of the counts, and its counts
    add up to the number of records that have a make; the count of an entry
    is the number of records of its make, its percentage is the one of this
    count in the whole record set, and its average range is the rounded
    mean of the known ranges of these records, 0 when there is none. *)
Theorem getMakeDistribution_listing (this : EVDataProcessor) :
  let data := rawData this in
  exists out : list MakeData.t,
    getMakeDistribution this = (Normal out, this) /\
    descending MakeData.count out /\
    NoDup (map MakeData.make out) /\
    list_sum (map MakeData.count out)
    = List.length (filter (fun v => truthy_str (make v)) data) /\
    (forall k : string,
        In k (map MakeData.make out) <->
        k <> "" /\ exists v, In v data /\ make v = k) /\
    (forall e : MakeData.t,
        In e out ->
        let group := filter (of_make (MakeData.make e)) data in
        MakeData.count e = List.length group /\
        MakeData.percentage e
        = percent2 (List.length group) (List.length data) /\
        MakeData.avgRange e =
          match filter known_range group with
          | [] => Fin 0
          | known =>
              Math_round
                (jsdiv (range_sum group) (of_nat (List.length known)))
          end).
Proof.
  intros data. exists (makeDistribution data).
  destruct (makeDistribution_listing data) as [D [N [Names Entries]]].
  split; [reflexivity |]. split; [exact D |]. split; [exact N |].
  split; [apply makeDistribution_count_sum |].
  split; [exact Names | exact Entries].
Qed.

Lemma getMakeDistribution_listing_witness :
  exists (out : list MakeData.t) (e : MakeData.t),
    getMakeDistribution sample_engine = (Normal out, sample_engine) /\
    In e out /\ MakeData.make e = "NISSAN" /\
    MakeData.count e
    = List.length (filter (of_make "NISSAN") sample_data).
Proof.
  destruct (getMakeDistribution_listing sample_engine)
    as [out [E [_ [_ [_ [Names Entries]]]]]].
  assert (I : In "NISSAN" (map MakeData.make out)).
  { apply Names. split; [discriminate |].
    exists (nth 1 sample_data (parseRow [])).
    split; [right; now left | reflexivity]. }
  apply in_map_iff in I. destruct I as [e [Ek He]].
  exists out, e. split; [exact E |]. split; [exact He |].
  split; [exact Ek |]. rewrite <- Ek. now apply Entries.
Defined.

(** X20. [getYearlyTrends] has one entry for each positive model year of the
    record set and nothing else: the count of an entry is the number of
    records of its year, its BEV and PHEV counts are the numbers of these
    records of either type and never exceed the count together, and the
    counts add up to the number of records with a positive model year. *)
Theorem getYearlyTrends_listing (this : EVDataProcessor) :
  let data := rawData this in
  exists out : list YearlyData.t,
    getYearlyTrends this = (Normal out, this) /\
    list_sum (map YearlyData.count out)
    = List.length (filter positive_year data) /\
    (forall y : YearlyData.t,
        In y out ->
        let group := filter (of_year (YearlyData.year y)) data in
        jsgt (YearlyData.year y) (Fin 0) = true /\
        group <> [] /\
        YearlyData.count y = List.length group /\
        YearlyData.bevCount y = List.length (filter is_bev group) /\
        YearlyData.phevCount y = List.length (filter is_phev group) /\
        YearlyData.bevCount y + YearlyData.phevCount y
        <= YearlyData.count y) /\
    (forall v : EVRecord,
        In v data -> jsgt (modelYear v) (Fin 0) = true ->
        exists y, In y out /\
                  same_value (YearlyData.year y) (modelYear v) = true) /\
    (forall y1 y2 : YearlyData.t,
        In y1 out -> In y2 out ->
        same_value (YearlyData.year y1) (YearlyData.year y2) = true ->
        y1 = y2).
Proof.
  intros data. exists (yearlyTrends data).
  destruct (yearlyTrends_listing data) as [Entries [Covered Unique]].
  split; [reflexivity |]. split; [apply yearlyTrends_count_sum |].
  split; [exact Entries |]. split; [exact Covered | exact Unique].
Qed.

Lemma getYearlyTrends_listing_witness :
  exists (out : list YearlyData.t) (y : YearlyData.t),
    getYearlyTrends sample_engine = (Normal out, sample_engine) /\
    In y out /\
    same_value (YearlyData.year y) (Fin 2021) = true /\
    YearlyData.count y
    = List.length (filter (of_year (YearlyData.year y)) sample_data) /\
    YearlyData.bevCount y + YearlyData.phevCount y <= YearlyData.count y.
Proof.
  destruct (getYearlyTrends_listing sample_engine)
    as [out [E [_ [Entries [Covered _]]]]].
  destruct (Covered (nth 0 sample_data (parseRow []))) as [y [Hy Sy]];
    [now left | reflexivity |].
  exists out, y. split; [exact E |]. split; [exact Hy |].
  split; [exact Sy |].
  destruct (Entries y Hy) as [_ [_ [C [_ [_ L]]]]].
  split; [exact C | exact L].
Defined.

(** X21. On the records of parsed rows, [getYearlyTrends] is in strictly
    ascending order of the years. *)
Theorem getYearlyTrends_ascending (rows : list (list string)) :
  let this := {| rawData := map parseRow rows |} in
  exists out : list YearlyData.t,
    getYearlyTrends this = (Normal out, this) /\
    StronglySorted
      (fun a b => jsgt (YearlyData.year b) (YearlyData.year a) = true) out.
Proof.
  intros this. exists (yearlyTrends (map parseRow rows)).
  split; [reflexivity | apply yearlyTrends_ascending].
Qed.
